(** * Heatwave: a shallow embedding of [src/index.ts]

    Heatwave unfreezes Everscale accounts: it estimates the storage fee
    debt of every listed account, finds the transaction that froze it,
    asks the states service for the state at that logical time, keeps the
    decoded state in a cache directory and finally redeploys the state
    through the microwave contract, paid by a giver wallet.

    The embedding follows the TypeScript source function by function.
    Everything the program obtains from outside (the JSON-RPC provider,
    the states service, the wasm decoder, the clock, the keys file) is a
    field of the record [World]; the file system, the accounts storage
    and the console are the state threaded through a small state and
    exception monad. *)

From Stdlib Require Import ZArith NArith List String Ascii Bool Lia.
From Stdlib.Strings Require Import Byte.
From Stdlib Require Import DecimalString DecimalPos DecimalN DecimalZ DecimalNat.
From stdpp Require Import gmap strings.
Import ListNotations.

Local Open Scope string_scope.
Local Open Scope list_scope.

(** ** Strings *)

Module Str.

(** [s.startsWith(p)] *)
Fixpoint startsWith (p s : string) : bool :=
  match p, s with
  | EmptyString, _ => true
  | String a p', String b s' => Ascii.eqb a b && startsWith p' s'
  | String _ _, EmptyString => false
  end.

(** [items.join(sep)] *)
Fixpoint join (sep : string) (items : list string) : string :=
  match items with
  | [] => ""
  | [x] => x
  | x :: rest => x +:+ sep +:+ join sep rest
  end.

Fixpoint replicate (n : nat) (c : ascii) : string :=
  match n with
  | O => ""
  | S n' => String c (replicate n' c)
  end.

(** [s.padStart(n)]: pads with spaces on the left up to length [n]. *)
Definition padStart (n : nat) (s : string) : string :=
  replicate (n - String.length s) " "%char +:+ s.

(** The ASCII white space, which [trim] and [BigInt] drop.  A string is a
    sequence of 8-bit characters here; JavaScript also drops U+00A0,
    U+FEFF and the other Unicode spaces and line terminators, so that on
    text with such characters [trim] and [BigInt] are not the functions
    below: statements that depend on the difference are about ASCII text
    ([ascii_only]). *)
Definition is_space (c : ascii) : bool :=
  let n := N_of_ascii c in
  ((9 <=? n)%N && (n <=? 13)%N) || (n =? 32)%N.

Fixpoint trimStart (s : string) : string :=
  match s with
  | EmptyString => ""
  | String c s' => if is_space c then trimStart s' else s
  end.

Fixpoint trimEnd (s : string) : string :=
  match s with
  | EmptyString => ""
  | String c s' =>
      match trimEnd s' with
      | EmptyString => if is_space c then "" else String c ""
      | t => String c t
      end
  end.

(** [s.trim()]; strings are byte strings here, so only ASCII white
    space is recognised. *)
Definition trim (s : string) : string := trimEnd (trimStart s).

(** [n.toString()] for a non-negative integer. *)
Definition of_nat (n : nat) : string :=
  NilZero.string_of_uint (Nat.to_uint n).

(** [n.toString()] for a BigInt. *)
Definition of_Z (z : Z) : string :=
  NilZero.string_of_int (Z.to_int z).

End Str.

(** ** Base64, as [Buffer.from(s, "base64")] and [buf.toString("base64")]

    The encoder writes the standard alphabet with [=] padding.  The
    decoder is Node's lenient one: it stops at the first [=], skips every
    character outside the alphabet, and also accepts the URL-safe
    characters [-] and [_]. *)

Module Base64.

Definition alphabet : list ascii :=
  list_ascii_of_string
    "ABCDEFGHIJKLMNOPQRSTUVWXYZabcdefghijklmnopqrstuvwxyz0123456789+/".

Definition char_of (n : N) : ascii :=
  nth (N.to_nat n) alphabet "="%char.

Definition byte_of (n : N) : byte :=
  match Byte.of_N (n mod 256) with
  | Some b => b
  | None => x00
  end.

Fixpoint encode (bs : list byte) : string :=
  match bs with
  | [] => ""
  | [a] =>
      let x := Byte.to_N a in
      String (char_of (x / 4)) (String (char_of ((x mod 4) * 16)) "==")
  | [a; b] =>
      let x := Byte.to_N a in
      let y := Byte.to_N b in
      String (char_of (x / 4))
        (String (char_of ((x mod 4) * 16 + y / 16))
           (String (char_of ((y mod 16) * 4)) "="))
  | a :: b :: c :: rest =>
      let x := Byte.to_N a in
      let y := Byte.to_N b in
      let z := Byte.to_N c in
      String (char_of (x / 4))
        (String (char_of ((x mod 4) * 16 + y / 16))
           (String (char_of ((y mod 16) * 4 + z / 64))
              (String (char_of (z mod 64)) (encode rest))))
  end.

(** The value of one character, [None] for a character that the
    decoder skips. *)
Definition unbase64 (c : ascii) : option N :=
  let n := N_of_ascii c in
  if (65 <=? n)%N && (n <=? 90)%N then Some (n - 65)%N
  else if (97 <=? n)%N && (n <=? 122)%N then Some (n - 71)%N
  else if (48 <=? n)%N && (n <=? 57)%N then Some (n + 4)%N
  else if (n =? 43)%N || (n =? 45)%N then Some 62%N
  else if (n =? 47)%N || (n =? 95)%N then Some 63%N
  else None.

Fixpoint sextets (s : string) : list N :=
  match s with
  | EmptyString => []
  | String c s' =>
      if Ascii.eqb c "="%char then []
      else match unbase64 c with
           | Some n => n :: sextets s'
           | None => sextets s'
           end
  end.

Fixpoint bytes_of_sextets (l : list N) : list byte :=
  match l with
  | a :: b :: c :: d :: rest =>
      byte_of (a * 4 + b / 16)
        :: byte_of ((b mod 16) * 16 + c / 4)
        :: byte_of ((c mod 4) * 64 + d)
        :: bytes_of_sextets rest
  | [a; b; c] =>
      [byte_of (a * 4 + b / 16); byte_of ((b mod 16) * 16 + c / 4)]
  | [a; b] => [byte_of (a * 4 + b / 16)]
  | _ => []
  end.

Definition decode (s : string) : list byte := bytes_of_sextets (sextets s).

End Base64.

(** ** Values that cross the program's boundary *)

(** What a [catch] clause can receive: an [Error] object (Node's file
    system errors also carry a [code]), a thrown string, which is what
    [applyState] throws for a response of the states service that is not
    ok, or [null] or [undefined], which a promise of the provider, of
    [fetch] or of the wallet may be rejected with like with any other
    value. *)
Inductive exn : Type :=
| Error (message : string) (code : option string)
| Thrown (value : string)
| ThrownNull
| ThrownUndefined.

(** [`${e.message}`] for a value that has properties: a string has no
    [message] property. *)
Definition exn_message (e : exn) : string :=
  match e with
  | Error m _ => m
  | _ => "undefined"
  end.

(** [e.code] for a value that has properties. *)
Definition exn_code (e : exn) : option string :=
  match e with
  | Error _ c => c
  | _ => None
  end.

Definition TypeError_null (property : string) : exn :=
  Error ("Cannot read properties of null (reading '" +:+ property +:+ "')") None.

Definition TypeError_undefined (property : string) : exn :=
  Error ("Cannot read properties of undefined (reading '" +:+ property +:+ "')")
    None.

(** [null] and [undefined] have no properties: [e.message] and [e.code]
    throw this [TypeError] when [e] is one of them, and are
    [exn_message e] and [exn_code e] otherwise. *)
Definition unreadable (property : string) (e : exn) : option exn :=
  match e with
  | ThrownNull => Some (TypeError_null property)
  | ThrownUndefined => Some (TypeError_undefined property)
  | _ => None
  end.

(** What [node:fs/promises] rejects with: always an [Error] object, which
    carries a [code]. *)
Record SystemError : Type := mkSystemError {
  sys_message : string;
  sys_code : option string
}.

Definition SystemError_exn (e : SystemError) : exn :=
  Error (sys_message e) (sys_code e).

Coercion SystemError_exn : SystemError >-> exn.

(** How an awaited call ends: with a value, with an exception, or never
    ([Pending]: a promise that does not settle, a loop that does not
    end). *)
Inductive outcome (A : Type) : Type :=
| Ret (a : A)
| Throw (e : exn)
| Pending.
Arguments Ret {A} a.
Arguments Throw {A} e.
Arguments Pending {A}.

(** A parsed JSON document, as far as the program looks into one. *)
#[local] Unset Elimination Schemes.
Inductive json : Type :=
| JNull
| JBool (b : bool)
| JNumber (literal : string)
| JString (s : string)
| JArray (items : list json)
| JObject (fields : list (string * json)).
#[local] Set Elimination Schemes.

(** [data[name]] on a parsed object; [None] is [undefined]. *)
Fixpoint json_field (name : string) (fields : list (string * json)) : option json :=
  match fields with
  | [] => None
  | (k, v) :: rest => if String.eqb k name then Some v else json_field name rest
  end.

(** [new Address(s)] only wraps the string; [toString] gives it back. *)
Record Address : Type := mkAddress { toString : string }.

Inductive AccountStatus : Type := uninit | frozen | active | nonexist.

Definition is_frozen (s : AccountStatus) : bool :=
  match s with frozen => true | _ => false end.

Definition is_nonexist (s : AccountStatus) : bool :=
  match s with nonexist => true | _ => false end.

Record TransactionId : Type := mkTransactionId { lt : string; hash : string }.

Record Transaction : Type := mkTransaction {
  id : TransactionId;
  origStatus : AccountStatus;
  endStatus : AccountStatus
}.

Record TransactionsBatch : Type := mkBatch {
  transactions : list Transaction;
  continuation : option TransactionId
}.

Record FullContractState : Type := mkContractState {
  boc : string;
  codeHash : option string
}.

Record StorageFeeInfo : Type := mkStorageFeeInfo {
  accountStatus : AccountStatus;
  storageFeeDebt_opt : option string
}.

(** The wallets of everscale-standalone-client that [guessGiverAccount]
    can build. *)
Inductive Account : Type :=
| WalletV3Account (address : Address)
| HighloadWalletV2 (address : Address)
| EverWalletAccount (address : Address)
| GiverAccount (address : Address) (publicKey : string).

Record Response : Type := mkResponse {
  ok : bool;
  res_json : outcome json;
  res_text : outcome string
}.

Record FrozenAccount : Type := mkFrozenAccount {
  address : Address;
  state : string;
  storageFeeDebt : string
}.

(** The arguments of [microwave.methods.deploy(..).send(..)]. *)
Record SendRequest : Type := mkSendRequest {
  contract : Address;
  dest : Address;
  state_init : string;
  from : Address;
  amount : string;
  bounce : bool
}.

Inductive fs_op : Type := OpMkdir | OpStat | OpReadFile | OpWriteFile.

(** Everything outside the process. *)
Record World : Type := mkWorld {
  clock_time : Z;
  os_tmpdir : string;
  path_join : string -> string -> string;
  path_resolve_dirname : string -> string;
  (** [path.sep]: [/] on POSIX, a backslash on Windows *)
  path_sep : ascii;
  (** an operating-system failure (permissions, a missing parent
      directory, ...) of a file operation on a path *)
  fs_fault : fs_op -> string -> option SystemError;
  JSON_parse : string -> outcome json;
  ensureInitialized : outcome unit;
  getFullContractState : Address -> outcome (option FullContractState);
  getTransactions : Address -> option TransactionId -> outcome TransactionsBatch;
  computeStorageFee : FullContractState -> bool -> Z -> outcome StorageFeeInfo;
  getBocHash : string -> outcome string;
  fetch : string -> string -> outcome Response;
  parseFullAccountStateInit : option json -> outcome (option string);
  send : list Account -> SendRequest -> outcome TransactionId;
  trace_finished : TransactionId -> outcome unit
}.

(** ** Observable events, in the order in which they happen *)

Inductive event : Type :=
| ConsoleLog (line : string)
| ConsoleError (line : string)
| FsMkdir (path : string)
| FsStat (path : string)
| FsReadFile (path : string)
| FsWriteFile (path : string) (data : list byte)
| EnsureInitialized
| GetFullContractState (a : Address)
| GetTransactions (a : Address) (c : option TransactionId)
| ComputeStorageFee (a : FullContractState) (masterchain : bool) (timestamp : Z)
| GetBocHash (b : string)
| Fetch (url body : string)
| ParseFullAccountStateInit (boc : option json)
| AddKeyPair (publicKey secretKey : string)
| AddAccount (a : Account)
| Send (r : SendRequest)
| TraceFinished (tx : TransactionId)
(** the report of the runtime, on the standard error stream, of a
    rejection that nothing handles *)
| Uncaught (e : exn).

Inductive node : Type :=
| File (data : list byte)
| Directory.

Record State : Type := mkState {
  files : gmap string node;
  accountsStorage : list Account;
  events : list event
}.

(** ** The monad of the program: state and exceptions *)

Definition M (A : Type) : Type := State -> outcome A * State.

Definition ret {A} (a : A) : M A := fun st => (Ret a, st).

Definition throw {A} (e : exn) : M A := fun st => (Throw e, st).

Definition pending {A} : M A := fun st => (Pending, st).

Definition bind {A B} (m : M A) (k : A -> M B) : M B :=
  fun st =>
    match m st with
    | (Ret a, st') => k a st'
    | (Throw e, st') => (Throw e, st')
    | (Pending, st') => (Pending, st')
    end.

(** [try { m } catch (e) { h e }] *)
Definition try_catch {A} (m : M A) (h : exn -> M A) : M A :=
  fun st =>
    match m st with
    | (Throw e, st') => h e st'
    | r => r
    end.

Notation "x <- m ;; k" := (bind m (fun x => k))
  (at level 100, m at next level, right associativity).
Notation "m ;;; k" := (bind m (fun _ => k))
  (at level 100, right associativity).

Definition emit (e : event) : M unit :=
  fun st => (Ret tt, {| files := files st;
                        accountsStorage := accountsStorage st;
                        events := events st ++ [e] |}).

(** An awaited request to the outside: the event, then its outcome. *)
Definition request {A} (e : event) (o : outcome A) : M A :=
  emit e ;;; fun st => (o, st).

Definition console_log (line : string) : M unit := emit (ConsoleLog line).
Definition console_error (line : string) : M unit := emit (ConsoleError line).

Definition get_files : M (gmap string node) := fun st => (Ret (files st), st).

Definition set_file (path : string) (n : node) : M unit :=
  fun st => (Ret tt, {| files := <[path := n]> (files st);
                        accountsStorage := accountsStorage st;
                        events := events st |}).

Definition set_files (fsys : gmap string node) : M unit :=
  fun st => (Ret tt, {| files := fsys;
                        accountsStorage := accountsStorage st;
                        events := events st |}).

Definition addAccount (a : Account) : M unit :=
  emit (AddAccount a) ;;;
  fun st => (Ret tt, {| files := files st;
                        accountsStorage := accountsStorage st ++ [a];
                        events := events st |}).

Definition get_accounts : M (list Account) :=
  fun st => (Ret (accountsStorage st), st).

(** ** [node:fs/promises] *)

Module fs.

(** Node's text of a system error: the code, its description, the system
    call and, where the call has one, the path in single quotes. *)
Definition system_error (code description syscall : string) (path : option string)
  : SystemError :=
  mkSystemError
    (code +:+ ": " +:+ description +:+ ", " +:+ syscall
       +:+ match path with
           | Some path => " '" +:+ path +:+ "'"
           | None => EmptyString
           end)
    (Some code).

Definition ENOENT (syscall path : string) : SystemError :=
  system_error "ENOENT" "no such file or directory" syscall (Some path).
Definition EISDIR (syscall : string) (path : option string) : SystemError :=
  system_error "EISDIR" "illegal operation on a directory" syscall path.
Definition EEXIST (path : string) : SystemError :=
  system_error "EEXIST" "file already exists" "mkdir" (Some path).
Definition ENOTDIR (path : string) : SystemError :=
  system_error "ENOTDIR" "not a directory" "mkdir" (Some path).

Definition faulty {A} (w : World) (op : fs_op) (path : string) (m : M A) : M A :=
  match fs_fault w op path with
  | Some e => throw e
  | None => m
  end.

(** The directories above [s], nearest first: what [s] reads up to one of
    its separators; [before] is what was read so far.  The empty prefix,
    above a path that begins with a separator, is the root and is left
    out. *)
Fixpoint ancestors_from (sep : ascii) (before s : string) : list string :=
  match s with
  | EmptyString => []
  | String c s' =>
      let above := ancestors_from sep (before +:+ String c EmptyString) s' in
      if Ascii.eqb c sep && negb (String.eqb before EmptyString)
      then above ++ [before]
      else above
  end.

Definition ancestors (sep : ascii) (path : string) : list string :=
  ancestors_from sep EmptyString path.

(** The directories [dirs], nearest first, are made as far as they are
    missing: from the first one that is there downward.  [None] when the
    first one that is there is a file. *)
Fixpoint make_directories (dirs : list string) (fsys : gmap string node)
  : option (gmap string node) :=
  match dirs with
  | [] => Some fsys
  | d :: above =>
      match fsys !! d with
      | Some Directory => Some fsys
      | Some (File _) => None
      | None => option_map (insert d Directory) (make_directories above fsys)
      end
  end.

(** [fs.mkdir(path, { recursive: true })]: a directory that is there is
    left alone, and the missing directories above [path] are made with
    it. *)
Definition mkdir (w : World) (path : string) : M unit :=
  emit (FsMkdir path) ;;;
  faulty w OpMkdir path (
    fsys <- get_files ;;
    match fsys !! path with
    | Some (File _) => throw (EEXIST path)
    | Some Directory => ret tt
    | None =>
        match make_directories (ancestors (path_sep w) path) fsys with
        | Some fsys' => set_files (<[path := Directory]> fsys')
        | None => throw (ENOTDIR path)
        end
    end).

(** [fs.stat(path).then((stats) => stats.isFile())] *)
Definition stat_isFile (w : World) (path : string) : M bool :=
  emit (FsStat path) ;;;
  faulty w OpStat path (
    fsys <- get_files ;;
    match fsys !! path with
    | Some (File _) => ret true
    | Some Directory => ret false
    | None => throw (ENOENT "stat" path)
    end).

(** [fs.readFile(path)] *)
Definition readFile (w : World) (path : string) : M (list byte) :=
  emit (FsReadFile path) ;;;
  faulty w OpReadFile path (
    fsys <- get_files ;;
    match fsys !! path with
    | Some (File data) => ret data
    | Some Directory => throw (EISDIR "read" None)
    | None => throw (ENOENT "open" path)
    end).

(** [fs.writeFile(path, data)] *)
Definition writeFile (w : World) (path : string) (data : list byte) : M unit :=
  emit (FsWriteFile path data) ;;;
  faulty w OpWriteFile path (
    fsys <- get_files ;;
    match fsys !! path with
    | Some Directory => throw (EISDIR "open" (Some path))
    | _ => set_file path (File data)
    end).

End fs.

(** ** Regular expressions, as far as [addressRegex] needs them

    [regex.test(s)] for a pattern anchored with [^] and [$] (without the
    [m] flag) asks whether the whole of [s] matches; it is decided here
    with Brzozowski derivatives. *)

Module Regex.

Inductive regex : Type :=
| Void
| Eps
| Class (p : ascii -> bool)
| Seq (r1 r2 : regex)
| Alt (r1 r2 : regex).

Fixpoint nullable (r : regex) : bool :=
  match r with
  | Void => false
  | Eps => true
  | Class _ => false
  | Seq r1 r2 => nullable r1 && nullable r2
  | Alt r1 r2 => nullable r1 || nullable r2
  end.

Fixpoint deriv (c : ascii) (r : regex) : regex :=
  match r with
  | Void => Void
  | Eps => Void
  | Class p => if p c then Eps else Void
  | Seq r1 r2 =>
      if nullable r1
      then Alt (Seq (deriv c r1) r2) (deriv c r2)
      else Seq (deriv c r1) r2
  | Alt r1 r2 => Alt (deriv c r1) (deriv c r2)
  end.

Fixpoint test (r : regex) (s : string) : bool :=
  match s with
  | EmptyString => nullable r
  | String c s' => test (deriv c r) s'
  end.

(** A literal string. *)
Fixpoint Lit (s : string) : regex :=
  match s with
  | EmptyString => Eps
  | String c s' => Seq (Class (Ascii.eqb c)) (Lit s')
  end.

(** [r{n}] *)
Fixpoint Times (n : nat) (r : regex) : regex :=
  match n with
  | O => Eps
  | S n' => Seq r (Times n' r)
  end.

(** The strings a pattern denotes. *)
Fixpoint lang (r : regex) (s : string) : Prop :=
  match r with
  | Void => False
  | Eps => s = ""
  | Class p => exists c, s = String c "" /\ p c = true
  | Seq r1 r2 => exists s1 s2, s = s1 +:+ s2 /\ lang r1 s1 /\ lang r2 s2
  | Alt r1 r2 => lang r1 s \/ lang r2 s
  end.

End Regex.

(** [\d] *)
Definition is_digit (c : ascii) : bool :=
  let n := N_of_ascii c in (48 <=? n)%N && (n <=? 57)%N.

(** [[\da-fA-F]] *)
Definition is_hex_digit (c : ascii) : bool :=
  let n := N_of_ascii c in
  is_digit c || ((97 <=? n)%N && (n <=? 102)%N) || ((65 <=? n)%N && (n <=? 70)%N).

(** [const addressRegex = /^(?:-1|0):[\da-fA-F]{64}$/] *)
Definition addressRegex : Regex.regex :=
  Regex.Seq (Regex.Alt (Regex.Lit "-1") (Regex.Lit "0"))
    (Regex.Seq (Regex.Lit ":") (Regex.Times 64 (Regex.Class is_hex_digit))).

Definition checkAddress (address : string) : bool :=
  Regex.test addressRegex address.

(** ** [BigInt(s)] on a string

    White space around the literal is dropped, the empty string is [0n],
    a decimal literal may carry a sign, [0x], [0o] and [0b] literals may
    not; anything else is a [SyntaxError].  The white space is that of
    [Str.is_space]: this is [BigInt] on strings of ASCII characters. *)

Module BigIntM.

Definition digit_value (c : ascii) : option N :=
  let n := N_of_ascii c in
  if is_digit c then Some (n - 48)%N
  else if (97 <=? n)%N && (n <=? 102)%N then Some (n - 87)%N
  else if (65 <=? n)%N && (n <=? 70)%N then Some (n - 55)%N
  else None.

Fixpoint digits (radix : N) (s : string) (acc : N) : option N :=
  match s with
  | EmptyString => Some acc
  | String c s' =>
      match digit_value c with
      | Some d => if (d <? radix)%N then digits radix s' (acc * radix + d)%N else None
      | None => None
      end
  end.

Definition literal (radix : N) (s : string) : option Z :=
  match s with
  | EmptyString => None
  | _ => option_map Z.of_N (digits radix s 0%N)
  end.

Definition decimal (s : string) : option Z :=
  match s with
  | EmptyString => None
  | _ => option_map (fun d => Z.of_N (N.of_uint d)) (NilEmpty.uint_of_string s)
  end.

Definition parse (s : string) : option Z :=
  match Str.trim s with
  | EmptyString => Some 0%Z
  | String "0" (String "x" r) | String "0" (String "X" r) => literal 16 r
  | String "0" (String "o" r) | String "0" (String "O" r) => literal 8 r
  | String "0" (String "b" r) | String "0" (String "B" r) => literal 2 r
  | String "+" r => decimal r
  | String "-" r => option_map Z.opp (decimal r)
  | r => decimal r
  end.

Definition SyntaxError (s : string) : exn :=
  Error ("Cannot convert " +:+ s +:+ " to a BigInt") None.

End BigIntM.

Definition BigInt (s : string) : M Z :=
  match BigIntM.parse s with
  | Some z => ret z
  | None => throw (BigIntM.SyntaxError s)
  end.

(** ** The program *)

Definition STATES_API_URL : string := "https://states.everscan.io".
Definition CACHE_DIR : string := "heatwave-states".
Definition TIMESTAMP_BIAS : Z := 3600.

Definition newline : string := String "010"%char "".
Definition quote : string := String "034"%char "".

(** Lifting the outcome of a call that leaves no event of its own. *)
Definition settle {A} (o : outcome A) : M A := fun st => (o, st).

(** *** Command line *)

Inductive flag : Type :=
| FlagTrue
| FlagValue (value : string).

Record Args : Type := mkArgs {
  positional : list string;
  flags : gmap string flag
}.

Record ParsedArgs : Type := mkParsedArgs {
  path : string;
  giver : string;
  sign : string;
  ignoreCache : bool;
  targetBalance : string
}.

(** [s.split(c)] for a one-character separator. *)
Fixpoint split (c : ascii) (s : string) : list string :=
  match s with
  | EmptyString => [""]
  | String a s' =>
      let rest := split c s' in
      if Ascii.eqb a c then "" :: rest
      else match rest with
           | l :: ls => String a l :: ls
           | [] => [String a ""]
           end
  end.

(** [arg.split("")] *)
Fixpoint chars (s : string) : list string :=
  match s with
  | EmptyString => []
  | String a s' => String a "" :: chars s'
  end.

(** [res.flags[name] = value] on the plain object [flags]: the name
    [__proto__] is the accessor of the prototype, whose setter ignores a
    string and [true], so that no property is set; every other name
    becomes a property of the object. *)
Definition set_flag (name : string) (value : flag) (fl : gmap string flag)
  : gmap string flag :=
  if String.eqb name "__proto__" then fl else <[name := value]> fl.

(** One step of the [reduce] in [getArgs]. *)
Definition getArgs_step (res : Args) (arg : string) : Args :=
  match arg with
  | String "-" (String "-" longArg0) =>
      match split "="%char longArg0 with
      | longArgFlag :: longArgValue :: _ =>
          mkArgs (positional res)
            (set_flag longArgFlag (FlagValue longArgValue) (flags res))
      | longArgFlag :: [] =>
          mkArgs (positional res) (set_flag longArgFlag FlagTrue (flags res))
      | [] => res
      end
  | String "-" rest =>
      mkArgs (positional res)
        (fold_left (fun fl f => set_flag f FlagTrue fl) (chars rest) (flags res))
  | _ => mkArgs (positional res ++ [arg]) (flags res)
  end.

(** [getArgs], on [process.argv.slice(2)]. *)
Definition getArgs (argv : list string) : Args :=
  fold_left getArgs_step argv (mkArgs [] ∅).

Definition parseSwitch (args : Args) (name : string) : M bool :=
  match flags args !! name with
  | Some FlagTrue => ret true
  | Some (FlagValue value) =>
      if negb (String.eqb value "true") && negb (String.eqb value "false")
      then throw (Error ("Expected a boolean value for `" +:+ name +:+ "`") None)
      else ret (String.eqb value "true")
  | None => ret false
  end.

Definition separator : string := newline +:+ "  ".

Definition nonempty (s : string) : bool := (0 <? String.length s)%nat.

(** The names of the required options that were not given. *)
Definition missing (args : Args) : string :=
  Str.join separator
    (List.filter nonempty
       [ match head (positional args) with None => "path" | Some _ => "" end;
         match flags args !! "giver" with Some (FlagValue _) => "" | _ => "--giver" end;
         match flags args !! "sign" with Some (FlagValue _) => "" | _ => "--sign" end ]).

(** [parseArgs]: the [res] object is built first (so [parseSwitch] may
    throw before anything else is looked at), then come the check of the
    required options, the check of the giver address and the check of the
    target balance.  The three required options are all there exactly
    when [missing] is empty ([missing_empty] below), which is the test of
    the source. *)
Definition parseArgs (args : Args) : M ParsedArgs :=
  ignoreCache <- parseSwitch args "ignore-cache" ;;
  let targetBalance :=
    match flags args !! "target-balance" with
    | None | Some (FlagValue EmptyString) => FlagValue "1000000000"
    | Some v => v
    end in
  match head (positional args), flags args !! "giver", flags args !! "sign" with
  | Some path, Some (FlagValue giver), Some (FlagValue sign) =>
      if negb (checkAddress giver)
      then throw (Error "Invalid giver address" None)
      else
        match targetBalance with
        | FlagValue targetBalance =>
            ret (mkParsedArgs path giver sign ignoreCache targetBalance)
        | FlagTrue =>
            throw (Error "Expected a number value for `target-balance`" None)
        end
  | _, _, _ =>
      throw (Error ("Required options not provided:" +:+ separator +:+ missing args) None)
  end.

(** *** Keys *)

(** The [fs.readFile(..., "utf8").then(...)] of [app]; gives the public
    key. *)
Definition loadKeys (w : World) (sign : string) : M string :=
  bytes <- fs.readFile w (path_resolve_dirname w sign) ;;
  data <- settle (JSON_parse w (string_of_list_byte bytes)) ;;
  match data with
  | JNull => throw (TypeError_null "public")
  | JObject fields =>
      match json_field "public" fields, json_field "secret" fields with
      | Some (JString public), Some (JString secret) =>
          emit (AddKeyPair public secret) ;;; ret public
      | _, _ => throw (Error "Invalid keys" None)
      end
  | _ => throw (Error "Invalid keys" None)
  end.

(** *** The giver *)

Definition guessGiverAccount (w : World) (address : Address) (publicKey : string)
  : M Account :=
  st <- request (GetFullContractState address) (getFullContractState w address) ;;
  match st with
  | None => throw (Error "Giver account not found" None)
  | Some state =>
      match codeHash state with
      | None => throw (Error "Giver account is uninit" None)
      | Some h =>
          if String.eqb h "84dafa449f98a6987789ba232358072bc0f76dc4524002a5d0918b9a75d2d599"
          then ret (WalletV3Account address)
          else if String.eqb h "0b3a887aeacd2a7d40bb5550bc9253156a029065aefb6d6b583735d58da9d5be"
          then ret (HighloadWalletV2 address)
          else if String.eqb h "3ba6528ab2694c118180aa3bd10dd19ff400b909ab4dcf58fc69925b2c7b12a6"
          then ret (EverWalletAccount address)
          else if String.eqb h "ccbfc821853aa641af3813ebd477e26818b51e4ca23e5f6d34509215aa7123d9"
          then ret (GiverAccount address publicKey)
          else throw (Error "Unknown contract" None)
      end
  end.

(** *** The address list *)

(** [contents.split(/\r?\n/)] *)
Fixpoint split_lines (s : string) : list string :=
  match s with
  | EmptyString => [""]
  | String a s' =>
      let rest := split_lines s' in
      if Ascii.eqb a "010"%char then "" :: rest
      else if Ascii.eqb a "013"%char && Str.startsWith newline s' then rest
      else match rest with
           | l :: ls => String a l :: ls
           | [] => [String a ""]
           end
  end.

Definition readAccounts (w : World) (path : string) : M (list Address) :=
  bytes <- fs.readFile w path ;;
  let lines := split_lines (string_of_list_byte bytes) in
  ret (map mkAddress
         (List.filter (fun trimmed => negb (String.eqb trimmed ""))
            (map Str.trim lines))).

(** *** Preparing the states *)

(** What the [for] loop over one batch of [applyState] comes to. *)
Inductive scan_result : Type :=
| ScanNotFrozen
| ScanFound (freezeTransactionLt : string)
| ScanNext.

Fixpoint scan (batch : list Transaction) : scan_result :=
  match batch with
  | [] => ScanNext
  | transaction :: rest =>
      if negb (is_frozen (endStatus transaction)) then ScanNotFrozen
      else if negb (is_frozen (origStatus transaction))
           then ScanFound (lt (id transaction))
           else scan rest
  end.

(** The loop labelled [outer] of [applyState]; [fuel] bounds the number
    of batches, [cursor] is the variable [continuation].  The result is
    [freezeTransactionLt]. *)
Fixpoint searchFreezeTransaction (w : World) (fuel : nat) (address : Address)
    (cursor : option TransactionId) : M (option string) :=
  match fuel with
  | O => pending
  | S fuel' =>
      batch <- request (GetTransactions address cursor)
                       (getTransactions w address cursor) ;;
      match scan (transactions batch) with
      | ScanNotFrozen => throw (Error "Account not frozen" None)
      | ScanFound freezeTransactionLt => ret (Some freezeTransactionLt)
      | ScanNext =>
          match continuation batch with
          | None => ret None
          | Some c => searchFreezeTransaction w fuel' address (Some c)
          end
      end
  end.

(** The first half of [applyState]: the logical time of the freeze
    transaction. *)
Definition locate (w : World) (fuel : nat) (address : Address) : M string :=
  freezeTransactionLt <- searchFreezeTransaction w fuel address None ;;
  match freezeTransactionLt with
  | None => throw (Error "Freeze transaction not found" None)
  | Some freezeTransactionLt => ret freezeTransactionLt
  end.

Definition apply_body (address : Address) (freezeTransactionLt : string) : string :=
  "{" +:+ quote +:+ "account" +:+ quote +:+ ":" +:+ quote +:+ toString address
      +:+ quote +:+ "," +:+ quote +:+ "lt" +:+ quote +:+ ":"
      +:+ freezeTransactionLt +:+ "}".

(** The second half of [applyState]: the state at that logical time. *)
Definition reconstruct (w : World) (address : Address) (freezeTransactionLt : string)
  : M string :=
  res <- request (Fetch (STATES_API_URL +:+ "/apply") (apply_body address freezeTransactionLt))
                 (fetch w (STATES_API_URL +:+ "/apply") (apply_body address freezeTransactionLt)) ;;
  parsed <- (if ok res then settle (res_json res)
             else (e <- settle (res_text res) ;; throw (Thrown e))) ;;
  fullState <- match parsed with
               | JNull => throw (TypeError_null "accountBoc")
               | JObject fields => ret (json_field "accountBoc" fields)
               | _ => ret None
               end ;;
  stateInit <- request (ParseFullAccountStateInit fullState)
                       (parseFullAccountStateInit w fullState) ;;
  match stateInit with
  | None => throw (Error "Empty state" None)
  | Some stateInit => ret stateInit
  end.

Definition applyState (w : World) (fuel : nat) (address : Address) : M string :=
  console_log "  searching for freeze transaction" ;;;
  freezeTransactionLt <- locate w fuel address ;;
  console_log ("  applying state at logical time " +:+ freezeTransactionLt) ;;;
  reconstruct w address freezeTransactionLt.

(** [~~x] *)
Definition toInt32 (x : Z) : Z := ((x + 2 ^ 31) mod 2 ^ 32 - 2 ^ 31)%Z.

(** [TIMESTAMP_BIAS + ~~(clock.time / 1000)] *)
Definition timestamp_of (w : World) : Z :=
  (TIMESTAMP_BIAS + toInt32 (Z.quot (clock_time w) 1000))%Z.

(** The storage fee debt of one account: the first statements of the
    [try] block of [prepareStates]. *)
Definition estimate (w : World) (timestamp : Z) (address : Address) : M string :=
  st <- request (GetFullContractState address) (getFullContractState w address) ;;
  match st with
  | None => throw (Error "Account is uninit" None)
  | Some accountState =>
      let masterchain := Str.startsWith "-1" (toString address) in
      account <- request (ComputeStorageFee accountState masterchain timestamp)
                         (computeStorageFee w accountState masterchain timestamp) ;;
      if negb (is_frozen (accountStatus account))
         && negb (is_nonexist (accountStatus account))
      then throw (Error "Account is not frozen" None)
      else
        let storageFeeDebt :=
          match storageFeeDebt_opt account with
          | Some d => d
          | None => "0"
          end in
        console_log ("  storage fee debt: " +:+ storageFeeDebt) ;;;
        ret storageFeeDebt
  end.

(** Reading the cache: the block under [// Try to use cached state].
    [None] when the cache is ignored or holds no file for the path. *)
Definition tryGet (w : World) (ignoreCache : bool) (statePath : string)
  : M (option string) :=
  if negb ignoreCache then
    stateExists <-
      try_catch (fs.stat_isFile w statePath)
        (fun e =>
           match unreadable "code" e with
           | Some typeError => throw typeError
           | None =>
               match exn_code e with
               | Some code => if String.eqb code "ENOENT" then ret false else throw e
               | None => throw e
               end
           end) ;;
    if (stateExists : bool) then
      data <- fs.readFile w statePath ;;
      ret (Some (Base64.encode data))
    else ret None
  else ret None.

(** Writing the cache: [Buffer.from(state, "base64")] and
    [fs.writeFile]. *)
Definition put (w : World) (statePath : string) (state : string) : M unit :=
  let binary := Base64.decode state in
  fs.writeFile w statePath binary.

(** The [try] block of [prepareStates] for one address; the result is the
    item pushed to [result]. *)
Definition prepareAccount (w : World) (fuel : nat) (ignoreCache : bool)
    (timestamp : Z) (statePath : string) (address : Address) : M FrozenAccount :=
  storageFeeDebt <- estimate w timestamp address ;;
  cached <- tryGet w ignoreCache statePath ;;
  match cached with
  | Some data =>
      console_log "  using cached state" ;;;
      ret (mkFrozenAccount address data storageFeeDebt)
  | None =>
      state <- applyState w fuel address ;;
      put w statePath state ;;;
      console_log "  updated cached state" ;;;
      ret (mkFrozenAccount address state storageFeeDebt)
  end.

Definition preparing_line (current total : nat) (address : Address) : string :=
  "[" +:+ Str.padStart (String.length (Str.of_nat total)) (Str.of_nat current)
      +:+ "/" +:+ Str.of_nat total +:+ "] Preparing account " +:+ toString address.

(** The [for] loop of [prepareStates]. *)
Fixpoint prepareStates_loop (w : World) (fuel : nat) (ignoreCache : bool)
    (cacheDirPath : string) (timestamp : Z) (total current : nat)
    (result : list FrozenAccount) (accounts : list Address)
  : M (list FrozenAccount) :=
  match accounts with
  | [] => ret result
  | address :: rest =>
      let current := S current in
      let statePath := path_join w cacheDirPath (toString address) in
      console_log (preparing_line current total address) ;;;
      item <- try_catch
                (item <- prepareAccount w fuel ignoreCache timestamp statePath address ;;
                 ret (Some item))
                (fun e =>
                   match unreadable "message" e with
                   | Some typeError => throw typeError
                   | None =>
                       console_error ("  skipping: " +:+ exn_message e) ;;; ret None
                   end) ;;
      prepareStates_loop w fuel ignoreCache cacheDirPath timestamp total current
        (match item with Some item => result ++ [item] | None => result end) rest
  end.

Definition prepareStates (w : World) (fuel : nat) (accounts : list Address)
    (ignoreCache : bool) : M (list FrozenAccount) :=
  let cacheDirPath := path_join w (os_tmpdir w) CACHE_DIR in
  fs.mkdir w cacheDirPath ;;;
  prepareStates_loop w fuel ignoreCache cacheDirPath (timestamp_of w)
    (length accounts) 0 [] accounts.

(** *** Unfreezing *)

Definition MICROWAVE_BOC : string :=
  "te6ccgEBCQEA3gACATQDAQEBwAIAQ9AAAAAACAAAAAAAAAAAAAAAAAAAAAAAAAAAAAAAAAAAACACKP8AIMEB9KQgWJL0oOBfAoog7VPZBgQBCvSkIPShBQAAAQPQQAcB/gHQ0wABwADysNYB0wAwwADyvDAgxwGa7UDtUHADXwPbMAHAAI5QMAHTH4IQU8UVHyIBuZcwwADyfPI84IIQU8UVHxK68ryCEDuaygBw+wLIgBDPCwUB+kACznD6AnbPC2sB1DABzMmBAID7ACBwcFkBVQFVAtkgWQFVAeAixwIIAAzAACIiAeI=".

(** [const TX_FEE = BigInt(100000000)], 0.1 EVER *)
Definition TX_FEE : Z := 100000000.

(** [BigInt(item.storageFeeDebt) + BigInt(parsedArgs.targetBalance) + TX_FEE] *)
Definition funding_amount (storageFeeDebt targetBalance : string) : M Z :=
  d <- BigInt storageFeeDebt ;;
  t <- BigInt targetBalance ;;
  ret (d + t + TX_FEE)%Z.

Definition deploy_request (microwaveAddress giverAddress : Address)
    (item : FrozenAccount) (amount : Z) : SendRequest :=
  {| contract := microwaveAddress;
     dest := address item;
     state_init := state item;
     from := giverAddress;
     amount := Str.of_Z amount;
     bounce := false |}.

(** The body of the [for] loop over [states] in [app]. *)
Definition unfreezeAccount (w : World) (microwaveAddress giverAddress : Address)
    (targetBalance : string) (item : FrozenAccount) : M unit :=
  amount <- funding_amount (storageFeeDebt item) targetBalance ;;
  console_log ("Unfreezing account " +:+ toString (address item)) ;;;
  accounts <- get_accounts ;;
  tx <- request (Send (deploy_request microwaveAddress giverAddress item amount))
                (send w accounts (deploy_request microwaveAddress giverAddress item amount)) ;;
  console_log ("  waiting for tx " +:+ hash tx) ;;;
  request (TraceFinished tx) (trace_finished w tx) ;;;
  console_log "  done".

(** The [for] loop over [states] in [app]. *)
Fixpoint unfreeze (w : World) (microwaveAddress giverAddress : Address)
    (targetBalance : string) (states : list FrozenAccount) : M unit :=
  match states with
  | [] => ret tt
  | item :: rest =>
      unfreezeAccount w microwaveAddress giverAddress targetBalance item ;;;
      unfreeze w microwaveAddress giverAddress targetBalance rest
  end.

(** *** The application *)

(** [app] after [parseArgs]; it ends with [process.exit(0)]. *)
Definition run (w : World) (fuel : nat) (parsedArgs : ParsedArgs) : M unit :=
  publicKey <- loadKeys w (sign parsedArgs) ;;
  request EnsureInitialized (ensureInitialized w) ;;;
  let giverAddress := mkAddress (giver parsedArgs) in
  account <- guessGiverAccount w giverAddress publicKey ;;
  addAccount account ;;;
  accounts <- readAccounts w (path parsedArgs) ;;
  console_log ("Input: " +:+ Str.of_nat (length accounts) +:+ " accounts") ;;;
  hash <- request (GetBocHash MICROWAVE_BOC) (getBocHash w MICROWAVE_BOC) ;;
  let microwaveAddress := mkAddress ("0:" +:+ hash) in
  console_log ("Microwave address: " +:+ toString microwaveAddress) ;;;
  console_log "Preparing states" ;;;
  states <- prepareStates w fuel accounts (ignoreCache parsedArgs) ;;
  console_log "Unfreezing contracts" ;;;
  unfreeze w microwaveAddress giverAddress (targetBalance parsedArgs) states.

Definition app (w : World) (fuel : nat) (args : Args) : M unit :=
  parsedArgs <- parseArgs args ;;
  run w fuel parsedArgs.

Definition help_text : string :=
  Str.join newline
    [ "Usage: npm run unfreeze <path> --giver=<wallet> --sign=<sign> [--target-balance=<target-balance>] [--ignore-cache]";
      "";
      "A tool for unfreezing Everscale accounts.";
      "";
      "Positional Arguments:";
      "  param             path to the CSV file with accounts list";
      "";
      "Options:";
      "  --giver           giver contract address";
      "  --sign            path to keys.json";
      "  --target-balance  target balance in nano EVERs; default: 1000000000";
      "  --ignore-cache    ignore computed states cache";
      "  --help            display usage information";
      "" ].

(** The module's top level: the exit code of the process, [None] when the
    process does not end.  The handler of [app(args).catch] reads
    [e.message]; when that throws, nothing handles the rejection and the
    runtime ends the process with code 1 after reporting it. *)
Definition main (w : World) (fuel : nat) (argv : list string) (st : State)
  : option Z * State :=
  let args := getArgs argv in
  match flags args !! "h", flags args !! "help" with
  | None, None =>
      match app w fuel args st with
      | (Ret _, st') => (Some 0%Z, st')
      | (Throw e, st') =>
          match unreadable "message" e with
          | Some typeError => (Some 1%Z, snd (emit (Uncaught typeError) st'))
          | None => (Some 1%Z, snd (console_log (exn_message e) st'))
          end
      | (Pending, st') => (None, st')
      end
  | _, _ => (Some 1%Z, snd (console_log help_text st))
  end.

Definition initial (fsys : gmap string node) : State :=
  {| files := fsys; accountsStorage := []; events := [] |}.

(** ** Vocabulary of the statements *)

(** The state after some more events. *)
Definition record (es : list event) (st : State) : State :=
  {| files := files st;
     accountsStorage := accountsStorage st;
     events := events st ++ es |}.

(** A rejection with [null] or [undefined]. *)
Definition nullish (e : exn) : Prop := e = ThrownNull \/ e = ThrownUndefined.

(** A transaction that the scan of [applyState] passes over: frozen
    before and after. *)
Definition stays_frozen (t : Transaction) : Prop :=
  origStatus t = frozen /\ endStatus t = frozen.

(** What the scan of [applyState] makes of the first transaction that
    does not stay frozen. *)
Definition verdict (t : Transaction) : outcome (option string) :=
  if negb (is_frozen (endStatus t)) then Throw (Error "Account not frozen" None)
  else Ret (Some (lt (id t))).

(** [covers w a c l cs]: asked for the history of [a] from the
    continuation [c] on, the provider answers the requests [cs] one after
    the other, and the transactions of these batches, newest first, begin
    with [l], whose last element lies in the last of these batches. *)
Inductive covers (w : World) (a : Address)
  : option TransactionId -> list Transaction -> list (option TransactionId) -> Prop :=
| covers_here c b l older :
    getTransactions w a c = Ret b ->
    transactions b = l ++ older ->
    l <> [] ->
    covers w a c l [c]
| covers_next c b c' l cs :
    getTransactions w a c = Ret b ->
    continuation b = Some c' ->
    l <> [] ->
    covers w a (Some c') l cs ->
    covers w a c (transactions b ++ l) (c :: cs).

(** [exhausted w a c l cs]: the requests [cs] walk the whole history from
    [c] on, down to a batch without continuation, and [l] is all of its
    transactions, newest first. *)
Inductive exhausted (w : World) (a : Address)
  : option TransactionId -> list Transaction -> list (option TransactionId) -> Prop :=
| exhausted_last c b :
    getTransactions w a c = Ret b ->
    continuation b = None ->
    exhausted w a c (transactions b) [c]
| exhausted_next c b c' l cs :
    getTransactions w a c = Ret b ->
    continuation b = Some c' ->
    exhausted w a (Some c') l cs ->
    exhausted w a c (transactions b ++ l) (c :: cs).

(** The stages of the pipeline for one account, and the stage an event
    belongs to. *)
Inductive stage : Type :=
| StorageDebtEstimator
| StateCacheLookup
| FreezePointLocator
| StateReconstructor
| StateCacheStore.

Definition stage_of (e : event) : option stage :=
  match e with
  | GetFullContractState _ | ComputeStorageFee _ _ _ => Some StorageDebtEstimator
  | FsStat _ | FsReadFile _ => Some StateCacheLookup
  | GetTransactions _ _ => Some FreezePointLocator
  | Fetch _ _ | ParseFullAccountStateInit _ => Some StateReconstructor
  | FsWriteFile _ _ => Some StateCacheStore
  | _ => None
  end.

Definition stages (es : list event) : list stage := omap stage_of es.

(** A computation that only ever adds events to those already there. *)
Definition grows {A} (m : M A) : Prop :=
  forall st o st', m st = (o, st') -> exists es, events st' = events st ++ es.

(** The code fingerprints that [guessGiverAccount] knows. *)
Definition recognized : list string :=
  [ "84dafa449f98a6987789ba232358072bc0f76dc4524002a5d0918b9a75d2d599";
    "0b3a887aeacd2a7d40bb5550bc9253156a029065aefb6d6b583735d58da9d5be";
    "3ba6528ab2694c118180aa3bd10dd19ff400b909ab4dcf58fc69925b2c7b12a6";
    "ccbfc821853aa641af3813ebd477e26818b51e4ca23e5f6d34509215aa7123d9" ].

Definition account_address (a : Account) : Address :=
  match a with
  | WalletV3Account address
  | HighloadWalletV2 address
  | EverWalletAccount address
  | GiverAccount address _ => address
  end.

(** A switch that [parseSwitch] accepts. *)
Definition switch_well_formed (args : Args) (name : string) : Prop :=
  forall v, flags args !! name = Some (FlagValue v) -> v = "true" \/ v = "false".

(** The shape that [addressRegex] describes. *)
Definition address_shape (s : string) : Prop :=
  exists workchain digits,
    s = workchain +:+ ":" +:+ digits /\
    (workchain = "-1" \/ workchain = "0") /\
    String.length digits = 64 /\
    (forall c, In c (list_ascii_of_string digits) -> is_hex_digit c = true).

(** ** A small world to run the program in *)

Module Demo.

Definition hex64 (c : ascii) : string := Str.replicate 64 c.

Definition giverAddress : Address := mkAddress ("0:" +:+ hex64 "1").
(** frozen, with its freeze transaction on the second page *)
Definition A : Address := mkAddress ("0:" +:+ hex64 "a").
(** its newest transaction left it active *)
Definition B : Address := mkAddress ("0:" +:+ hex64 "b").
(** frozen like [A], but the giver cannot pay for it *)
Definition X : Address := mkAddress ("-1:" +:+ hex64 "c").
(** every transaction has end status frozen, the only one froze it *)
Definition F : Address := mkAddress ("0:" +:+ hex64 "f").
(** frozen before and after its only transaction *)
Definition G : Address := mkAddress ("0:" +:+ hex64 "9").
(** an active account *)
Definition V : Address := mkAddress ("0:" +:+ hex64 "7").
(** an account whose code nobody knows *)
Definition Unknown : Address := mkAddress ("0:" +:+ hex64 "3").
(** an account without any state *)
Definition Nowhere : Address := mkAddress ("0:" +:+ hex64 "4").

Definition same (a b : Address) : bool := String.eqb (toString a) (toString b).

Definition c1 : TransactionId := mkTransactionId "25" "h25".
Definition c2 : TransactionId := mkTransactionId "5" "h05".
Definition t1 : Transaction := mkTransaction (mkTransactionId "30" "h30") frozen frozen.
Definition t2 : Transaction := mkTransaction (mkTransactionId "20" "h20") active frozen.
Definition t3 : Transaction := mkTransaction (mkTransactionId "10" "h10") uninit active.
Definition tB : Transaction := mkTransaction (mkTransactionId "50" "h50") frozen active.
Definition tF : Transaction := mkTransaction (mkTransactionId "60" "h60") active frozen.

Definition WalletV3_hash : string :=
  "84dafa449f98a6987789ba232358072bc0f76dc4524002a5d0918b9a75d2d599".

Definition world : World :=
  {| clock_time := 1700000000123;
     os_tmpdir := "/tmp";
     path_join := fun a b => a +:+ "/" +:+ b;
     path_resolve_dirname := fun p => "/app/" +:+ p;
     path_sep := "/";
     fs_fault := fun _ _ => None;
     JSON_parse := fun _ =>
       Ret (JObject [("public", JString "pub"); ("secret", JString "sec")]);
     ensureInitialized := Ret tt;
     getFullContractState := fun a =>
       if same a giverAddress
       then Ret (Some (mkContractState "giver" (Some WalletV3_hash)))
       else if same a Unknown
       then Ret (Some (mkContractState "unknown" (Some (hex64 "0"))))
       else if same a Nowhere then Ret None
       else Ret (Some (mkContractState (toString a) None));
     getTransactions := fun a c =>
       if same a B then Ret (mkBatch [tB] None)
       else if same a F then Ret (mkBatch [tF] None)
       else if same a G then Ret (mkBatch [t1] None)
       else match c with
            | None => Ret (mkBatch [t1] (Some c1))
            | Some c =>
                if String.eqb (lt c) "25" then Ret (mkBatch [t2; t3] (Some c2))
                else Throw (Error "unknown continuation" None)
            end;
     computeStorageFee := fun accountState masterchain _ =>
       if String.eqb (boc accountState) (toString V)
       then Ret (mkStorageFeeInfo active (Some "7"))
       else Ret (mkStorageFeeInfo frozen (if masterchain then None else Some "5"));
     getBocHash := fun _ => Ret (hex64 "e");
     fetch := fun _ _ =>
       Ret (mkResponse true (Ret (JObject [("accountBoc", JString "boc")])) (Ret ""));
     parseFullAccountStateInit := fun _ => Ret (Some "QUJD");
     send := fun _ r =>
       if same (dest r) X then Throw (Error "send failed" None)
       else Ret (mkTransactionId "40" "h40");
     trace_finished := fun _ => Ret tt |}.

Definition cacheDirPath : string := "/tmp/heatwave-states".

Definition statePath (a : Address) : string :=
  path_join world cacheDirPath (toString a).

Definition accounts_file (accounts : list Address) : node :=
  File (list_byte_of_string
          (Str.join newline (map toString accounts) +:+ newline)).

Definition disk (accounts : list Address) : gmap string node :=
  <["accounts.csv" := accounts_file accounts]>
    (<["/app/keys.json" := File []]> ∅).

Definition argv : list string :=
  ["accounts.csv"; "--giver=" +:+ toString giverAddress; "--sign=keys.json"].

Definition st0 : State := initial ∅.

(** a cache directory that already holds a state for [A] *)
Definition cached : State := initial {[ statePath A := File [x00; x01] ]}.

Definition timestamp : Z := timestamp_of world.

(** the accounts that a deploy message was sent for *)
Definition sent_to (es : list event) : list Address :=
  omap (fun e => match e with Send r => Some (dest r) | _ => None end) es.

(** the accounts whose states were stored *)
Definition stored (es : list event) : list string :=
  omap (fun e => match e with FsWriteFile p _ => Some p | _ => None end) es.

Definition bad_giver : string := "1:" +:+ hex64 "a".

Definition bad_argv : list string :=
  ["accounts.csv"; "--giver=" +:+ bad_giver; "--sign=keys.json"].

End Demo.

(** ** Vocabulary of the further statements *)

(** An argument that [getArgs] reads as an option: it begins with a
    dash. *)
Definition is_option (arg : string) : bool :=
  match arg with
  | String c _ => Ascii.eqb c "-"%char
  | EmptyString => false
  end.

(** A string without the character [c]. *)
Definition without (c : ascii) (s : string) : Prop :=
  forall a, In a (list_ascii_of_string s) -> a <> c.

(** A string that is not empty and holds no white space, so also no line
    break. *)
Definition plain (s : string) : Prop :=
  s <> "" /\ forall a, In a (list_ascii_of_string s) -> Str.is_space a = false.

(** A line ending that [readAccounts] splits at. *)
Definition line_ending (eol : string) : Prop :=
  eol = newline \/ eol = String "013"%char newline.

(** A computation that adds only events satisfying [Pe], changes only
    files whose path satisfies [Pp], and leaves the accounts storage
    alone. *)
Definition keeps (Pe : event -> Prop) (Pp : string -> Prop) {A} (m : M A) : Prop :=
  forall st o st',
    m st = (o, st') ->
    (exists es, events st' = events st ++ es /\ Forall Pe es) /\
    (forall p, ~ Pp p -> files st' !! p = files st !! p) /\
    accountsStorage st' = accountsStorage st.

(** The events that the preparation of the account [a], whose state file
    is [statePath], may leave. *)
Definition prepare_event (a : Address) (statePath : string) (e : event) : Prop :=
  match e with
  | ConsoleLog _ => True
  | GetFullContractState a' => a' = a
  | ComputeStorageFee _ _ _ => True
  | FsStat p | FsReadFile p | FsWriteFile p _ => p = statePath
  | GetTransactions a' _ => a' = a
  | Fetch _ _ => True
  | ParseFullAccountStateInit _ => True
  | _ => False
  end.

(** The lines written with [console.error]. *)
Definition errors (es : list event) : list string :=
  omap (fun e => match e with ConsoleError line => Some line | _ => None end) es.

(** The destinations of the deploy messages sent, in order. *)
Definition sent (es : list event) : list Address :=
  omap (fun e => match e with Send r => Some (dest r) | _ => None end) es.

(** The transactions whose confirmation was awaited, in order. *)
Definition traced (es : list event) : list TransactionId :=
  omap (fun e => match e with TraceFinished tx => Some tx | _ => None end) es.


(** A text file of the given lines, each followed by the line ending. *)
Definition lines_text (eol : string) (lines : list string) : string :=
  fold_right (fun l acc => l +:+ eol +:+ acc) "" lines.


(** The events that preparing the states may leave: no message is sent,
    no confirmation awaited, no account or key added. *)
Definition quiet_event (e : event) : Prop :=
  match e with
  | Send _ | TraceFinished _ | AddAccount _ | AddKeyPair _ _ => False
  | _ => True
  end.

(** ** Worlds in which something goes wrong *)

Module Scenario.

Definition with_fetch (w : World) (f : string -> string -> outcome Response) : World :=
  {| clock_time := clock_time w;
     os_tmpdir := os_tmpdir w;
     path_join := path_join w;
     path_resolve_dirname := path_resolve_dirname w;
     path_sep := path_sep w;
     fs_fault := fs_fault w;
     JSON_parse := JSON_parse w;
     ensureInitialized := ensureInitialized w;
     getFullContractState := getFullContractState w;
     getTransactions := getTransactions w;
     computeStorageFee := computeStorageFee w;
     getBocHash := getBocHash w;
     fetch := f;
     parseFullAccountStateInit := parseFullAccountStateInit w;
     send := send w;
     trace_finished := trace_finished w |}.

Definition with_fs_fault (w : World) (f : fs_op -> string -> option SystemError)
  : World :=
  {| clock_time := clock_time w;
     os_tmpdir := os_tmpdir w;
     path_join := path_join w;
     path_resolve_dirname := path_resolve_dirname w;
     path_sep := path_sep w;
     fs_fault := f;
     JSON_parse := JSON_parse w;
     ensureInitialized := ensureInitialized w;
     getFullContractState := getFullContractState w;
     getTransactions := getTransactions w;
     computeStorageFee := computeStorageFee w;
     getBocHash := getBocHash w;
     fetch := fetch w;
     parseFullAccountStateInit := parseFullAccountStateInit w;
     send := send w;
     trace_finished := trace_finished w |}.

Definition with_provider_state (w : World)
    (f : Address -> outcome (option FullContractState)) : World :=
  {| clock_time := clock_time w;
     os_tmpdir := os_tmpdir w;
     path_join := path_join w;
     path_resolve_dirname := path_resolve_dirname w;
     path_sep := path_sep w;
     fs_fault := fs_fault w;
     JSON_parse := JSON_parse w;
     ensureInitialized := ensureInitialized w;
     getFullContractState := f;
     getTransactions := getTransactions w;
     computeStorageFee := computeStorageFee w;
     getBocHash := getBocHash w;
     fetch := fetch w;
     parseFullAccountStateInit := parseFullAccountStateInit w;
     send := send w;
     trace_finished := trace_finished w |}.

(** the provider rejects the request for the state of [Demo.B] with
    [undefined] *)
Definition rejecting_provider : World :=
  with_provider_state Demo.world
    (fun a => if Demo.same a Demo.B then Throw ThrownUndefined
              else getFullContractState Demo.world a).

(** the states service answers 404 with a text *)
Definition service_down : World :=
  with_fetch Demo.world
    (fun _ _ => Ret (mkResponse false (Throw (Error "Unexpected token" None))
                       (Ret "state not found"))).

Definition EACCES (path : string) : SystemError :=
  fs.system_error "EACCES" "permission denied" "stat" (Some path).

(** the cache directory cannot be looked into *)
Definition locked_cache : World :=
  with_fs_fault Demo.world
    (fun op path => match op with OpStat => Some (EACCES path) | _ => None end).

(** the cache directory is gone *)
Definition lost_cache : World :=
  with_fs_fault Demo.world
    (fun op path =>
       match op with OpStat => Some (fs.ENOENT "stat" path) | _ => None end).

End Scenario.


(** The paths of the cache: the directory, the directories above it and
    the state files of the listed accounts. *)
Definition cache_path (w : World) (cacheDirPath : string)
    (accounts : list Address) (p : string) : Prop :=
  p = cacheDirPath \/
  In p (fs.ancestors (path_sep w) cacheDirPath) \/
  exists a, In a accounts /\ p = path_join w cacheDirPath (toString a).


(** What the loop over the prepared states may leave while it works on
    the states [states]: console lines, awaited confirmations, and deploy
    messages for one of the states, from the giver to the microwave
    contract, not bounceable, with the state as prepared and the amount
    debt plus target balance plus fee. *)
Definition unfreeze_event (microwaveAddress giverAddress : Address)
    (targetBalance : string) (states : list FrozenAccount) (e : event) : Prop :=
  match e with
  | ConsoleLog _ | TraceFinished _ => True
  | Send r =>
      exists item d t,
        In item states /\
        BigIntM.parse (storageFeeDebt item) = Some d /\
        BigIntM.parse targetBalance = Some t /\
        r = {| contract := microwaveAddress;
               dest := address item;
               state_init := state item;
               from := giverAddress;
               amount := Str.of_Z (d + t + TX_FEE);
               bounce := false |}
  | _ => False
  end.


(** Any event but the sending of a message. *)
Definition no_send (e : event) : Prop :=
  match e with Send _ => False | _ => True end.

(** A computation that sends no message. *)
Definition silent {A} (m : M A) : Prop :=
  forall st, exists es, events (snd (m st)) = events st ++ es /\ sent es = [].

(** [run] from the point where the address list has been read. *)
Definition run_accounts (w : World) (fuel : nat) (parsedArgs : ParsedArgs)
    (accounts : list Address) : M unit :=
  console_log ("Input: " +:+ Str.of_nat (length accounts) +:+ " accounts") ;;;
  hash <- request (GetBocHash MICROWAVE_BOC) (getBocHash w MICROWAVE_BOC) ;;
  let microwaveAddress := mkAddress ("0:" +:+ hash) in
  console_log ("Microwave address: " +:+ toString microwaveAddress) ;;;
  console_log "Preparing states" ;;;
  states <- prepareStates w fuel accounts (ignoreCache parsedArgs) ;;
  console_log "Unfreezing contracts" ;;;
  unfreeze w microwaveAddress (mkAddress (giver parsedArgs))
    (targetBalance parsedArgs) states.


(** A text of ASCII characters only: on such a text the bytes of the file
    are the characters of the string that [readFileSync(path, 'utf8')]
    gives, and the white space that [trim] removes is that of
    [Str.is_space]. *)
Definition ascii_only (s : string) : Prop :=
  forall a, In a (list_ascii_of_string s) -> (N_of_ascii a < 128)%N.


(** A computation that changes no file and sends no message. *)
Definition reads_only {A} (m : M A) : Prop :=
  forall st,
    files (snd (m st)) = files st /\
    exists es, events (snd (m st)) = events st ++ es /\ sent es = [].

(** The address list as [readAccounts] finds it in a state: no address
    when the file cannot be read. *)
Definition listed (w : World) (path : string) (st : State) : list Address :=
  match fst (readAccounts w path st) with
  | Ret accounts => accounts
  | _ => []
  end.

(* ================================================================== *)
(** * Properties *)

(** ** Base64: decoding undoes encoding *)

Section Base64Facts.

Import Base64.

Lemma unbase64_char_of (n : N) :
  (n < 64)%N ->
  unbase64 (char_of n) = Some n /\ Ascii.eqb (char_of n) "="%char = false.
Proof.
  intros Hn. unfold char_of.
  remember (N.to_nat n) as i eqn:Ei.
  assert (En : n = N.of_nat i) by lia.
  assert (Hi : (i < 64)%nat) by lia.
  subst n. clear Ei Hn.
  do 64 (destruct i as [|i]; [vm_compute; split; reflexivity|]).
  lia.
Qed.

Lemma sextets_char_of (n : N) (s : string) :
  (n < 64)%N -> sextets (String (char_of n) s) = n :: sextets s.
Proof.
  intros Hn. destruct (unbase64_char_of n Hn) as [Hu He].
  simpl. rewrite He, Hu. reflexivity.
Qed.

Lemma byte_of_to_N (b : byte) : byte_of (Byte.to_N b) = b.
Proof.
  unfold byte_of.
  pose proof (Byte.to_N_bounded b) as Hb.
  rewrite N.mod_small by lia.
  rewrite Byte.of_to_N. reflexivity.
Qed.

Lemma first_byte (x y : N) :
  (x < 256)%N -> (y < 256)%N ->
  (x / 4 * 4 + (x mod 4 * 16 + y / 16) / 16 = x)%N.
Proof.
  intros Hx Hy.
  assert (H : ((x mod 4 * 16 + y / 16) / 16 = x mod 4)%N).
  { symmetry. apply (N.div_unique _ 16 _ (y / 16)).
    - apply N.Div0.div_lt_upper_bound. lia.
    - lia. }
  rewrite H. pose proof (N.div_mod x 4). lia.
Qed.

Lemma second_byte (x y z : N) :
  (x < 256)%N -> (y < 256)%N -> (z < 256)%N ->
  ((x mod 4 * 16 + y / 16) mod 16 * 16 + (y mod 16 * 4 + z / 64) / 4 = y)%N.
Proof.
  intros Hx Hy Hz.
  assert (H1 : ((x mod 4 * 16 + y / 16) mod 16 = y / 16)%N).
  { symmetry. apply (N.mod_unique _ 16 (x mod 4)).
    - apply N.Div0.div_lt_upper_bound. lia.
    - lia. }
  assert (H2 : ((y mod 16 * 4 + z / 64) / 4 = y mod 16)%N).
  { symmetry. apply (N.div_unique _ 4 _ (z / 64)).
    - apply N.Div0.div_lt_upper_bound. lia.
    - lia. }
  rewrite H1, H2. pose proof (N.div_mod y 16). lia.
Qed.

Lemma third_byte (y z : N) :
  (y < 256)%N -> (z < 256)%N ->
  ((y mod 16 * 4 + z / 64) mod 4 * 64 + z mod 64 = z)%N.
Proof.
  intros Hy Hz.
  assert (H1 : ((y mod 16 * 4 + z / 64) mod 4 = z / 64)%N).
  { symmetry. apply (N.mod_unique _ 4 (y mod 16)).
    - apply N.Div0.div_lt_upper_bound. lia.
    - lia. }
  rewrite H1. pose proof (N.div_mod z 64). lia.
Qed.

Lemma sextet_bounds (x y : N) :
  (x < 256)%N -> (y < 256)%N ->
  (x / 4 < 64)%N /\ (x mod 4 * 16 + y / 16 < 64)%N /\
  (x mod 16 * 4 + y / 64 < 64)%N /\ (x mod 64 < 64)%N /\
  (x mod 4 * 16 < 64)%N /\ (x mod 16 * 4 < 64)%N.
Proof.
  intros Hx Hy.
  pose proof (N.mod_lt x 4). pose proof (N.mod_lt x 16).
  pose proof (N.mod_lt x 64).
  assert (x / 4 < 64)%N by (apply N.Div0.div_lt_upper_bound; lia).
  assert (y / 16 < 16)%N by (apply N.Div0.div_lt_upper_bound; lia).
  assert (y / 64 < 4)%N by (apply N.Div0.div_lt_upper_bound; lia).
  lia.
Qed.

Lemma list_ind3 {A} (P : list A -> Prop) :
  P [] -> (forall a, P [a]) -> (forall a b, P [a; b]) ->
  (forall a b c l, P l -> P (a :: b :: c :: l)) ->
  forall l, P l.
Proof.
  intros H0 H1 H2 H3 l.
  enough (P l /\ (forall a, P (a :: l)) /\ (forall a b, P (a :: b :: l))) by tauto.
  induction l as [|x l IH]; [auto|].
  destruct IH as (IH0 & IH1 & IH2).
  repeat split; auto.
Qed.

Lemma decode_encode (bs : list byte) : decode (encode bs) = bs.
Proof.
  unfold decode.
  induction bs as [|a|a b|a b c l IH] using list_ind3.
  - reflexivity.
  - pose proof (Byte.to_N_bounded a).
    destruct (sextet_bounds (Byte.to_N a) 0) as (B1 & _ & _ & _ & B5 & _); [lia..|].
    cbn [encode]. rewrite !sextets_char_of by assumption.
    change (sextets "==") with (@nil N). cbn [bytes_of_sextets].
    replace (Byte.to_N a mod 4 * 16)%N with (Byte.to_N a mod 4 * 16 + 0 / 16)%N
      by (rewrite N.Div0.div_0_l; lia).
    rewrite first_byte by lia. rewrite byte_of_to_N. reflexivity.
  - pose proof (Byte.to_N_bounded a). pose proof (Byte.to_N_bounded b).
    destruct (sextet_bounds (Byte.to_N a) (Byte.to_N b)) as (B1 & B2 & _); [lia..|].
    destruct (sextet_bounds (Byte.to_N b) 0) as (_ & _ & _ & _ & _ & B6); [lia..|].
    cbn [encode]. rewrite !sextets_char_of by assumption.
    change (sextets "=") with (@nil N). cbn [bytes_of_sextets].
    rewrite first_byte by lia.
    replace (Byte.to_N b mod 16 * 4)%N with (Byte.to_N b mod 16 * 4 + 0 / 64)%N
      by (rewrite N.Div0.div_0_l; lia).
    rewrite second_byte by lia. rewrite !byte_of_to_N. reflexivity.
  - pose proof (Byte.to_N_bounded a). pose proof (Byte.to_N_bounded b).
    pose proof (Byte.to_N_bounded c).
    destruct (sextet_bounds (Byte.to_N a) (Byte.to_N b)) as (B1 & B2 & _); [lia..|].
    destruct (sextet_bounds (Byte.to_N b) (Byte.to_N c)) as (_ & _ & B3 & _); [lia..|].
    destruct (sextet_bounds (Byte.to_N c) 0) as (_ & _ & _ & B4 & _); [lia..|].
    cbn [encode]. rewrite !sextets_char_of by assumption.
    cbn [bytes_of_sextets].
    rewrite first_byte, second_byte, third_byte by lia.
    rewrite !byte_of_to_N, IH. reflexivity.
Qed.

End Base64Facts.

(** ** The monad *)

Section MonadFacts.

Lemma record_nil (st : State) : record [] st = st.
Proof. destruct st. unfold record. simpl. rewrite app_nil_r. reflexivity. Qed.

Lemma record_record (es1 es2 : list event) (st : State) :
  record es2 (record es1 st) = record (es1 ++ es2) st.
Proof. unfold record. simpl. rewrite app_assoc. reflexivity. Qed.

Lemma emit_eq (e : event) (st : State) : emit e st = (Ret tt, record [e] st).
Proof. reflexivity. Qed.

Lemma request_eq {A} (e : event) (o : outcome A) (st : State) :
  request e o st = (o, record [e] st).
Proof. unfold request, bind. rewrite emit_eq. reflexivity. Qed.

Lemma console_log_eq (line : string) (st : State) :
  console_log line st = (Ret tt, record [ConsoleLog line] st).
Proof. reflexivity. Qed.

Lemma files_record (es : list event) (st : State) :
  files (record es st) = files st.
Proof. reflexivity. Qed.

Lemma events_record (es : list event) (st : State) :
  events (record es st) = events st ++ es.
Proof. reflexivity. Qed.

End MonadFacts.

(** ** The search for the freeze transaction *)

Section Search.

Variable w : World.
Variable a : Address.

Lemma scan_app_frozen (pre rest : list Transaction) :
  Forall stays_frozen pre -> scan (pre ++ rest) = scan rest.
Proof.
  induction 1 as [|t pre [Ho He] _ IH]; [reflexivity|].
  simpl. rewrite He, Ho. simpl. exact IH.
Qed.

Lemma scan_all_frozen (l : list Transaction) :
  Forall stays_frozen l -> scan l = ScanNext.
Proof.
  intros H. rewrite <- (app_nil_r l). rewrite scan_app_frozen by assumption.
  reflexivity.
Qed.

Lemma scan_decisive (t : Transaction) (rest : list Transaction) :
  ~ stays_frozen t ->
  forall (k : scan_result -> M (option string)) st,
    (forall st, k ScanNotFrozen st = (Throw (Error "Account not frozen" None), st)) ->
    (forall l st, k (ScanFound l) st = (Ret (Some l), st)) ->
    k (scan (t :: rest)) st = (verdict t, st).
Proof.
  intros Hn k st Hk1 Hk2. unfold verdict. simpl.
  destruct (endStatus t) eqn:He; simpl; auto.
  destruct (origStatus t) eqn:Ho; simpl; auto.
  exfalso. apply Hn. split; assumption.
Qed.

Lemma split_last_app (l1 l2 pre : list Transaction) (t : Transaction) :
  l1 ++ l2 = pre ++ [t] -> l2 <> [] ->
  exists pre2, l2 = pre2 ++ [t] /\ pre = l1 ++ pre2.
Proof.
  intros E Hne.
  destruct (exists_last Hne) as (pre2 & t' & ->).
  rewrite app_assoc in E.
  apply app_inj_tail in E. destruct E as [<- <-].
  exists pre2. split; reflexivity.
Qed.

(** The walk stops at the first transaction that does not stay frozen,
    having asked for exactly the batches up to the one that holds it. *)
Lemma search_decisive (c : option TransactionId) (l : list Transaction)
    (cs : list (option TransactionId)) :
  covers w a c l cs ->
  forall pre t fuel st,
    l = pre ++ [t] ->
    Forall stays_frozen pre ->
    ~ stays_frozen t ->
    length cs <= fuel ->
    searchFreezeTransaction w fuel a c st
    = (verdict t, record (map (GetTransactions a) cs) st).
Proof.
  induction 1 as [c b l older Hget Htx Hne | c b c' l cs Hget Hcont Hne Hcov IH];
    intros pre t fuel st El Hpre Ht Hfuel.
  - destruct fuel as [|fuel]; [simpl in Hfuel; lia|].
    simpl. unfold bind. rewrite request_eq, Hget.
    rewrite Htx, El, <- app_assoc, scan_app_frozen by assumption.
    simpl app.
    apply (scan_decisive t older Ht
             (fun r => match r with
                       | ScanNotFrozen => throw (Error "Account not frozen" None)
                       | ScanFound l0 => ret (Some l0)
                       | ScanNext => _
                       end)); reflexivity.
  - destruct fuel as [|fuel]; [simpl in Hfuel; lia|].
    destruct (split_last_app _ _ _ _ El Hne) as (pre2 & -> & ->).
    apply Forall_app in Hpre. destruct Hpre as [Hb Hpre2].
    simpl. unfold bind. rewrite request_eq, Hget.
    rewrite (scan_all_frozen _ Hb), Hcont.
    rewrite (IH pre2 t fuel _ eq_refl Hpre2 Ht) by (simpl in Hfuel; lia).
    rewrite record_record. reflexivity.
Qed.

(** A history that is walked to its end over transactions that all
    stay frozen gives no freeze transaction. *)
Lemma search_exhausted (c : option TransactionId) (l : list Transaction)
    (cs : list (option TransactionId)) :
  exhausted w a c l cs ->
  forall fuel st,
    Forall stays_frozen l ->
    length cs <= fuel ->
    searchFreezeTransaction w fuel a c st
    = (Ret None, record (map (GetTransactions a) cs) st).
Proof.
  induction 1 as [c b Hget Hcont | c b c' l cs Hget Hcont Hex IH];
    intros fuel st Hl Hfuel.
  - destruct fuel as [|fuel]; [simpl in Hfuel; lia|].
    simpl. unfold bind. rewrite request_eq, Hget.
    rewrite (scan_all_frozen _ Hl), Hcont. reflexivity.
  - destruct fuel as [|fuel]; [simpl in Hfuel; lia|].
    apply Forall_app in Hl. destruct Hl as [Hb Hl].
    simpl. unfold bind. rewrite request_eq, Hget.
    rewrite (scan_all_frozen _ Hb), Hcont.
    rewrite (IH fuel _ Hl) by (simpl in Hfuel; lia).
    rewrite record_record. reflexivity.
Qed.

(** The requests that reach the newest transaction are among those that
    reach any longer beginning of the history. *)
Lemma covers_head (c : option TransactionId) (t : Transaction)
    (l : list Transaction) (cs : list (option TransactionId)) :
  covers w a c (t :: l) cs ->
  exists cs', covers w a c [t] cs' /\ length cs' <= length cs.
Proof.
  intros Hcov. remember (t :: l) as h eqn:Eh. revert t l Eh.
  induction Hcov as [c b h older Hget Htx Hne | c b c' h cs Hget Hcont Hne Hcov IH];
    intros t l Eh.
  - exists [c]. split; [|apply le_n].
    apply (covers_here w a c b [t] (l ++ older)); [assumption| |discriminate].
    rewrite Htx, Eh. reflexivity.
  - destruct (transactions b) as [|t0 tb] eqn:Etb.
    + simpl in Eh. subst h.
      destruct (IH t l eq_refl) as (cs' & Hc' & Hl').
      exists (c :: cs'). split; [|simpl; lia].
      replace [t] with (transactions b ++ [t]) by (rewrite Etb; reflexivity).
      apply (covers_next w a c b c'); [assumption|assumption|discriminate|].
      exact Hc'.
    + simpl in Eh. injection Eh as -> El.
      exists [c]. split; [|simpl; lia].
      apply (covers_here w a c b [t] tb); [assumption| |discriminate].
      rewrite Etb. reflexivity.
Qed.

End Search.

(** ** Locating the freeze transaction *)

(** C2: when the history of an account, newest first across the batches
    of the provider, begins with a transaction that is frozen before and
    after and then a transaction with end status frozen whose origin
    status is not frozen, [locate] returns the logical time of that
    second transaction, and the requests it has made are exactly those
    for the batches up to the one that holds it: nothing older is looked
    at and no further batch is asked for. *)
Theorem locate_returns_second_record (w : World) (a : Address)
    (t1 t2 : Transaction) (cs : list (option TransactionId))
    (fuel : nat) (st : State) :
  covers w a None [t1; t2] cs ->
  origStatus t1 = frozen -> endStatus t1 = frozen ->
  origStatus t2 <> frozen -> endStatus t2 = frozen ->
  length cs <= fuel ->
  locate w fuel a st
  = (Ret (lt (id t2)), record (map (GetTransactions a) cs) st).
Proof.
  intros Hcov Ho1 He1 Ho2 He2 Hfuel.
  unfold locate, bind.
  rewrite (search_decisive w a None [t1; t2] cs Hcov [t1] t2 fuel st eq_refl).
  - unfold verdict. rewrite He2. reflexivity.
  - constructor; [split; assumption | constructor].
  - intros [Ho _]. contradiction.
  - assumption.
Qed.

Lemma locate_returns_second_record_witness :
  locate Demo.world 2 Demo.A Demo.st0
  = (Ret "20",
     record [GetTransactions Demo.A None; GetTransactions Demo.A (Some Demo.c1)]
       Demo.st0).
Proof.
  apply (locate_returns_second_record Demo.world Demo.A Demo.t1 Demo.t2
           [None; Some Demo.c1] 2 Demo.st0).
  - apply (covers_next Demo.world Demo.A None (mkBatch [Demo.t1] (Some Demo.c1))
             Demo.c1 [Demo.t2] [Some Demo.c1]).
    + reflexivity.
    + reflexivity.
    + discriminate.
    + apply (covers_here Demo.world Demo.A (Some Demo.c1)
               (mkBatch [Demo.t2; Demo.t3] (Some Demo.c2)) [Demo.t2] [Demo.t3]).
      * reflexivity.
      * reflexivity.
      * discriminate.
  - reflexivity.
  - reflexivity.
  - discriminate.
  - reflexivity.
  - apply le_n.
Defined.

(** C3, as stated, fails: the account [Demo.F] was never seen in a
    transaction with a non-frozen end status (its whole history is one
    transaction, which froze it), and [locate] returns the logical time of
    that transaction instead of failing. *)
Lemma locate_all_end_statuses_frozen_succeeds :
  exhausted Demo.world Demo.F None [Demo.tF] [None] /\
  Forall (fun t => endStatus t = frozen) [Demo.tF] /\
  fst (locate Demo.world 1 Demo.F Demo.st0) = Ret "60" /\
  fst (locate Demo.world 1 Demo.F Demo.st0)
  <> Throw (Error "Account not frozen" None).
Proof.
  split; [|split; [|split]].
  - apply (exhausted_last Demo.world Demo.F None (mkBatch [Demo.tF] None));
      reflexivity.
  - repeat constructor.
  - reflexivity.
  - discriminate.
Qed.

(** C3, amended: [locate] fails with "Account not frozen" when the
    history, newest first, comes to a transaction whose end status is not
    frozen after none or only transactions that are frozen before and
    after (so also when the history is not empty and no transaction in it
    has end status frozen); and it fails with "Freeze transaction not
    found" when the walk comes to the end of the history, the batch
    without continuation, over transactions that are all frozen before
    and after. *)
Theorem locate_failures (w : World) (a : Address) (fuel : nat) (st : State) :
  (forall pre t cs,
      covers w a None (pre ++ [t]) cs ->
      Forall stays_frozen pre ->
      endStatus t <> frozen ->
      length cs <= fuel ->
      locate w fuel a st
      = (Throw (Error "Account not frozen" None),
         record (map (GetTransactions a) cs) st)) /\
  (forall t l cs,
      covers w a None (t :: l) cs ->
      Forall (fun t => endStatus t <> frozen) (t :: l) ->
      length cs <= fuel ->
      fst (locate w fuel a st) = Throw (Error "Account not frozen" None)) /\
  (forall l cs,
      exhausted w a None l cs ->
      Forall stays_frozen l ->
      length cs <= fuel ->
      locate w fuel a st
      = (Throw (Error "Freeze transaction not found" None),
         record (map (GetTransactions a) cs) st)).
Proof.
  assert (Hnf : forall pre t cs,
             covers w a None (pre ++ [t]) cs ->
             Forall stays_frozen pre ->
             endStatus t <> frozen ->
             length cs <= fuel ->
             locate w fuel a st
             = (Throw (Error "Account not frozen" None),
                record (map (GetTransactions a) cs) st)).
  { intros pre t cs Hcov Hpre He Hfuel.
    unfold locate, bind.
    rewrite (search_decisive w a None _ cs Hcov pre t fuel st eq_refl Hpre).
    - unfold verdict. destruct (endStatus t); try reflexivity. contradiction.
    - intros [_ He']. contradiction.
    - assumption. }
  split; [exact Hnf|split].
  - intros t l cs Hcov Hall Hfuel.
    destruct (covers_head w a None t l cs Hcov) as (cs' & Hc' & Hl').
    inversion Hall as [|t' l' Ht _]; subst.
    rewrite (Hnf [] t cs' Hc' (List.Forall_nil _) Ht) by lia. reflexivity.
  - intros l cs Hex Hl Hfuel.
    unfold locate, bind.
    rewrite (search_exhausted w a None l cs Hex fuel st Hl Hfuel). reflexivity.
Qed.

Lemma locate_failures_witness :
  locate Demo.world 1 Demo.B Demo.st0
  = (Throw (Error "Account not frozen" None),
     record [GetTransactions Demo.B None] Demo.st0) /\
  locate Demo.world 1 Demo.G Demo.st0
  = (Throw (Error "Freeze transaction not found" None),
     record [GetTransactions Demo.G None] Demo.st0).
Proof.
  split.
  - apply (proj1 (locate_failures Demo.world Demo.B 1 Demo.st0) [] Demo.tB [None]).
    + apply (covers_here Demo.world Demo.B None (mkBatch [Demo.tB] None) [Demo.tB] []).
      * reflexivity.
      * reflexivity.
      * discriminate.
    + constructor.
    + discriminate.
    + apply le_n.
  - apply (proj2 (proj2 (locate_failures Demo.world Demo.G 1 Demo.st0))
             [Demo.t1] [None]).
    + apply (exhausted_last Demo.world Demo.G None (mkBatch [Demo.t1] None)).
      * reflexivity.
      * reflexivity.
    + constructor; [split; reflexivity | constructor].
    + apply le_n.
Defined.

(** ** The cache of states *)

Section Cache.

Variable w : World.

Lemma put_stores (statePath state : string) (st st' : State) :
  put w statePath state st = (Ret tt, st') ->
  st' = {| files := <[statePath := File (Base64.decode state)]> (files st);
           accountsStorage := accountsStorage st;
           events := events st ++ [FsWriteFile statePath (Base64.decode state)] |}.
Proof.
  unfold put, fs.writeFile, fs.faulty, bind. rewrite emit_eq.
  destruct (fs_fault w OpWriteFile statePath); [discriminate|].
  unfold get_files, set_file, throw. simpl.
  destruct (files st !! statePath) as [[data|]|]; intros H;
    first [discriminate | injection H as <-; reflexivity].
Qed.

Lemma put_succeeds (statePath state : string) (st : State) :
  fs_fault w OpWriteFile statePath = None ->
  files st !! statePath <> Some Directory ->
  fst (put w statePath state st) = Ret tt.
Proof.
  intros Hf Hd.
  unfold put, fs.writeFile, fs.faulty, bind. rewrite emit_eq, Hf.
  unfold get_files, set_file, throw. simpl.
  destruct (files st !! statePath) as [[data|]|]; try reflexivity.
  contradiction.
Qed.

Lemma tryGet_hit (statePath : string) (data : list byte) (st : State) :
  files st !! statePath = Some (File data) ->
  fs_fault w OpStat statePath = None ->
  fs_fault w OpReadFile statePath = None ->
  tryGet w false statePath st
  = (Ret (Some (Base64.encode data)),
     record [FsStat statePath; FsReadFile statePath] st).
Proof.
  intros Hfile Hs Hr.
  unfold tryGet, try_catch, fs.stat_isFile, fs.readFile, fs.faulty, bind,
    emit, get_files, ret, record.
  simpl. rewrite Hs. simpl. rewrite Hfile. simpl. rewrite Hr. simpl.
  rewrite Hfile. rewrite <- app_assoc. reflexivity.
Qed.

Lemma tryGet_ignoreCache (statePath : string) (st : State) :
  tryGet w true statePath st = (Ret None, st).
Proof. reflexivity. Qed.

End Cache.

(** C4, as stated, fails for a state text that is not the base64 print
    of its bytes: the text [QQ], without padding, stands for the one byte
    [A]; what is read back from the cache is the print of that byte,
    [QQ==], and not the text that was put. *)
Lemma cache_round_trip_pads_the_text :
  tryGet Demo.world false (Demo.statePath Demo.A)
    (snd (put Demo.world (Demo.statePath Demo.A) "QQ" Demo.st0))
  = (Ret (Some "QQ=="),
     record [FsStat (Demo.statePath Demo.A); FsReadFile (Demo.statePath Demo.A)]
       (snd (put Demo.world (Demo.statePath Demo.A) "QQ" Demo.st0))) /\
  fst (put Demo.world (Demo.statePath Demo.A) "QQ" Demo.st0) = Ret tt /\
  "QQ==" <> "QQ".
Proof. split; [vm_compute; reflexivity | split; [reflexivity | discriminate]]. Qed.

(** C4, amended: once [put] has stored a state for an address, [tryGet]
    for the same address with the cache in use (and the file system
    letting it look) returns the base64 print of the bytes that the state
    text stands for: a state with the very same bytes; it is the same
    base64 text whenever the text that was put is the encoding of some
    bytes, as every state that [Buffer] would print is. *)
Theorem cache_round_trip (w : World) (cacheDirPath : string) (addr : Address)
    (blob : string) (st st' : State) :
  let statePath := path_join w cacheDirPath (toString addr) in
  put w statePath blob st = (Ret tt, st') ->
  fs_fault w OpStat statePath = None ->
  fs_fault w OpReadFile statePath = None ->
  exists data,
    tryGet w false statePath st'
    = (Ret (Some data), record [FsStat statePath; FsReadFile statePath] st') /\
    data = Base64.encode (Base64.decode blob) /\
    Base64.decode data = Base64.decode blob /\
    (forall bytes, blob = Base64.encode bytes -> data = blob).
Proof.
  intros statePath Hput Hs Hr.
  apply put_stores in Hput.
  exists (Base64.encode (Base64.decode blob)).
  split; [|split; [reflexivity|split]].
  - apply tryGet_hit; [|assumption|assumption].
    rewrite Hput. simpl. apply lookup_insert_eq.
  - apply decode_encode.
  - intros bytes ->. rewrite decode_encode. reflexivity.
Qed.

Lemma cache_round_trip_witness :
  exists data,
    tryGet Demo.world false (Demo.statePath Demo.A)
      (snd (put Demo.world (Demo.statePath Demo.A) "QUJD" Demo.st0))
    = (Ret (Some data),
       record [FsStat (Demo.statePath Demo.A); FsReadFile (Demo.statePath Demo.A)]
         (snd (put Demo.world (Demo.statePath Demo.A) "QUJD" Demo.st0))) /\
    data = Base64.encode (Base64.decode "QUJD") /\
    Base64.decode data = Base64.decode "QUJD" /\
    (forall bytes, "QUJD" = Base64.encode bytes -> data = "QUJD").
Proof.
  apply (cache_round_trip Demo.world Demo.cacheDirPath Demo.A "QUJD" Demo.st0).
  - reflexivity.
  - reflexivity.
  - reflexivity.
Defined.

(** ** What the stages of one account leave behind *)

Ltac case_step H :=
  match type of H with
  | context [match ?x with _ => _ end] =>
      lazymatch x with
      | context [match _ with _ => _ end] => fail
      | _ => destruct x eqn:?
      end
  end;
  simpl in H; try discriminate H.

Section Stages.

Variable w : World.

Lemma estimate_returns (timestamp : Z) (a : Address) (st st' : State) (d : string) :
  estimate w timestamp a st = (Ret d, st') ->
  exists accountState account,
    getFullContractState w a = Ret (Some accountState) /\
    computeStorageFee w accountState (Str.startsWith "-1" (toString a)) timestamp
    = Ret account /\
    (accountStatus account = frozen \/ accountStatus account = nonexist) /\
    d = match storageFeeDebt_opt account with Some d => d | None => "0" end /\
    st' = record [ GetFullContractState a;
                   ComputeStorageFee accountState
                     (Str.startsWith "-1" (toString a)) timestamp;
                   ConsoleLog ("  storage fee debt: " +:+ d) ] st.
Proof.
  intros H. unfold estimate, bind in H. rewrite request_eq in H.
  destruct (getFullContractState w a) as [[accountState|]|e|] eqn:Hget;
    try discriminate H.
  rewrite request_eq in H.
  destruct (computeStorageFee w accountState _ timestamp) as [account|e|] eqn:Hfee;
    try discriminate H.
  destruct (negb (is_frozen (accountStatus account))
            && negb (is_nonexist (accountStatus account))) eqn:Hst;
    try discriminate H.
  rewrite console_log_eq in H. unfold ret in H. injection H as <- <-.
  exists accountState, account. repeat split.
  - assumption.
  - destruct (accountStatus account); simpl in Hst; auto; discriminate.
  - rewrite !record_record. reflexivity.
Qed.

Lemma search_requests (fuel : nat) (a : Address) :
  forall c st o st',
    searchFreezeTransaction w fuel a c st = (o, st') ->
    exists cs,
      st' = record (map (GetTransactions a) cs) st /\
      length cs <= fuel /\
      (0 < fuel -> cs <> []).
Proof.
  induction fuel as [|fuel IH]; intros c st o st' H.
  - simpl in H. injection H as <- <-. exists []. rewrite record_nil.
    repeat split; [apply le_n | intros; lia].
  - simpl in H. unfold bind in H. rewrite request_eq in H.
    destruct (getTransactions w a c) as [b|e|].
    + destruct (scan (transactions b)).
      * injection H as <- <-. exists [c]. repeat split; [simpl; lia|discriminate].
      * injection H as <- <-. exists [c]. repeat split; [simpl; lia|discriminate].
      * destruct (continuation b) as [c'|].
        -- apply IH in H. destruct H as (cs & -> & Hl & _).
           exists (c :: cs). rewrite record_record.
           repeat split; [simpl; lia|discriminate].
        -- injection H as <- <-. exists [c].
           repeat split; [simpl; lia|discriminate].
    + injection H as <- <-. exists [c]. repeat split; [simpl; lia|discriminate].
    + injection H as <- <-. exists [c]. repeat split; [simpl; lia|discriminate].
Qed.

Lemma reconstruct_returns (a : Address) (l s : string) (st st' : State) :
  reconstruct w a l st = (Ret s, st') ->
  exists fullState,
    st' = record [ Fetch (STATES_API_URL +:+ "/apply") (apply_body a l);
                   ParseFullAccountStateInit fullState ] st.
Proof.
  intros H. unfold reconstruct in H.
  unfold bind in H. rewrite request_eq in H.
  destruct (fetch w _ _) as [res|e|]; try discriminate H.
  destruct (ok res).
  - unfold settle in H.
    destruct (res_json res) as [j|e|]; try discriminate H.
    destruct j as [| | | | |fields]; unfold throw, ret in H;
      try discriminate H;
      rewrite request_eq in H;
      (destruct (parseFullAccountStateInit w _) as [[s'|]|e|];
       try discriminate H);
      injection H as <- <-; eexists; rewrite record_record; reflexivity.
  - unfold settle in H.
    destruct (res_text res); discriminate H.
Qed.

Lemma applyState_returns (fuel : nat) (a : Address) (s : string) (st st' : State) :
  applyState w fuel a st = (Ret s, st') ->
  exists cs l fullState,
    cs <> [] /\ length cs <= fuel /\
    st' = record ([ConsoleLog "  searching for freeze transaction"]
                  ++ map (GetTransactions a) cs
                  ++ [ ConsoleLog ("  applying state at logical time " +:+ l);
                       Fetch (STATES_API_URL +:+ "/apply") (apply_body a l);
                       ParseFullAccountStateInit fullState ]) st.
Proof.
  intros H. unfold applyState, locate in H.
  unfold bind in H. rewrite console_log_eq in H.
  destruct (searchFreezeTransaction w fuel a None _) as [o st1] eqn:Hs.
  destruct (search_requests _ _ _ _ _ _ Hs) as (cs & -> & Hl & Hne).
  destruct o as [[l|]|e|]; try discriminate H.
  unfold ret in H. rewrite console_log_eq in H.
  destruct (reconstruct w a l _) as [o2 st2] eqn:Hr.
  destruct o2 as [s'|e|]; try discriminate H.
  injection H as <- <-.
  apply reconstruct_returns in Hr. destruct Hr as (fullState & ->).
  exists cs, l, fullState. split; [|split; [assumption|]].
  - apply Hne. destruct fuel; [|lia].
    simpl in Hs. discriminate Hs.
  - rewrite !record_record. reflexivity.
Qed.

Lemma tryGet_returns (statePath : string) (r : option string) (st st' : State) :
  tryGet w false statePath st = (Ret r, st') ->
  match r with
  | Some _ => st' = record [FsStat statePath; FsReadFile statePath] st
  | None => st' = record [FsStat statePath] st
  end.
Proof.
  unfold tryGet, try_catch, fs.stat_isFile, fs.readFile, fs.faulty, bind,
    emit, get_files, ret, throw.
  simpl.
  intros H.
  repeat (case_step H; try (injection H as <- <-));
    try solve [reflexivity | unfold record; simpl; rewrite <- !app_assoc; reflexivity].
Qed.

End Stages.

(** C5: with [ignoreCache] set the cache is not read, whatever was put
    there before: [tryGet] answers absent without touching the file
    system, so that after the debt estimate the state is always
    reconstructed; and the write still happens: once [applyState] has
    returned a state, its bytes replace whatever the cache held for the
    address. *)
Theorem ignoreCache_skips_the_read_and_still_writes (w : World) (fuel : nat)
    (timestamp : Z) (cacheDirPath : string) (a : Address) (st : State) :
  let statePath := path_join w cacheDirPath (toString a) in
  tryGet w true statePath st = (Ret None, st) /\
  prepareAccount w fuel true timestamp statePath a st
  = (storageFeeDebt <- estimate w timestamp a ;;
     state <- applyState w fuel a ;;
     put w statePath state ;;;
     console_log "  updated cached state" ;;;
     ret (mkFrozenAccount a state storageFeeDebt)) st /\
  (forall d st1 s st2,
      estimate w timestamp a st = (Ret d, st1) ->
      applyState w fuel a st1 = (Ret s, st2) ->
      fs_fault w OpWriteFile statePath = None ->
      files st !! statePath <> Some Directory ->
      prepareAccount w fuel true timestamp statePath a st
      = (Ret (mkFrozenAccount a s d),
         {| files := <[statePath := File (Base64.decode s)]> (files st);
            accountsStorage := accountsStorage st2;
            events := events st2
                      ++ [ FsWriteFile statePath (Base64.decode s);
                           ConsoleLog "  updated cached state" ] |})).
Proof.
  intros statePath. split; [reflexivity|].
  assert (Heq : prepareAccount w fuel true timestamp statePath a st
                = (storageFeeDebt <- estimate w timestamp a ;;
                   state <- applyState w fuel a ;;
                   put w statePath state ;;;
                   console_log "  updated cached state" ;;;
                   ret (mkFrozenAccount a state storageFeeDebt)) st).
  { unfold prepareAccount, bind. simpl tryGet.
    destruct (estimate w timestamp a st) as [[d|e|] st1]; reflexivity. }
  split; [exact Heq|].
  - intros d st1 s st2 He Ha Hf Hd.
    pose proof (estimate_returns w _ _ _ _ _ He)
      as (accountState & account & _ & _ & _ & _ & E1).
    pose proof (applyState_returns w _ _ _ _ _ Ha)
      as (cs & l & fullState & _ & _ & E2).
    assert (Hfiles : files st2 = files st) by (rewrite E2, E1; reflexivity).
    rewrite Heq. unfold bind. rewrite He, Ha.
    destruct (put w statePath s st2) as [o st3] eqn:Hp.
    assert (Ho : o = Ret tt).
    { pose proof (put_succeeds w statePath s st2 Hf) as Hs.
      rewrite Hp in Hs. apply Hs. rewrite Hfiles. assumption. }
    subst o. apply put_stores in Hp. subst st3.
    rewrite console_log_eq. unfold ret, record. simpl.
    rewrite Hfiles, <- app_assoc. reflexivity.
Qed.

Lemma ignoreCache_skips_the_read_and_still_writes_witness :
  files Demo.cached !! Demo.statePath Demo.A = Some (File [x00; x01]) /\
  tryGet Demo.world true (Demo.statePath Demo.A) Demo.cached
  = (Ret None, Demo.cached) /\
  (let r := prepareAccount Demo.world 2 true Demo.timestamp
              (Demo.statePath Demo.A) Demo.A Demo.cached in
   fst r = Ret (mkFrozenAccount Demo.A "QUJD" "5") /\
   files (snd r) !! Demo.statePath Demo.A = Some (File [x41; x42; x43])).
Proof.
  pose proof (ignoreCache_skips_the_read_and_still_writes Demo.world 2
                Demo.timestamp Demo.cacheDirPath Demo.A Demo.cached)
    as (Hget & _ & Hput).
  split; [vm_compute; reflexivity|]. split; [exact Hget|].
  specialize (Hput "5"
                (snd (estimate Demo.world Demo.timestamp Demo.A Demo.cached))
                "QUJD"
                (snd (applyState Demo.world 2 Demo.A
                        (snd (estimate Demo.world Demo.timestamp Demo.A Demo.cached))))).
  cbv zeta.
  change (path_join Demo.world Demo.cacheDirPath (toString Demo.A))
    with (Demo.statePath Demo.A) in Hput.
  rewrite Hput.
  - split; [reflexivity|]. simpl. apply lookup_insert_eq.
  - vm_compute. reflexivity.
  - vm_compute. reflexivity.
  - reflexivity.
  - vm_compute. discriminate.
Defined.

(** C8: when the fee computation reports a status other than frozen or
    nonexist, the debt estimate of the account fails with "Account is not
    frozen"; when it reports one of the two and no debt figure, the debt
    is the string "0", which [BigInt] reads as zero, and that is the debt
    of the item the account is prepared with. *)
Theorem estimate_status_and_default_debt (w : World) (timestamp : Z)
    (a : Address) (st : State)
    (accountState : FullContractState) (account : StorageFeeInfo) :
  getFullContractState w a = Ret (Some accountState) ->
  computeStorageFee w accountState (Str.startsWith "-1" (toString a)) timestamp
  = Ret account ->
  (accountStatus account <> frozen ->
   accountStatus account <> nonexist ->
   fst (estimate w timestamp a st) = Throw (Error "Account is not frozen" None)) /\
  (accountStatus account = frozen \/ accountStatus account = nonexist ->
   storageFeeDebt_opt account = None ->
   fst (estimate w timestamp a st) = Ret "0" /\
   BigIntM.parse "0" = Some 0%Z /\
   forall fuel ignoreCache statePath item st',
     prepareAccount w fuel ignoreCache timestamp statePath a st = (Ret item, st') ->
     storageFeeDebt item = "0").
Proof.
  intros Hget Hfee. split.
  - intros Hf Hn.
    unfold estimate, bind. rewrite request_eq, Hget, request_eq, Hfee.
    destruct (accountStatus account); try contradiction; reflexivity.
  - intros Hs Hd.
    assert (He : exists st1, estimate w timestamp a st = (Ret "0", st1)).
    { unfold estimate, bind. rewrite request_eq, Hget, request_eq, Hfee.
      rewrite Hd. destruct Hs as [-> | ->]; simpl; eexists; reflexivity. }
    destruct He as (st1 & He).
    split; [rewrite He; reflexivity|]. split; [reflexivity|].
    intros fuel ignoreCache statePath item st' H.
    unfold prepareAccount, bind in H. rewrite He in H.
    destruct (tryGet w ignoreCache statePath st1) as [[[data|]|e|] st2];
      try discriminate H.
    + rewrite console_log_eq in H. unfold ret in H. injection H as <- <-.
      reflexivity.
    + destruct (applyState w fuel a st2) as [[s|e|] st3]; try discriminate H.
      destruct (put w statePath s st3) as [[[]|e|] st4]; try discriminate H.
      rewrite console_log_eq in H. unfold ret in H. injection H as <- <-.
      reflexivity.
Qed.

Lemma estimate_status_and_default_debt_witness :
  fst (estimate Demo.world Demo.timestamp Demo.V Demo.st0)
  = Throw (Error "Account is not frozen" None) /\
  fst (estimate Demo.world Demo.timestamp Demo.X Demo.st0) = Ret "0".
Proof.
  split.
  - apply (proj1 (estimate_status_and_default_debt Demo.world Demo.timestamp
                    Demo.V Demo.st0
                    (mkContractState (toString Demo.V) None)
                    (mkStorageFeeInfo active (Some "7"))
                    eq_refl eq_refl)).
    + discriminate.
    + discriminate.
  - apply (proj2 (estimate_status_and_default_debt Demo.world Demo.timestamp
                    Demo.X Demo.st0
                    (mkContractState (toString Demo.X) None)
                    (mkStorageFeeInfo frozen None)
                    eq_refl eq_refl)).
    + left. reflexivity.
    + reflexivity.
Defined.

(** ** Events are only ever added *)

Section Grows.

Lemma grows_ret {A} (x : A) : grows (ret x).
Proof. intros st o st' H. injection H as <- <-. exists []. symmetry. apply app_nil_r. Qed.

Lemma grows_throw {A} (e : exn) : grows (@throw A e).
Proof. intros st o st' H. injection H as <- <-. exists []. symmetry. apply app_nil_r. Qed.

Lemma grows_pending {A} : grows (@pending A).
Proof. intros st o st' H. injection H as <- <-. exists []. symmetry. apply app_nil_r. Qed.

Lemma grows_settle {A} (o : outcome A) : grows (settle o).
Proof. intros st o' st' H. injection H as <- <-. exists []. symmetry. apply app_nil_r. Qed.

Lemma grows_emit (e : event) : grows (emit e).
Proof. intros st o st' H. injection H as <- <-. exists [e]. reflexivity. Qed.

Lemma grows_get_files : grows get_files.
Proof. intros st o st' H. injection H as <- <-. exists []. symmetry. apply app_nil_r. Qed.

Lemma grows_set_file (path : string) (n : node) : grows (set_file path n).
Proof. intros st o st' H. injection H as <- <-. exists []. symmetry. apply app_nil_r. Qed.

Lemma grows_bind {A B} (m : M A) (k : A -> M B) :
  grows m -> (forall x, grows (k x)) -> grows (bind m k).
Proof.
  intros Hm Hk st o st' H. unfold bind in H.
  destruct (m st) as [[x|e|] st1] eqn:E; destruct (Hm _ _ _ E) as (es1 & E1).
  - destruct (Hk x _ _ _ H) as (es2 & E2).
    exists (es1 ++ es2). rewrite E2, E1, app_assoc. reflexivity.
  - injection H as <- <-. exists es1. assumption.
  - injection H as <- <-. exists es1. assumption.
Qed.

Lemma grows_try_catch {A} (m : M A) (h : exn -> M A) :
  grows m -> (forall e, grows (h e)) -> grows (try_catch m h).
Proof.
  intros Hm Hh st o st' H. unfold try_catch in H.
  destruct (m st) as [[x|e|] st1] eqn:E; destruct (Hm _ _ _ E) as (es1 & E1).
  - injection H as <- <-. exists es1. assumption.
  - destruct (Hh e _ _ _ H) as (es2 & E2).
    exists (es1 ++ es2). rewrite E2, E1, app_assoc. reflexivity.
  - injection H as <- <-. exists es1. assumption.
Qed.

Lemma grows_request {A} (e : event) (o : outcome A) : grows (request e o).
Proof.
  unfold request. apply grows_bind; [apply grows_emit|].
  intros _. apply (grows_settle o).
Qed.

Lemma bind_first {A B} (m : M A) (k : A -> M B) (e : event) :
  (forall st o st1, m st = (o, st1) -> exists es, events st1 = events st ++ e :: es) ->
  (forall x, grows (k x)) ->
  forall st o st', bind m k st = (o, st') ->
                   exists es, events st' = events st ++ e :: es.
Proof.
  intros Hm Hk st o st' H. unfold bind in H.
  destruct (m st) as [[x|e'|] st1] eqn:E; destruct (Hm _ _ _ E) as (es1 & E1).
  - destruct (Hk x _ _ _ H) as (es2 & E2).
    exists (es1 ++ es2). rewrite E2, E1, <- app_assoc. reflexivity.
  - injection H as <- <-. exists es1. assumption.
  - injection H as <- <-. exists es1. assumption.
Qed.

End Grows.

Ltac grows_step :=
  first
    [ apply grows_ret | apply grows_throw | apply grows_pending
    | apply grows_settle | apply grows_emit | apply grows_request
    | apply grows_get_files | apply grows_set_file
    | apply grows_bind | apply grows_try_catch
    | match goal with
      | |- forall _, _ => intro
      | |- grows (match ?x with _ => _ end) => destruct x
      end ].

Ltac grows_auto := repeat grows_step.

Section GrowsProgram.

Variable w : World.

Lemma grows_stat (path : string) : grows (fs.stat_isFile w path).
Proof. unfold fs.stat_isFile, fs.faulty, console_log. grows_auto. Qed.

Lemma grows_readFile (path : string) : grows (fs.readFile w path).
Proof. unfold fs.readFile, fs.faulty. grows_auto. Qed.

Lemma grows_writeFile (path : string) (data : list byte) :
  grows (fs.writeFile w path data).
Proof. unfold fs.writeFile, fs.faulty. grows_auto. Qed.

Lemma grows_tryGet (ignoreCache : bool) (statePath : string) :
  grows (tryGet w ignoreCache statePath).
Proof.
  unfold tryGet. destruct ignoreCache; simpl; [apply grows_ret|].
  apply grows_bind.
  - apply grows_try_catch; [apply grows_stat|]. grows_auto.
  - intros []; [|apply grows_ret].
    apply grows_bind; [apply grows_readFile|]. grows_auto.
Qed.

Lemma grows_search (fuel : nat) (a : Address) :
  forall c, grows (searchFreezeTransaction w fuel a c).
Proof.
  induction fuel as [|fuel IH]; intros c; simpl; [apply grows_pending|].
  apply grows_bind; [apply grows_request|].
  intros b. destruct (scan (transactions b)); grows_auto. apply IH.
Qed.

Lemma grows_applyState (fuel : nat) (a : Address) : grows (applyState w fuel a).
Proof.
  unfold applyState, locate, reconstruct, console_log.
  apply grows_bind; [apply grows_emit|]. intros _.
  apply grows_bind.
  - apply grows_bind; [apply grows_search|]. grows_auto.
  - grows_auto.
Qed.

Lemma grows_put (statePath state : string) : grows (put w statePath state).
Proof. unfold put. apply grows_writeFile. Qed.

Lemma estimate_first (timestamp : Z) (a : Address) (st : State)
    (o : outcome string) (st' : State) :
  estimate w timestamp a st = (o, st') ->
  exists es, events st' = events st ++ GetFullContractState a :: es.
Proof.
  unfold estimate.
  apply (bind_first _ _ (GetFullContractState a)).
  - intros st0 o0 st1 H. rewrite request_eq in H. injection H as <- <-.
    exists []. reflexivity.
  - unfold console_log. grows_auto.
Qed.

Lemma grows_prepareAccount (fuel : nat) (ignoreCache : bool) (timestamp : Z)
    (statePath : string) (a : Address) :
  grows (prepareAccount w fuel ignoreCache timestamp statePath a).
Proof.
  unfold prepareAccount.
  apply grows_bind.
  - intros st o st' H. apply estimate_first in H. destruct H as (es & E).
    exists (GetFullContractState a :: es). assumption.
  - intros d. apply grows_bind; [apply grows_tryGet|].
    intros [data|].
    + unfold console_log. grows_auto.
    + apply grows_bind; [apply grows_applyState|]. intros s.
      apply grows_bind; [apply grows_put|]. unfold console_log. grows_auto.
Qed.

End GrowsProgram.

(** ** The order of the stages *)

(** Appends brought to one shape: nested to the right, conses pulled out. *)
Ltac list_norm := repeat (progress (cbn [Datatypes.app]; rewrite <- ?app_assoc)).

Lemma stages_requests (a : Address) (cs : list (option TransactionId)) :
  stages (map (GetTransactions a) cs) = replicate (length cs) FreezePointLocator.
Proof. induction cs as [|c cs IH]; [reflexivity|]. simpl. f_equal. exact IH. Qed.

Lemma stages_app (es1 es2 : list event) :
  stages (es1 ++ es2) = stages es1 ++ stages es2.
Proof. apply omap_app. Qed.

(** What each stage leaves behind, whatever its outcome. *)
Section StagesOfEveryOutcome.

Variable w : World.

Ltac settled H :=
  injection H as <- <-; rewrite ?record_record, ?events_record;
  eexists; split; [reflexivity|].

Lemma estimate_stages (timestamp : Z) (a : Address) (st : State)
    (o : outcome string) (st' : State) :
  estimate w timestamp a st = (o, st') ->
  exists es,
    events st' = events st ++ es /\
    (stages es = [StorageDebtEstimator; StorageDebtEstimator] \/
     stages es = [StorageDebtEstimator] /\ forall d, o <> Ret d).
Proof.
  intros H. unfold estimate, bind in H. rewrite request_eq in H.
  destruct (getFullContractState w a) as [[accountState|]|e|];
    [| settled H; right; split; [reflexivity | discriminate]..].
  rewrite request_eq in H.
  destruct (computeStorageFee w accountState _ timestamp) as [account|e|];
    [| settled H; left; reflexivity..].
  destruct (negb (is_frozen (accountStatus account))
            && negb (is_nonexist (accountStatus account)));
    [settled H; left; reflexivity|].
  rewrite console_log_eq in H. settled H. left. reflexivity.
Qed.

Lemma tryGet_stages (ignoreCache : bool) (statePath : string) (st : State)
    (o : outcome (option string)) (st' : State) :
  tryGet w ignoreCache statePath st = (o, st') ->
  exists es,
    events st' = events st ++ es /\
    match o with
    | Ret (Some _) =>
        ignoreCache = false /\ stages es = [StateCacheLookup; StateCacheLookup]
    | Ret None => stages es = if ignoreCache then [] else [StateCacheLookup]
    | _ =>
        ignoreCache = false /\
        (stages es = [StateCacheLookup] \/
         stages es = [StateCacheLookup; StateCacheLookup])
    end.
Proof.
  destruct ignoreCache.
  - intros H. injection H as <- <-. exists []. rewrite app_nil_r. auto.
  - unfold tryGet, try_catch, fs.stat_isFile, fs.readFile, fs.faulty, bind,
      emit, get_files, ret, throw.
    simpl. intros H.
    repeat (case_step H);
      injection H as <- <-; cbn [events];
      eexists; (split; [rewrite <- ?app_assoc; reflexivity|]); cbn; auto.
Qed.

Lemma reconstruct_stages (a : Address) (l : string) (st : State)
    (o : outcome string) (st' : State) :
  reconstruct w a l st = (o, st') ->
  exists es,
    events st' = events st ++ es /\
    (stages es = [StateReconstructor; StateReconstructor] \/
     stages es = [StateReconstructor] /\ forall s, o <> Ret s).
Proof.
  intros H. unfold reconstruct, bind in H. rewrite request_eq in H.
  destruct (fetch w _ _) as [res|e|];
    [| settled H; right; split; [reflexivity | discriminate]..].
  destruct (ok res); unfold settle in H.
  - destruct (res_json res) as [j|e|];
      [| settled H; right; split; [reflexivity | discriminate]..].
    destruct j as [| | | | |fields]; unfold throw, ret in H;
      try (settled H; right; split; [reflexivity | discriminate]);
      rewrite request_eq in H;
      (destruct (parseFullAccountStateInit w _) as [[s'|]|e|]);
      settled H; left; reflexivity.
  - destruct (res_text res); settled H; right; split;
      first [reflexivity | discriminate].
Qed.

Lemma applyState_stages (fuel : nat) (a : Address) (st : State)
    (o : outcome string) (st' : State) :
  applyState w fuel a st = (o, st') ->
  exists es n tail,
    events st' = events st ++ es /\
    n <= fuel /\
    stages es = replicate n FreezePointLocator ++ tail /\
    (tail = [StateReconstructor; StateReconstructor] \/
     (forall s, o <> Ret s) /\ (tail = [] \/ tail = [StateReconstructor])).
Proof.
  intros H. unfold applyState, locate, bind in H. rewrite console_log_eq in H.
  destruct (searchFreezeTransaction w fuel a None _) as [o1 st1] eqn:Hs.
  destruct (search_requests _ _ _ _ _ _ _ Hs) as (cs & -> & Hl & _).
  assert (Hcs : stages ([ConsoleLog "  searching for freeze transaction"]
                        ++ map (GetTransactions a) cs)
                = replicate (length cs) FreezePointLocator ++ []).
  { rewrite stages_app, stages_requests, app_nil_r. reflexivity. }
  destruct o1 as [[l|]|e|];
    try (injection H as <- <-; rewrite ?record_record, events_record;
         exists ([ConsoleLog "  searching for freeze transaction"]
                 ++ map (GetTransactions a) cs), (length cs), [];
         split; [reflexivity|]; split; [exact Hl|]; split; [exact Hcs|];
         right; split; [discriminate | left; reflexivity]).
  unfold ret in H. rewrite console_log_eq in H.
  destruct (reconstruct w a l _) as [o2 st2] eqn:Hr.
  destruct (reconstruct_stages _ _ _ _ _ Hr) as (es2 & E2 & Hst).
  assert (Ho : o2 = o /\ st2 = st').
  { destruct o2; injection H as <- <-; auto. }
  destruct Ho as [-> ->]. clear H.
  rewrite !record_record, events_record in E2.
  exists (([ConsoleLog "  searching for freeze transaction"]
           ++ map (GetTransactions a) cs
           ++ [ConsoleLog ("  applying state at logical time " +:+ l)]) ++ es2),
    (length cs), (stages es2).
  split; [rewrite E2; list_norm; reflexivity|]. split; [exact Hl|]. split.
  - rewrite !stages_app, stages_requests. list_norm. reflexivity.
  - destruct Hst as [-> | [-> Hno]]; [left; reflexivity|].
    right. split; [exact Hno | right; reflexivity].
Qed.

Lemma put_events (statePath state : string) (st : State)
    (o : outcome unit) (st' : State) :
  put w statePath state st = (o, st') ->
  events st' = events st ++ [FsWriteFile statePath (Base64.decode state)].
Proof.
  unfold put, fs.writeFile, fs.faulty, bind. rewrite emit_eq.
  destruct (fs_fault w OpWriteFile statePath);
    [intros H; injection H as _ <-; reflexivity|].
  unfold get_files, set_file, throw. cbn [files record].
  destruct (files st !! statePath) as [[data|]|];
    intros H; injection H as _ <-; reflexivity.
Qed.

End StagesOfEveryOutcome.

(** C9, as stated, fails: for the account [Demo.A], whose state is not in
    the cache, the first stage is the storage debt estimate, not the
    cache lookup, and the estimate comes before the freeze transaction is
    searched for and before the state is reconstructed. *)
Lemma cache_lookup_is_not_the_first_stage :
  stages (events (snd (prepareAccount Demo.world 2 false Demo.timestamp
                         (Demo.statePath Demo.A) Demo.A Demo.st0)))
  = [ StorageDebtEstimator; StorageDebtEstimator; StateCacheLookup;
      FreezePointLocator; FreezePointLocator;
      StateReconstructor; StateReconstructor; StateCacheStore ] /\
  head (stages (events (snd (prepareAccount Demo.world 2 false Demo.timestamp
                               (Demo.statePath Demo.A) Demo.A Demo.st0))))
  <> Some StateCacheLookup.
Proof. split; [vm_compute; reflexivity | vm_compute; discriminate]. Qed.

(** C9, amended: for every account the stages run in the order storage
    debt estimate, cache lookup (left out when the cache is ignored),
    then, when the cache has no state, search for the freeze transaction,
    reconstruction of the state, cache store.  The debt estimate is the
    first stage whatever the outcome, and it precedes the cache lookup
    and the reconstruction.  An account whose preparation returns went
    through the whole sequence; for an account whose preparation fails or
    does not end, the stages that ran are a beginning of such a
    sequence: a stage is never reached before the earlier ones. *)
Theorem stage_order (w : World) (fuel : nat) (ignoreCache : bool)
    (timestamp : Z) (statePath : string) (a : Address) (st : State) :
  (forall o st',
      prepareAccount w fuel ignoreCache timestamp statePath a st = (o, st') ->
      exists es, events st' = events st ++ es /\
                 head (stages es) = Some StorageDebtEstimator) /\
  (forall o st',
      prepareAccount w fuel ignoreCache timestamp statePath a st = (o, st') ->
      exists es n rest,
        events st' = events st ++ es /\
        n <= fuel /\
        (ignoreCache = false /\
         stages es ++ rest = [ StorageDebtEstimator; StorageDebtEstimator;
                               StateCacheLookup; StateCacheLookup ] \/
         stages es ++ rest
         = [StorageDebtEstimator; StorageDebtEstimator]
           ++ (if ignoreCache then [] else [StateCacheLookup])
           ++ replicate n FreezePointLocator
           ++ [StateReconstructor; StateReconstructor; StateCacheStore])) /\
  (forall item st',
      prepareAccount w fuel ignoreCache timestamp statePath a st = (Ret item, st') ->
      exists es,
        events st' = events st ++ es /\
        (stages es = [ StorageDebtEstimator; StorageDebtEstimator;
                       StateCacheLookup; StateCacheLookup ] \/
         exists n,
           1 <= n <= fuel /\
           stages es = [StorageDebtEstimator; StorageDebtEstimator]
                       ++ (if ignoreCache then [] else [StateCacheLookup])
                       ++ replicate n FreezePointLocator
                       ++ [StateReconstructor; StateReconstructor; StateCacheStore])).
Proof.
  split; [|split].
  - intros o st' H.
    assert (Hf : exists es, events st' = events st ++ GetFullContractState a :: es).
    { revert H. unfold prepareAccount.
      apply (bind_first _ _ (GetFullContractState a)).
      - intros st0 o0 st1. apply estimate_first.
      - intros d. apply grows_bind; [apply grows_tryGet|].
        intros [data|].
        + unfold console_log. grows_auto.
        + apply grows_bind; [apply grows_applyState|]. intros s.
          apply grows_bind; [apply grows_put|]. unfold console_log. grows_auto. }
    destruct Hf as (es & E). exists (GetFullContractState a :: es).
    split; [assumption | reflexivity].
  - intros o st' H. unfold prepareAccount, bind in H.
    destruct (estimate w timestamp a st) as [o1 st1] eqn:He.
    destruct (estimate_stages _ _ _ _ _ _ He) as (es1 & E1 & Hs1).
    destruct o1 as [d|e|];
      try (injection H as <- <-; destruct Hs1 as [Hs1 | [Hs1 _]];
           [exists es1, 0, ((if ignoreCache then [] else [StateCacheLookup])
                            ++ [StateReconstructor; StateReconstructor;
                                StateCacheStore])
           |exists es1, 0, (StorageDebtEstimator
                            :: (if ignoreCache then [] else [StateCacheLookup])
                            ++ [StateReconstructor; StateReconstructor;
                                StateCacheStore])];
           (split; [exact E1|]); (split; [lia|]); right; rewrite Hs1;
           destruct ignoreCache; reflexivity).
    destruct Hs1 as [Hs1 | [_ Hno]]; [|exfalso; apply (Hno d); reflexivity].
    destruct (tryGet w ignoreCache statePath st1) as [o2 st2] eqn:Ht.
    destruct (tryGet_stages _ _ _ _ _ _ Ht) as (es2 & E2 & Hs2).
    destruct o2 as [[data|]|e|].
    + rewrite console_log_eq in H. injection H as <- <-.
      destruct Hs2 as [Hic Hs2].
      exists (es1 ++ es2 ++ [ConsoleLog "  using cached state"]), 0, [].
      split; [rewrite events_record, E2, E1; list_norm; reflexivity|].
      split; [lia|]. left. split; [exact Hic|].
      rewrite app_nil_r, !stages_app, Hs1, Hs2. reflexivity.
    + destruct (applyState w fuel a st2) as [o3 st3] eqn:Ha.
      destruct (applyState_stages _ _ _ _ _ _ Ha)
        as (es3 & n & tail & E3 & Hn & Hs3 & Htail).
      destruct o3 as [s|e|].
      * destruct Htail as [-> | [Hno _]]; [|exfalso; apply (Hno s); reflexivity].
        destruct (put w statePath s st3) as [o4 st4] eqn:Hp.
        pose proof (put_events _ _ _ _ _ _ Hp) as E4.
        exists (es1 ++ es2 ++ es3
                ++ FsWriteFile statePath (Base64.decode s)
                   :: match o4 with
                      | Ret _ => [ConsoleLog "  updated cached state"]
                      | _ => []
                      end), n, [].
        split; [|split; [exact Hn|]].
        -- destruct o4 as [[]|e|];
             [rewrite console_log_eq in H|..]; injection H as <- <-;
             rewrite ?events_record, E4, E3, E2, E1; list_norm; reflexivity.
        -- right. rewrite app_nil_r, !stages_app, Hs1, Hs2, Hs3.
           destruct o4 as [[]|e|]; list_norm; reflexivity.
      * injection H as <- <-.
        destruct Htail as [-> | [_ [-> | ->]]];
          [exists (es1 ++ es2 ++ es3), n, [StateCacheStore]
          |exists (es1 ++ es2 ++ es3), n,
             [StateReconstructor; StateReconstructor; StateCacheStore]
          |exists (es1 ++ es2 ++ es3), n, [StateReconstructor; StateCacheStore]];
          (split; [rewrite E3, E2, E1; list_norm; reflexivity|]);
          (split; [exact Hn|]); right;
          rewrite !stages_app, Hs1, Hs2, Hs3; list_norm; reflexivity.
      * injection H as <- <-.
        destruct Htail as [-> | [_ [-> | ->]]];
          [exists (es1 ++ es2 ++ es3), n, [StateCacheStore]
          |exists (es1 ++ es2 ++ es3), n,
             [StateReconstructor; StateReconstructor; StateCacheStore]
          |exists (es1 ++ es2 ++ es3), n, [StateReconstructor; StateCacheStore]];
          (split; [rewrite E3, E2, E1; list_norm; reflexivity|]);
          (split; [exact Hn|]); right;
          rewrite !stages_app, Hs1, Hs2, Hs3; list_norm; reflexivity.
    + injection H as <- <-. destruct Hs2 as [Hic [Hs2 | Hs2]].
      * exists (es1 ++ es2), 0,
          [StateReconstructor; StateReconstructor; StateCacheStore].
        split; [rewrite E2, E1; list_norm; reflexivity|]. split; [lia|].
        right. rewrite !stages_app, Hs1, Hs2, Hic. reflexivity.
      * exists (es1 ++ es2), 0, [].
        split; [rewrite E2, E1; list_norm; reflexivity|]. split; [lia|].
        left. split; [exact Hic|].
        rewrite !stages_app, Hs1, Hs2. reflexivity.
    + injection H as <- <-. destruct Hs2 as [Hic [Hs2 | Hs2]].
      * exists (es1 ++ es2), 0,
          [StateReconstructor; StateReconstructor; StateCacheStore].
        split; [rewrite E2, E1; list_norm; reflexivity|]. split; [lia|].
        right. rewrite !stages_app, Hs1, Hs2, Hic. reflexivity.
      * exists (es1 ++ es2), 0, [].
        split; [rewrite E2, E1; list_norm; reflexivity|]. split; [lia|].
        left. split; [exact Hic|].
        rewrite !stages_app, Hs1, Hs2. reflexivity.
  - intros item st' H.
    unfold prepareAccount, bind in H.
    destruct (estimate w timestamp a st) as [[d|e|] st1] eqn:He; try discriminate H.
    apply estimate_returns in He.
    destruct He as (accountState & account & _ & _ & _ & _ & ->).
    set (masterchain := Str.startsWith "-1" (toString a)) in *.
    clearbody masterchain.
    destruct (tryGet w ignoreCache statePath _) as [[cached|e|] st2] eqn:Ht;
      try discriminate H.
    assert (E2 : exists es2,
               st2 = record es2
                       (record [ GetFullContractState a;
                                 ComputeStorageFee accountState masterchain timestamp;
                                 ConsoleLog ("  storage fee debt: " +:+ d) ] st) /\
               stages es2 = match cached with
                            | Some _ => [StateCacheLookup; StateCacheLookup]
                            | None => if ignoreCache then [] else [StateCacheLookup]
                            end /\
               (ignoreCache = true -> cached = None)).
    { destruct ignoreCache.
      - simpl in Ht. injection Ht as <- <-. exists []. rewrite record_nil. auto.
      - apply tryGet_returns in Ht. destruct cached; subst st2; eexists;
          (split; [reflexivity|split; [reflexivity|discriminate]]). }
    destruct E2 as (es2 & -> & Hs2 & Hic).
    destruct cached as [data|].
    + rewrite console_log_eq in H. unfold ret in H. injection H as <- <-.
      exists ([ GetFullContractState a;
                ComputeStorageFee accountState masterchain timestamp;
                ConsoleLog ("  storage fee debt: " +:+ d) ]
              ++ es2 ++ [ConsoleLog "  using cached state"]).
      split; [unfold record; cbn [events]; list_norm; reflexivity|].
      left. rewrite !stages_app, Hs2. reflexivity.
    + destruct (applyState w fuel a _) as [[s|e|] st3] eqn:Ha; try discriminate H.
      apply applyState_returns in Ha.
      destruct Ha as (cs & l & fullState & Hne & Hlen & ->).
      destruct (put w statePath s _) as [[[]|e|] st4] eqn:Hp; try discriminate H.
      apply put_stores in Hp. subst st4.
      rewrite console_log_eq in H. unfold ret in H. injection H as <- <-.
      exists ([ GetFullContractState a;
                ComputeStorageFee accountState masterchain timestamp;
                ConsoleLog ("  storage fee debt: " +:+ d) ]
              ++ es2
              ++ ([ConsoleLog "  searching for freeze transaction"]
                  ++ map (GetTransactions a) cs
                  ++ [ ConsoleLog ("  applying state at logical time " +:+ l);
                       Fetch (STATES_API_URL +:+ "/apply") (apply_body a l);
                       ParseFullAccountStateInit fullState ])
              ++ [ FsWriteFile statePath (Base64.decode s);
                   ConsoleLog "  updated cached state" ]).
      split.
      * unfold record. cbn [events]. list_norm. reflexivity.
      * right. exists (length cs). split.
        -- destruct cs; [contradiction|simpl in *; lia].
        -- rewrite !stages_app, stages_requests, Hs2.
           list_norm. reflexivity.
Qed.

Lemma stage_order_witness :
  exists es,
    events (snd (prepareAccount Demo.world 2 false Demo.timestamp
                   (Demo.statePath Demo.A) Demo.A Demo.st0))
    = events Demo.st0 ++ es /\
    (stages es = [ StorageDebtEstimator; StorageDebtEstimator;
                   StateCacheLookup; StateCacheLookup ] \/
     exists n,
       1 <= n <= 2 /\
       stages es = [StorageDebtEstimator; StorageDebtEstimator]
                   ++ [StateCacheLookup]
                   ++ replicate n FreezePointLocator
                   ++ [StateReconstructor; StateReconstructor; StateCacheStore]).
Proof.
  apply (proj2 (proj2 (stage_order Demo.world 2 false Demo.timestamp
                         (Demo.statePath Demo.A) Demo.A Demo.st0))
           (mkFrozenAccount Demo.A "QUJD" "5")).
  vm_compute. reflexivity.
Defined.

(** ** [BigInt] reads back what [toString] prints *)

Section BigIntFacts.

Import Decimal.

Lemma trimEnd_digits (d : uint) :
  Str.trimEnd (NilEmpty.string_of_uint d) = NilEmpty.string_of_uint d.
Proof.
  induction d as [|d IH|d IH|d IH|d IH|d IH|d IH|d IH|d IH|d IH|d IH];
    [reflexivity|..];
    cbn [NilEmpty.string_of_uint Str.trimEnd]; rewrite IH;
    destruct (NilEmpty.string_of_uint d); reflexivity.
Qed.

Lemma trimStart_digits (d : uint) :
  Str.trimStart (NilEmpty.string_of_uint d) = NilEmpty.string_of_uint d.
Proof. destruct d; reflexivity. Qed.

Lemma parse_digits (d : uint) :
  d <> Nil ->
  BigIntM.parse (NilEmpty.string_of_uint d) = Some (Z.of_N (N.of_uint d)).
Proof.
  intros Hd. unfold BigIntM.parse, Str.trim.
  rewrite trimStart_digits, trimEnd_digits.
  assert (Hdec : BigIntM.decimal (NilEmpty.string_of_uint d)
                 = Some (Z.of_N (N.of_uint d))).
  { unfold BigIntM.decimal. rewrite NilEmpty.usu.
    destruct d; [contradiction|reflexivity..]. }
  rewrite <- Hdec.
  destruct d as [|d|d|d|d|d|d|d|d|d|d]; [contradiction|..]; try reflexivity.
  destruct d; reflexivity.
Qed.

Lemma parse_of_Z (z : Z) : (0 <= z)%Z -> BigIntM.parse (Str.of_Z z) = Some z.
Proof.
  intros Hz. unfold Str.of_Z.
  destruct z as [|p|p]; [reflexivity| |lia].
  cbn [Z.to_int NilZero.string_of_int].
  pose proof (DecimalPos.Unsigned.to_uint_nonnil p) as Hn.
  assert (E : NilZero.string_of_uint (Pos.to_uint p)
              = NilEmpty.string_of_uint (Pos.to_uint p))
    by (destruct (Pos.to_uint p); [contradiction|reflexivity..]).
  rewrite E, parse_digits by assumption.
  unfold N.of_uint. rewrite DecimalPos.Unsigned.of_to. reflexivity.
Qed.

Lemma BigInt_of_Z (z : Z) (st : State) :
  (0 <= z)%Z -> BigInt (Str.of_Z z) st = (Ret z, st).
Proof. intros Hz. unfold BigInt. rewrite parse_of_Z by assumption. reflexivity. Qed.

End BigIntFacts.

(** C6: for a storage fee debt [d] and a target balance [t] that are
    non-negative integers, the amount of the redeploy is exactly
    [d + t + 100000000], the fixed fee being [100000000]; it is greater
    than [t], also for [d = 0]; and it is the amount, printed in decimal,
    of the message that is sent. *)
Theorem funding_amount_is_debt_plus_target_plus_fee (w : World)
    (microwaveAddress giverAddress : Address) (item : FrozenAccount)
    (d t : Z) (st : State) :
  (0 <= d)%Z -> (0 <= t)%Z ->
  storageFeeDebt item = Str.of_Z d ->
  TX_FEE = 100000000%Z /\
  funding_amount (storageFeeDebt item) (Str.of_Z t) st
  = (Ret (d + t + 100000000)%Z, st) /\
  (t < d + t + 100000000)%Z /\
  exists es,
    events (snd (unfreezeAccount w microwaveAddress giverAddress (Str.of_Z t) item st))
    = events st
      ++ [ ConsoleLog ("Unfreezing account " +:+ toString (address item));
           Send (deploy_request microwaveAddress giverAddress item
                   (d + t + 100000000)) ]
      ++ es /\
    amount (deploy_request microwaveAddress giverAddress item (d + t + 100000000))
    = Str.of_Z (d + t + 100000000).
Proof.
  intros Hd Ht Hdebt.
  assert (Hf : funding_amount (storageFeeDebt item) (Str.of_Z t) st
               = (Ret (d + t + 100000000)%Z, st)).
  { unfold funding_amount, bind. rewrite Hdebt.
    rewrite !BigInt_of_Z by assumption. reflexivity. }
  split; [reflexivity|]. split; [exact Hf|]. split; [lia|].
  unfold unfreezeAccount, bind. rewrite Hf, console_log_eq.
  unfold get_accounts. rewrite request_eq.
  destruct (send w _ _) as [tx|e|].
  - rewrite console_log_eq, request_eq.
    destruct (trace_finished w tx) as [[]|e|].
    + rewrite console_log_eq. eexists. split; [|reflexivity].
      unfold record. cbn [snd events accountsStorage]. list_norm. reflexivity.
    + eexists. split; [|reflexivity].
      unfold record. cbn [snd events accountsStorage]. list_norm. reflexivity.
    + eexists. split; [|reflexivity].
      unfold record. cbn [snd events accountsStorage]. list_norm. reflexivity.
  - exists []. split; [|reflexivity].
    unfold record. cbn [snd events accountsStorage]. list_norm. reflexivity.
  - exists []. split; [|reflexivity].
    unfold record. cbn [snd events accountsStorage]. list_norm. reflexivity.
Qed.

Lemma funding_amount_is_debt_plus_target_plus_fee_witness :
  funding_amount "0" "1000000000" Demo.st0 = (Ret 1100000000%Z, Demo.st0) /\
  (1000000000 < 1100000000)%Z.
Proof.
  pose proof (funding_amount_is_debt_plus_target_plus_fee Demo.world
                (mkAddress "0:microwave") Demo.giverAddress
                (mkFrozenAccount Demo.X "QUJD" "0") 0 1000000000 Demo.st0
                ltac:(discriminate) ltac:(discriminate) eq_refl)
    as (_ & Hf & Hlt & _).
  split; [exact Hf | exact Hlt].
Defined.

(** ** The giver *)

(** C7: [guessGiverAccount] builds a wallet exactly for the four code
    fingerprints it knows, and for the address it was asked about; every
    other fingerprint, the empty string and any other string of 64
    hexadecimal digits among them, ends in the error "Unknown contract";
    a giver without any state ends in "Giver account not found", a state
    without code fingerprint in "Giver account is uninit". *)
Theorem guessGiverAccount_fails_closed (w : World) (a : Address)
    (publicKey : string) (st : State) :
  (getFullContractState w a = Ret None ->
   fst (guessGiverAccount w a publicKey st)
   = Throw (Error "Giver account not found" None)) /\
  (forall s,
      getFullContractState w a = Ret (Some s) -> codeHash s = None ->
      fst (guessGiverAccount w a publicKey st)
      = Throw (Error "Giver account is uninit" None)) /\
  (forall s h,
      getFullContractState w a = Ret (Some s) -> codeHash s = Some h ->
      (In h recognized ->
       exists account,
         fst (guessGiverAccount w a publicKey st) = Ret account /\
         account_address account = a) /\
      (~ In h recognized ->
       fst (guessGiverAccount w a publicKey st)
       = Throw (Error "Unknown contract" None))) /\
  ~ In "" recognized /\
  length recognized = 4.
Proof.
  split; [|split; [|split; [|split]]].
  - intros H. unfold guessGiverAccount, bind. rewrite request_eq, H. reflexivity.
  - intros s H Hc. unfold guessGiverAccount, bind. rewrite request_eq, H, Hc.
    reflexivity.
  - intros s h H Hc. unfold guessGiverAccount, bind.
    rewrite request_eq, H, Hc. split.
    + intros Hin. unfold recognized in Hin. simpl in Hin.
      destruct Hin as [<- | [<- | [<- | [<- | []]]]];
        eexists; (split; [reflexivity|reflexivity]).
    + intros Hnot.
      repeat match goal with
             | |- context [String.eqb h ?k] =>
                 destruct (String.eqb_spec h k) as [E|_];
                 [exfalso; apply Hnot; rewrite E; unfold recognized; simpl; tauto|]
             end.
      reflexivity.
  - unfold recognized. simpl. intros [H|[H|[H|[H|[]]]]]; discriminate H.
  - reflexivity.
Qed.

Lemma guessGiverAccount_fails_closed_witness :
  fst (guessGiverAccount Demo.world Demo.Nowhere "pub" Demo.st0)
  = Throw (Error "Giver account not found" None) /\
  fst (guessGiverAccount Demo.world Demo.A "pub" Demo.st0)
  = Throw (Error "Giver account is uninit" None) /\
  (exists account,
      fst (guessGiverAccount Demo.world Demo.giverAddress "pub" Demo.st0) = Ret account /\
      account_address account = Demo.giverAddress) /\
  fst (guessGiverAccount Demo.world Demo.Unknown "pub" Demo.st0)
  = Throw (Error "Unknown contract" None).
Proof.
  split; [|split; [|split]].
  - apply (proj1 (guessGiverAccount_fails_closed Demo.world Demo.Nowhere "pub"
                    Demo.st0)).
    reflexivity.
  - apply (proj1 (proj2 (guessGiverAccount_fails_closed Demo.world Demo.A "pub"
                           Demo.st0))
             (mkContractState (toString Demo.A) None)).
    + reflexivity.
    + reflexivity.
  - apply (proj1 (proj1 (proj2 (proj2 (guessGiverAccount_fails_closed Demo.world
                                         Demo.giverAddress "pub" Demo.st0)))
                    (mkContractState "giver" (Some Demo.WalletV3_hash))
                    Demo.WalletV3_hash eq_refl eq_refl)).
    left. reflexivity.
  - apply (proj2 (proj1 (proj2 (proj2 (guessGiverAccount_fails_closed Demo.world
                                         Demo.Unknown "pub" Demo.st0)))
                    (mkContractState "unknown" (Some (Demo.hex64 "0")))
                    (Demo.hex64 "0") eq_refl eq_refl)).
    unfold recognized. simpl.
    intros [H|[H|[H|[H|[]]]]]; discriminate H.
Defined.

(** ** Regular expressions: the derivative test decides the language *)

Section RegexFacts.

Import Regex.

Lemma append_nil_inv (s1 s2 : string) : s1 +:+ s2 = "" -> s1 = "" /\ s2 = "".
Proof. destruct s1; simpl; [auto|discriminate]. Qed.

Lemma append_cons_inv (c : ascii) (s s1 s2 : string) :
  s1 +:+ s2 = String c s ->
  (s1 = "" /\ s2 = String c s) \/
  (exists s1', s1 = String c s1' /\ s = s1' +:+ s2).
Proof.
  destruct s1 as [|c1 s1]; simpl; intros H.
  - left. auto.
  - injection H as -> <-. right. exists s1. auto.
Qed.

Lemma nullable_spec (r : regex) : nullable r = true <-> lang r "".
Proof.
  induction r as [| |p|r1 IH1 r2 IH2|r1 IH1 r2 IH2]; simpl.
  - split; [discriminate|contradiction].
  - split; reflexivity.
  - split; [discriminate|]. intros (c & H & _). discriminate H.
  - rewrite andb_true_iff, IH1, IH2. split.
    + intros [H1 H2]. exists "", "". auto.
    + intros (s1 & s2 & E & H1 & H2). symmetry in E.
      apply append_nil_inv in E. destruct E as [-> ->]. auto.
  - rewrite orb_true_iff, IH1, IH2. reflexivity.
Qed.

Lemma deriv_spec (r : regex) :
  forall c s, lang (deriv c r) s <-> lang r (String c s).
Proof.
  induction r as [| |p|r1 IH1 r2 IH2|r1 IH1 r2 IH2]; intros c s; simpl.
  - reflexivity.
  - split; [contradiction|discriminate].
  - destruct (p c) eqn:Hp; simpl; split.
    + intros ->. exists c. auto.
    + intros (c' & E & _). injection E as _ <-. reflexivity.
    + contradiction.
    + intros (c' & E & Hp'). injection E as <- _. congruence.
  - assert (Hseq : (exists s1 s2, s = s1 +:+ s2 /\ lang (deriv c r1) s1 /\ lang r2 s2)
                   <-> (exists s1 s2, String c s = String c s1 +:+ s2
                                      /\ lang r1 (String c s1) /\ lang r2 s2)).
    { split; intros (s1 & s2 & E & H1 & H2); exists s1, s2.
      - subst s. rewrite <- IH1. auto.
      - simpl in E. injection E as ->. rewrite IH1. auto. }
    destruct (nullable r1) eqn:Hn; simpl.
    + rewrite Hseq, IH2. split.
      * intros [(s1 & s2 & E & H1 & H2) | H2].
        -- exists (String c s1), s2. auto.
        -- exists "", (String c s). apply nullable_spec in Hn. auto.
      * intros (s1 & s2 & E & H1 & H2). symmetry in E.
        apply append_cons_inv in E.
        destruct E as [[-> ->] | (s1' & -> & ->)].
        -- right. assumption.
        -- left. exists s1', s2. auto.
    + rewrite Hseq. split.
      * intros (s1 & s2 & E & H1 & H2). exists (String c s1), s2. auto.
      * intros (s1 & s2 & E & H1 & H2). symmetry in E.
        apply append_cons_inv in E.
        destruct E as [[-> ->] | (s1' & -> & ->)].
        -- apply nullable_spec in H1. congruence.
        -- exists s1', s2. auto.
  - rewrite IH1, IH2. reflexivity.
Qed.

Lemma test_spec (s : string) : forall r, test r s = true <-> lang r s.
Proof.
  induction s as [|c s IH]; intros r; simpl.
  - apply nullable_spec.
  - rewrite IH. apply deriv_spec.
Qed.

Lemma lang_Lit (l s : string) : lang (Lit l) s <-> s = l.
Proof.
  revert s. induction l as [|c l IH]; intros s; simpl; [reflexivity|].
  split.
  - intros (s1 & s2 & -> & (c' & -> & Hc) & H2).
    apply Ascii.eqb_eq in Hc. subst c'. apply IH in H2. subst s2. reflexivity.
  - intros ->. exists (String c ""), l. repeat split.
    + exists c. split; [reflexivity|apply Ascii.eqb_refl].
    + apply IH. reflexivity.
Qed.

Lemma lang_Times_Class (p : ascii -> bool) (n : nat) (s : string) :
  lang (Times n (Class p)) s <->
  String.length s = n /\
  (forall c, In c (list_ascii_of_string s) -> p c = true).
Proof.
  revert s. induction n as [|n IH]; intros s; simpl.
  - split.
    + intros ->. split; [reflexivity|]. intros c [].
    + intros [H _]. destruct s; [reflexivity|discriminate].
  - split.
    + intros (s1 & s2 & -> & (c & -> & Hc) & H2).
      apply IH in H2. destruct H2 as [Hl Hall].
      change (String c "" +:+ s2) with (String c s2). simpl.
      split; [rewrite Hl; reflexivity|].
      intros c' [<- | Hin]; auto.
    + intros [Hl Hall]. destruct s as [|c s]; [discriminate|].
      simpl in Hl, Hall. exists (String c ""), s. repeat split.
      * exists c. auto.
      * apply IH. split; [injection Hl as Hl; exact Hl|]. auto.
Qed.

Lemma checkAddress_spec (s : string) : checkAddress s = true <-> address_shape s.
Proof.
  unfold checkAddress, addressRegex, address_shape.
  rewrite test_spec. cbn [lang].
  split.
  - intros (s1 & s2 & -> & H1 & s3 & s4 & -> & H3 & H4).
    apply lang_Lit in H3. subst s3.
    apply lang_Times_Class in H4. destruct H4 as [Hl Hall].
    exists s1, s4. repeat split; try assumption.
    destruct H1 as [H1 | H1]; apply lang_Lit in H1; auto.
  - intros (workchain & digits & -> & Hw & Hl & Hall).
    exists workchain, (":" +:+ digits). repeat split.
    + destruct Hw as [-> | ->]; [left|right]; apply lang_Lit; reflexivity.
    + exists ":", digits. repeat split.
      * apply lang_Lit. reflexivity.
      * apply lang_Times_Class. auto.
Qed.

End RegexFacts.

(** ** The command line *)

Lemma missing_empty (args : Args) :
  String.length (missing args) = 0 <->
  exists path giver sign,
    head (positional args) = Some path /\
    flags args !! "giver" = Some (FlagValue giver) /\
    flags args !! "sign" = Some (FlagValue sign).
Proof.
  unfold missing. split.
  - destruct (head (positional args)) as [path|];
      destruct (flags args !! "giver") as [[|giver]|];
      destruct (flags args !! "sign") as [[|sign]|];
      cbn; intros H; try discriminate H.
    exists path, giver, sign. auto.
  - intros (path & giver & sign & -> & -> & ->). reflexivity.
Qed.

Lemma parseSwitch_pure (args : Args) (name : string) (st : State)
    (o : outcome bool) (st' : State) :
  parseSwitch args name st = (o, st') -> st' = st.
Proof.
  unfold parseSwitch.
  destruct (flags args !! name) as [[|v]|]; [| |];
    try (intros H; injection H as _ <-; reflexivity).
  destruct (negb (String.eqb v "true") && negb (String.eqb v "false"));
    intros H; injection H as _ <-; reflexivity.
Qed.

Lemma parseSwitch_well_formed (args : Args) (name : string) (st : State) :
  switch_well_formed args name ->
  exists b, parseSwitch args name st = (Ret b, st).
Proof.
  intros Hw. unfold parseSwitch, switch_well_formed in *.
  destruct (flags args !! name) as [[|v]|];
    [eexists; reflexivity| |eexists; reflexivity].
  destruct (Hw v eq_refl) as [-> | ->]; eexists; reflexivity.
Qed.

(** C10, as stated, fails when the giver is not the only thing wrong
    with the command line: with a [--giver] of workchain 1 and neither a
    path nor [--sign], the fatal error is that of the check of the
    required options, which comes first, and not "Invalid giver
    address". *)
Lemma invalid_giver_alone_reports_the_missing_options :
  checkAddress Demo.bad_giver = false /\
  main Demo.world 2 ["--giver=" +:+ Demo.bad_giver] Demo.st0
  = (Some 1%Z,
     record [ConsoleLog ("Required options not provided:" +:+ separator +:+ "path"
                           +:+ separator +:+ "--sign")] Demo.st0).
Proof. split; vm_compute; reflexivity. Qed.

(** C10, amended: the giver address is checked against the pattern
    workchain [-1] or [0], a colon, 64 hexadecimal digits.  A [--giver]
    string that does not have this shape makes [app] fail while it parses
    its arguments, with the state untouched: no file was read, nothing
    was asked of the network, no account was looked at.  The error is
    "Invalid giver address" whenever the path and [--sign] are given and
    [--ignore-cache] is a proper switch, and the process exits with code
    1 after printing the message; otherwise the error is that of the
    earlier check: of the switch when [--ignore-cache] has a value other
    than [true] and [false], of the required options when the switch is
    in order and the path or [--sign] is missing. *)
Theorem invalid_giver_is_fatal_before_anything_else (w : World) (fuel : nat)
    (args : Args) (g : string) (st : State) :
  flags args !! "giver" = Some (FlagValue g) ->
  checkAddress g = false ->
  (forall s, checkAddress s = true <-> address_shape s) /\
  (exists e, app w fuel args st = (Throw e, st)) /\
  (head (positional args) <> None ->
   (exists s, flags args !! "sign" = Some (FlagValue s)) ->
   switch_well_formed args "ignore-cache" ->
   app w fuel args st = (Throw (Error "Invalid giver address" None), st) /\
   forall argv,
     getArgs argv = args ->
     flags args !! "h" = None -> flags args !! "help" = None ->
     main w fuel argv st
     = (Some 1%Z, record [ConsoleLog "Invalid giver address"] st)) /\
  (forall v,
      flags args !! "ignore-cache" = Some (FlagValue v) ->
      v <> "true" -> v <> "false" ->
      app w fuel args st
      = (Throw (Error "Expected a boolean value for `ignore-cache`" None), st)) /\
  (switch_well_formed args "ignore-cache" ->
   head (positional args) = None \/
   (forall s, flags args !! "sign" <> Some (FlagValue s)) ->
   app w fuel args st
   = (Throw (Error ("Required options not provided:" +:+ separator
                      +:+ missing args) None), st)).
Proof.
  intros Hg Hcheck.
  split; [exact checkAddress_spec|].
  assert (Hswitch : forall v,
             flags args !! "ignore-cache" = Some (FlagValue v) ->
             v <> "true" -> v <> "false" ->
             app w fuel args st
             = (Throw (Error "Expected a boolean value for `ignore-cache`" None),
                st)).
  { intros v Hv Ht Hf. unfold app, bind, parseArgs, bind, parseSwitch. rewrite Hv.
    destruct (String.eqb_spec v "true") as [->|_]; [contradiction|].
    destruct (String.eqb_spec v "false") as [->|_]; [contradiction|].
    reflexivity. }
  assert (Hmissing : switch_well_formed args "ignore-cache" ->
             head (positional args) = None \/
             (forall s, flags args !! "sign" <> Some (FlagValue s)) ->
             app w fuel args st
             = (Throw (Error ("Required options not provided:" +:+ separator
                                +:+ missing args) None), st)).
  { intros Hw Hm. unfold app, bind, parseArgs, bind.
    destruct (parseSwitch_well_formed args "ignore-cache" st Hw) as (b & ->).
    rewrite Hg.
    destruct (head (positional args)) as [pa|]; [|reflexivity].
    destruct Hm as [Hm | Hm]; [discriminate Hm|].
    destruct (flags args !! "sign") as [[|sg]|]; try reflexivity.
    exfalso. apply (Hm sg). reflexivity. }
  cut ((exists e, app w fuel args st = (Throw e, st)) /\
       (head (positional args) <> None ->
        (exists s, flags args !! "sign" = Some (FlagValue s)) ->
        switch_well_formed args "ignore-cache" ->
        app w fuel args st = (Throw (Error "Invalid giver address" None), st) /\
        forall argv,
          getArgs argv = args ->
          flags args !! "h" = None -> flags args !! "help" = None ->
          main w fuel argv st
          = (Some 1%Z, record [ConsoleLog "Invalid giver address"] st))).
  { intros [H1 H2]. exact (conj H1 (conj H2 (conj Hswitch Hmissing))). }
  assert (Hfatal : exists e, parseArgs args st = (Throw e, st)).
  { unfold parseArgs, bind.
    destruct (parseSwitch args "ignore-cache" st) as [o st1] eqn:Hs.
    pose proof (parseSwitch_pure _ _ _ _ _ Hs) as ->.
    destruct o as [b|e|].
    - rewrite Hg.
      destruct (head (positional args)); [|eexists; reflexivity].
      destruct (flags args !! "sign") as [[|sg]|]; try (eexists; reflexivity).
      rewrite Hcheck. eexists. reflexivity.
    - eexists. reflexivity.
    - exfalso. unfold parseSwitch in Hs.
      destruct (flags args !! "ignore-cache") as [[|v]|]; try discriminate Hs.
      destruct (negb (String.eqb v "true") && negb (String.eqb v "false"));
        discriminate Hs. }
  split.
  - destruct Hfatal as (e & He). exists e. unfold app, bind. rewrite He. reflexivity.
  - intros Hpath (s & Hsign) Hwell.
    assert (Happ : app w fuel args st
                   = (Throw (Error "Invalid giver address" None), st)).
    { unfold app, bind, parseArgs, bind.
      destruct (parseSwitch_well_formed args "ignore-cache" st Hwell) as (b & ->).
      rewrite Hg, Hsign.
      destruct (head (positional args)); [|contradiction].
      rewrite Hcheck. reflexivity. }
    split; [exact Happ|].
    intros argv <- Hh Hhelp. unfold main. rewrite Hh, Hhelp, Happ. reflexivity.
Qed.

Lemma invalid_giver_is_fatal_before_anything_else_witness :
  main Demo.world 2 Demo.bad_argv (initial (Demo.disk [Demo.A]))
  = (Some 1%Z,
     record [ConsoleLog "Invalid giver address"] (initial (Demo.disk [Demo.A]))).
Proof.
  pose proof (invalid_giver_is_fatal_before_anything_else
                Demo.world 2 (getArgs Demo.bad_argv) Demo.bad_giver
                (initial (Demo.disk [Demo.A]))) as H.
  destruct H as (_ & _ & H & _).
  - vm_compute. reflexivity.
  - vm_compute. reflexivity.
  - destruct H as (_ & H).
    + vm_compute. discriminate.
    + exists "keys.json". vm_compute. reflexivity.
    + intros v Hv. vm_compute in Hv. discriminate Hv.
    + apply (H Demo.bad_argv).
      * reflexivity.
      * vm_compute. reflexivity.
      * vm_compute. reflexivity.
Defined.

(** ** Failures of single accounts *)

(** C1, as stated, fails for the redeploy stage: with the accounts [X]
    and [A] in the list, both prepared, the giver cannot pay for [X]; the
    failure of that submission is not caught for the account but ends the
    run with exit code 1, and nothing is ever sent for [A], the next
    address in the list. *)
Lemma redeploy_failure_aborts_the_batch :
  let r := main Demo.world 2 Demo.argv (initial (Demo.disk [Demo.X; Demo.A])) in
  Demo.stored (events (snd r)) = [Demo.statePath Demo.X; Demo.statePath Demo.A] /\
  fst r = Some 1%Z /\
  Demo.sent_to (events (snd r)) = [Demo.X] /\
  last (events (snd r)) = Some (ConsoleLog "send failed").
Proof. vm_compute. repeat split. Qed.

(** A rejection with [undefined] is not isolated either: with the
    accounts [B] and [A] in the list and a provider that rejects the
    request for the state of [B] with [undefined], the catch clause of
    [prepareStates] fails on [e.message]; nothing is written to the error
    console, [A] is never looked at, and the run ends with exit code 1
    and the message of the [TypeError]. *)
Lemma undefined_rejection_ends_the_preparation :
  let r := main Scenario.rejecting_provider 2 Demo.argv
             (initial (Demo.disk [Demo.B; Demo.A])) in
  fst r = Some 1%Z /\
  errors (events (snd r)) = [] /\
  Demo.stored (events (snd r)) = [] /\
  last (events (snd r))
  = Some (ConsoleLog "Cannot read properties of undefined (reading 'message')").
Proof. vm_compute. repeat split. Qed.

Section Isolation.

Variable w : World.
Variable fuel : nat.
Variable ignoreCache : bool.
Variable cacheDirPath : string.
Variable timestamp : Z.
Variable total : nat.

Lemma unreadable_nullish (property : string) (e : exn) :
  nullish e ->
  exists typeError, unreadable property e = Some typeError.
Proof. intros [-> | ->]; eexists; reflexivity. Qed.

Lemma unreadable_not_nullish (property : string) (e : exn) :
  ~ nullish e -> unreadable property e = None.
Proof.
  unfold nullish. intros H.
  destruct e; try reflexivity; exfalso; apply H; auto.
Qed.

Lemma unreadable_inv (property : string) (e typeError : exn) :
  unreadable property e = Some typeError -> nullish e.
Proof. unfold nullish. destruct e; try discriminate; auto. Qed.

(** One turn of the loop. *)
Lemma prepareStates_loop_cons (current : nat) (result : list FrozenAccount)
    (a : Address) (rest : list Address) (st : State) :
  prepareStates_loop w fuel ignoreCache cacheDirPath timestamp total
    current result (a :: rest) st
  = match prepareAccount w fuel ignoreCache timestamp
            (path_join w cacheDirPath (toString a)) a
            (record [ConsoleLog (preparing_line (S current) total a)] st) with
    | (Ret item, st1) =>
        prepareStates_loop w fuel ignoreCache cacheDirPath timestamp total
          (S current) (result ++ [item]) rest st1
    | (Throw e, st1) =>
        match unreadable "message" e with
        | Some typeError => (Throw typeError, st1)
        | None =>
            prepareStates_loop w fuel ignoreCache cacheDirPath timestamp total
              (S current) result rest
              (record [ConsoleError ("  skipping: " +:+ exn_message e)] st1)
        end
    | (Pending, st1) => (Pending, st1)
    end.
Proof.
  cbn [prepareStates_loop]. unfold bind, try_catch, console_error.
  rewrite console_log_eq.
  destruct (prepareAccount w fuel ignoreCache timestamp _ a _) as [[item|e|] st1];
    try reflexivity.
  destruct (unreadable "message" e); reflexivity.
Qed.

(** The loop over a list in two parts. *)
Lemma prepareStates_loop_app (pre rest : list Address) :
  forall current result st,
    prepareStates_loop w fuel ignoreCache cacheDirPath timestamp total
      current result (pre ++ rest) st
    = match prepareStates_loop w fuel ignoreCache cacheDirPath timestamp total
              current result pre st with
      | (Ret result1, st1) =>
          prepareStates_loop w fuel ignoreCache cacheDirPath timestamp total
            (current + length pre) result1 rest st1
      | (Throw e, st1) => (Throw e, st1)
      | (Pending, st1) => (Pending, st1)
      end.
Proof.
  induction pre as [|a pre IH]; intros current result st.
  - cbn [Datatypes.app prepareStates_loop length]. unfold ret.
    rewrite Nat.add_0_r. reflexivity.
  - change ((a :: pre) ++ rest) with (a :: (pre ++ rest)).
    rewrite !prepareStates_loop_cons.
    cbn [length]. rewrite <- Nat.add_succ_comm.
    destruct (prepareAccount w fuel ignoreCache timestamp _ a _) as [[item|e|] st1];
      [apply IH | | reflexivity].
    destruct (unreadable "message" e); [reflexivity | apply IH].
Qed.

(** The loop ends in an exception only where the preparation of an
    account was rejected with [null] or [undefined]: then, and with the
    [TypeError] of the catch clause. *)
Lemma prepareStates_loop_throws (accounts : list Address) :
  forall current result st typeError st',
    prepareStates_loop w fuel ignoreCache cacheDirPath timestamp total
      current result accounts st = (Throw typeError, st') ->
    exists pre a rest result1 st1 e,
      accounts = pre ++ a :: rest /\
      prepareStates_loop w fuel ignoreCache cacheDirPath timestamp total
        current result pre st = (Ret result1, st1) /\
      prepareAccount w fuel ignoreCache timestamp
        (path_join w cacheDirPath (toString a)) a
        (record [ConsoleLog (preparing_line (S (current + length pre)) total a)] st1)
      = (Throw e, st') /\
      nullish e /\
      unreadable "message" e = Some typeError.
Proof.
  induction accounts as [|a rest IH]; intros current result st typeError st' H.
  - discriminate H.
  - rewrite prepareStates_loop_cons in H.
    destruct (prepareAccount w fuel ignoreCache timestamp _ a _)
      as [[item|e|] st1] eqn:Ha; [| |discriminate H].
    + destruct (IH _ _ _ _ _ H) as (pre & b & rest' & result1 & st2 & e & -> & Hpre & Hb & Hn & Hu).
      exists (a :: pre), b, rest', result1, st2, e.
      split; [reflexivity|]. split; [|split; [|split; assumption]].
      * rewrite prepareStates_loop_cons, Ha. exact Hpre.
      * cbn [length]. rewrite <- Nat.add_succ_comm. exact Hb.
    + destruct (unreadable "message" e) as [t|] eqn:Hu.
      * injection H as <- <-.
        exists [], a, rest, result, st, e.
        split; [reflexivity|]. split; [reflexivity|].
        cbn [length]. rewrite Nat.add_0_r.
        split; [exact Ha|]. split; [exact (unreadable_inv _ _ _ Hu) | exact Hu].
      * destruct (IH _ _ _ _ _ H) as (pre & b & rest' & result1 & st2 & e' & -> & Hpre & Hb & Hn & Hu').
        exists (a :: pre), b, rest', result1, st2, e'.
        split; [reflexivity|]. split; [|split; [|split; assumption]].
        -- rewrite prepareStates_loop_cons, Ha, Hu. exact Hpre.
        -- cbn [length]. rewrite <- Nat.add_succ_comm. exact Hb.
Qed.

(** When the preparation of every listed account settles, and none is
    rejected with [null] or [undefined], the loop returns its list of
    results. *)
Lemma prepareStates_loop_returns (accounts : list Address) :
  Forall (fun a => forall current st e,
              let o := fst (prepareAccount w fuel ignoreCache timestamp
                              (path_join w cacheDirPath (toString a)) a
                              (record [ConsoleLog (preparing_line (S current) total a)] st)) in
              o <> Pending /\ (o = Throw e -> ~ nullish e)) accounts ->
  forall current result st,
  exists result' st',
    prepareStates_loop w fuel ignoreCache cacheDirPath timestamp total
      current result accounts st = (Ret result', st').
Proof.
  induction 1 as [|a rest Ha _ IH]; intros current result st.
  - exists result, st. reflexivity.
  - rewrite prepareStates_loop_cons.
    destruct (prepareAccount w fuel ignoreCache timestamp _ a _)
      as [[item|e'|] st1] eqn:E.
    + apply IH.
    + destruct (Ha current st e') as [_ Hn]. cbv zeta in Hn. rewrite E in Hn.
      rewrite (unreadable_not_nullish "message" e' (Hn eq_refl)). apply IH.
    + destruct (Ha current st ThrownNull) as [Hp _]. cbv zeta in Hp.
      rewrite E in Hp. contradiction.
Qed.

End Isolation.

(** C1, amended: a failure at any stage of the preparation of one account
    (debt estimate, cache, search for the freeze transaction,
    reconstruction) with an [Error], a string or any value but [null] and
    [undefined] is caught; it is logged after the line that names the
    address of the account, for an [Error] with its message, and the
    preparation goes on with the next address with the results so far
    untouched.  A rejection with [null] or [undefined] is caught as well,
    but the catch clause fails on reading [e.message]: nothing is logged
    and its [TypeError] ends the loop.  Preparing the states ends in an
    exception in this case only, and it returns its results when the
    preparation of every account settles on something else.  A failure
    of the redeploy of one account is not caught for that account: it
    ends the loop over the prepared states, and an exception that [app]
    ends in makes the process print its message and exit with code 1
    (for [null] and [undefined], which have no message, the runtime
    reports the [TypeError] of the handler and ends the process with code
    1). *)
Theorem preparation_failures_are_isolated (w : World) (fuel : nat)
    (ignoreCache : bool) (cacheDirPath : string) (timestamp : Z) (total : nat) :
  (forall current result a rest st st1 e,
      prepareAccount w fuel ignoreCache timestamp
        (path_join w cacheDirPath (toString a)) a
        (record [ConsoleLog (preparing_line (S current) total a)] st)
      = (Throw e, st1) ->
      ~ nullish e ->
      exists line es,
        prepareStates_loop w fuel ignoreCache cacheDirPath timestamp total
          current result (a :: rest) st
        = prepareStates_loop w fuel ignoreCache cacheDirPath timestamp total
            (S current) result rest (record [ConsoleError line] st1) /\
        (forall m c, e = Error m c -> line = "  skipping: " +:+ m) /\
        events st1
        = events st ++ ConsoleLog (preparing_line (S current) total a) :: es) /\
  (forall current result a rest st st1 e,
      prepareAccount w fuel ignoreCache timestamp
        (path_join w cacheDirPath (toString a)) a
        (record [ConsoleLog (preparing_line (S current) total a)] st)
      = (Throw e, st1) ->
      nullish e ->
      exists typeError,
        unreadable "message" e = Some typeError /\
        prepareStates_loop w fuel ignoreCache cacheDirPath timestamp total
          current result (a :: rest) st
        = (Throw typeError, st1)) /\
  (forall current result accounts st typeError st',
      prepareStates_loop w fuel ignoreCache cacheDirPath timestamp total
        current result accounts st = (Throw typeError, st') ->
      exists pre a rest result1 st1 e,
        accounts = pre ++ a :: rest /\
        prepareStates_loop w fuel ignoreCache cacheDirPath timestamp total
          current result pre st = (Ret result1, st1) /\
        prepareAccount w fuel ignoreCache timestamp
          (path_join w cacheDirPath (toString a)) a
          (record [ConsoleLog (preparing_line (S (current + length pre)) total a)] st1)
        = (Throw e, st') /\
        nullish e /\
        unreadable "message" e = Some typeError) /\
  (forall accounts,
      Forall (fun a => forall current st e,
                  let o := fst (prepareAccount w fuel ignoreCache timestamp
                                  (path_join w cacheDirPath (toString a)) a
                                  (record [ConsoleLog (preparing_line (S current) total a)] st)) in
                  o <> Pending /\ (o = Throw e -> ~ nullish e)) accounts ->
      forall current result st,
      exists result' st',
        prepareStates_loop w fuel ignoreCache cacheDirPath timestamp total
          current result accounts st = (Ret result', st')) /\
  (forall microwaveAddress giverAddress targetBalance item rest st st1 e,
      unfreezeAccount w microwaveAddress giverAddress targetBalance item st
      = (Throw e, st1) ->
      unfreeze w microwaveAddress giverAddress targetBalance (item :: rest) st
      = (Throw e, st1)) /\
  (forall argv st st1 e,
      flags (getArgs argv) !! "h" = None ->
      flags (getArgs argv) !! "help" = None ->
      app w fuel (getArgs argv) st = (Throw e, st1) ->
      (~ nullish e ->
       main w fuel argv st = (Some 1%Z, record [ConsoleLog (exn_message e)] st1)) /\
      (nullish e ->
       exists typeError,
         unreadable "message" e = Some typeError /\
         main w fuel argv st = (Some 1%Z, record [Uncaught typeError] st1))).
Proof.
  split; [|split; [|split; [|split; [|split]]]].
  - intros current result a rest st st1 e H Hn.
    exists ("  skipping: " +:+ exn_message e).
    destruct (grows_prepareAccount w _ _ _ _ _ _ _ _ H) as (es & E).
    exists es. split; [|split].
    + rewrite prepareStates_loop_cons, H.
      rewrite (unreadable_not_nullish "message" e Hn). reflexivity.
    + intros m c ->. reflexivity.
    + rewrite E. rewrite events_record. list_norm. reflexivity.
  - intros current result a rest st st1 e H Hn.
    destruct (unreadable_nullish "message" e Hn) as (t & Ht).
    exists t. split; [exact Ht|].
    rewrite prepareStates_loop_cons, H, Ht. reflexivity.
  - intros current result accounts st typeError st' H.
    exact (prepareStates_loop_throws w fuel ignoreCache cacheDirPath timestamp total
             accounts current result st typeError st' H).
  - intros accounts Hacc current result st.
    apply prepareStates_loop_returns. assumption.
  - intros microwaveAddress giverAddress targetBalance item rest st st1 e H.
    cbn [unfreeze]. unfold bind. rewrite H. reflexivity.
  - intros argv st st1 e Hh Hhelp H. split; intros Hn.
    + unfold main. rewrite Hh, Hhelp, H.
      rewrite (unreadable_not_nullish "message" e Hn). reflexivity.
    + destruct (unreadable_nullish "message" e Hn) as (t & Ht).
      exists t. split; [exact Ht|].
      unfold main. rewrite Hh, Hhelp, H, Ht. reflexivity.
Qed.

Lemma preparation_failures_are_isolated_witness :
  exists line es st1,
    prepareStates_loop Demo.world 2 false Demo.cacheDirPath Demo.timestamp 2
      0 [] [Demo.B; Demo.A] Demo.st0
    = prepareStates_loop Demo.world 2 false Demo.cacheDirPath Demo.timestamp 2
        1 [] [Demo.A] (record [ConsoleError line] st1) /\
    (forall m c, Error "Account not frozen" None = Error m c ->
                 line = "  skipping: " +:+ m) /\
    events st1
    = events Demo.st0 ++ ConsoleLog (preparing_line 1 2 Demo.B) :: es.
Proof.
  destruct (proj1 (preparation_failures_are_isolated Demo.world 2 false
                     Demo.cacheDirPath Demo.timestamp 2)
              0 [] Demo.B [Demo.A] Demo.st0
              (snd (prepareAccount Demo.world 2 false Demo.timestamp
                      (Demo.statePath Demo.B) Demo.B
                      (record [ConsoleLog (preparing_line 1 2 Demo.B)] Demo.st0)))
              (Error "Account not frozen" None))
    as (line & es & H).
  - vm_compute. reflexivity.
  - intros [E | E]; discriminate E.
  - exists line, es. eexists. exact H.
Defined.

(* ================================================================== *)
(** * Further properties *)

(** ** Reading the command line *)

Section GetArgs.

Lemma set_flag_keeps (f : string) (v : flag) (k : string) (fl : gmap string flag) :
  is_Some (fl !! k) -> is_Some (set_flag f v fl !! k).
Proof.
  intros H. unfold set_flag. destruct (String.eqb f "__proto__"); [exact H|].
  destruct (decide (f = k)) as [->|Hne].
  - rewrite lookup_insert_eq. eauto.
  - rewrite lookup_insert_ne by assumption. exact H.
Qed.

Lemma set_flag_other (f : string) (v : flag) (fl : gmap string flag) :
  f <> "__proto__" -> set_flag f v fl = <[f := v]> fl.
Proof.
  intros H. unfold set_flag.
  destruct (String.eqb_spec f "__proto__"); [contradiction | reflexivity].
Qed.

Lemma fold_insert_keeps (keys : list string) (k : string) :
  forall fl : gmap string flag,
    is_Some (fl !! k) ->
    is_Some (fold_left (fun fl f => set_flag f FlagTrue fl) keys fl !! k).
Proof.
  induction keys as [|f keys IH]; intros fl H; [exact H|].
  simpl. apply IH. apply set_flag_keeps. exact H.
Qed.

(** What one argument does to the positional arguments and to a flag that
    is already there. *)
Lemma getArgs_step_spec (res : Args) (arg : string) :
  positional (getArgs_step res arg)
  = (if is_option arg then positional res else positional res ++ [arg]) /\
  (forall k, is_Some (flags res !! k) ->
             is_Some (flags (getArgs_step res arg) !! k)).
Proof.
  assert (Hins : forall k f v, is_Some (flags res !! k) ->
                               is_Some (set_flag f v (flags res) !! k)).
  { intros k f v H. apply set_flag_keeps. exact H. }
  destruct arg as [|c r]; [split; [reflexivity | auto]|].
  destruct (Ascii.eqb_spec c "-"%char) as [->|Hc].
  - destruct r as [|c2 r2].
    + split; [reflexivity | auto].
    + destruct (Ascii.eqb_spec c2 "-"%char) as [->|Hc2].
      * cbn [getArgs_step is_option]. 
        destruct (split "=" r2) as [|x [|y l]]; split; cbn; auto.
      * assert (E : getArgs_step res (String "-" (String c2 r2))
                    = mkArgs (positional res)
                        (fold_left (fun fl f => set_flag f FlagTrue fl)
                           (chars (String c2 r2)) (flags res))).
        { destruct c2 as [[] [] [] [] [] [] [] []]; try reflexivity.
          contradiction Hc2. reflexivity. }
        rewrite E. split; [reflexivity|].
        intros k H. cbn [flags]. apply fold_insert_keeps. exact H.
  - assert (E : getArgs_step res (String c r)
                = mkArgs (positional res ++ [String c r]) (flags res)).
    { destruct c as [[] [] [] [] [] [] [] []]; try reflexivity.
      contradiction Hc. reflexivity. }
    rewrite E. cbn [is_option]. 
    destruct (Ascii.eqb_spec c "-"%char); [contradiction|].
    split; [reflexivity | auto].
Qed.

Lemma getArgs_fold_positional (argv : list string) :
  forall res,
    positional (fold_left getArgs_step argv res)
    = positional res ++ List.filter (fun arg => negb (is_option arg)) argv.
Proof.
  induction argv as [|arg argv IH]; intros res; simpl.
  - rewrite app_nil_r. reflexivity.
  - rewrite IH. rewrite (proj1 (getArgs_step_spec res arg)).
    destruct (is_option arg); simpl; [reflexivity|].
    rewrite <- app_assoc. reflexivity.
Qed.

Lemma getArgs_fold_keeps (argv : list string) (k : string) :
  forall res,
    is_Some (flags res !! k) ->
    is_Some (flags (fold_left getArgs_step argv res) !! k).
Proof.
  induction argv as [|arg argv IH]; intros res H; [exact H|].
  simpl. apply IH. apply (proj2 (getArgs_step_spec res arg)). exact H.
Qed.

Lemma split_without (c : ascii) (s : string) :
  without c s -> split c s = [s].
Proof.
  induction s as [|a s IH]; intros H; [reflexivity|].
  simpl. destruct (Ascii.eqb_spec a c) as [->|Hne].
  - exfalso. apply (H c); [left; reflexivity | reflexivity].
  - rewrite IH; [reflexivity|]. intros b Hb. apply H. right. exact Hb.
Qed.

Lemma split_at_first (c : ascii) (s t : string) :
  without c s -> split c (s +:+ String c t) = s :: split c t.
Proof.
  induction s as [|a s IH]; intros H.
  - simpl. rewrite Ascii.eqb_refl. reflexivity.
  - simpl. destruct (Ascii.eqb_spec a c) as [->|Hne].
    + exfalso. apply (H c); [left; reflexivity | reflexivity].
    + rewrite IH; [reflexivity|]. intros b Hb. apply H. right. exact Hb.
Qed.

End GetArgs.

(** X1: the positional arguments that [getArgs] collects are exactly the
    arguments that do not begin with a dash, in the order in which they
    were given; options never end up among them and never reorder
    them. *)
Theorem getArgs_positional (argv : list string) :
  positional (getArgs argv)
  = List.filter (fun arg => negb (is_option arg)) argv.
Proof. unfold getArgs. rewrite getArgs_fold_positional. reflexivity. Qed.

(** X2: what the last argument of the form [--name], [--name=value] or
    [--name=value=rest] leaves under [name], whatever came before it
    (also an earlier setting of the same name), for every name but
    [__proto__]: the first gives [true], the other two the string
    [value]; what follows a second [=] is dropped.  An option
    [--__proto__], with or without a value, leaves the arguments as they
    are: it sets no flag. *)
Theorem getArgs_last_long_option (argv : list string) (name value rest : string) :
  without "=" name -> without "=" value -> name <> "__proto__" ->
  flags (getArgs (argv ++ ["--" +:+ name])) !! name = Some FlagTrue /\
  flags (getArgs (argv ++ ["--" +:+ name +:+ "=" +:+ value])) !! name
  = Some (FlagValue value) /\
  flags (getArgs (argv ++ ["--" +:+ name +:+ "=" +:+ value +:+ "=" +:+ rest])) !! name
  = Some (FlagValue value) /\
  getArgs (argv ++ ["--__proto__"]) = getArgs argv /\
  getArgs (argv ++ ["--__proto__=" +:+ value]) = getArgs argv.
Proof.
  intros Hn Hv Hp. unfold getArgs. rewrite !fold_left_app. cbn [fold_left].
  set (res := fold_left getArgs_step argv (mkArgs [] ∅)).
  change ("--" +:+ name) with (String "-" (String "-" name)).
  change ("--" +:+ name +:+ "=" +:+ value)
    with (String "-" (String "-" (name +:+ String "=" value))).
  change ("--" +:+ name +:+ "=" +:+ value +:+ "=" +:+ rest)
    with (String "-" (String "-" (name +:+ String "=" (value +:+ String "=" rest)))).
  change ("--__proto__=" +:+ value)
    with (String "-" (String "-" ("__proto__" +:+ String "=" value))).
  assert (Hproto : without "=" "__proto__").
  { intros a Ha. vm_compute in Ha.
    repeat (destruct Ha as [<- | Ha]; [discriminate|]). destruct Ha. }
  split; [|split; [|split; [|split]]].
  - cbn [getArgs_step]. rewrite (split_without _ _ Hn). cbn [flags].
    rewrite (set_flag_other _ _ _ Hp). apply lookup_insert_eq.
  - cbn [getArgs_step]. rewrite (split_at_first _ _ _ Hn), (split_without _ _ Hv).
    cbn [flags]. rewrite (set_flag_other _ _ _ Hp). apply lookup_insert_eq.
  - cbn [getArgs_step]. rewrite (split_at_first _ _ _ Hn), (split_at_first _ _ _ Hv).
    destruct (split "=" rest); cbn [flags];
      rewrite (set_flag_other _ _ _ Hp); apply lookup_insert_eq.
  - destruct res; reflexivity.
  - cbn [getArgs_step].
    rewrite (split_at_first _ _ _ Hproto), (split_without _ _ Hv).
    destruct res; reflexivity.
Qed.

Lemma getArgs_last_long_option_witness :
  flags (getArgs ["--giver=x"; "--giver"]) !! "giver" = Some FlagTrue /\
  flags (getArgs ["--giver=x"; "--giver=0:ab"]) !! "giver"
  = Some (FlagValue "0:ab") /\
  flags (getArgs ["--giver=x"; "--giver=0:ab=cd"]) !! "giver"
  = Some (FlagValue "0:ab") /\
  getArgs ["--giver=x"; "--__proto__"] = getArgs ["--giver=x"] /\
  getArgs ["--giver=x"; "--__proto__=0:ab"] = getArgs ["--giver=x"].
Proof.
  apply (getArgs_last_long_option ["--giver=x"] "giver" "0:ab" "cd").
  - intros a Ha. vm_compute in Ha.
    repeat (destruct Ha as [<- | Ha]; [discriminate|]). destruct Ha.
  - intros a Ha. vm_compute in Ha.
    repeat (destruct Ha as [<- | Ha]; [discriminate|]). destruct Ha.
  - discriminate.
Defined.

(** X3: an argument [--help] or [-h] anywhere on the command line wins
    over everything else: the usage text is printed, the exit code is 1,
    and nothing else happens, whatever the other arguments are. *)
Theorem help_wins (w : World) (fuel : nat) (argv : list string) (st : State) :
  In "--help" argv \/ In "-h" argv ->
  main w fuel argv st = (Some 1%Z, record [ConsoleLog help_text] st).
Proof.
  intros H.
  assert (Hflag : is_Some (flags (getArgs argv) !! "h")
                  \/ is_Some (flags (getArgs argv) !! "help")).
  { assert (Hlong : forall res, getArgs_step res "--help"
                    = mkArgs (positional res) (<["help" := FlagTrue]> (flags res)))
      by reflexivity.
    assert (Hshort : forall res, getArgs_step res "-h"
                    = mkArgs (positional res) (<["h" := FlagTrue]> (flags res)))
      by reflexivity.
    unfold getArgs.
    destruct H as [H | H]; apply in_split in H; destruct H as (l1 & l2 & ->);
      rewrite fold_left_app; cbn [fold_left]; [right | left];
      apply getArgs_fold_keeps; rewrite ?Hlong, ?Hshort; cbn [flags];
      rewrite lookup_insert_eq; eauto. }
  unfold main.
  destruct (flags (getArgs argv) !! "h") as [fh|];
    destruct (flags (getArgs argv) !! "help") as [fhelp|]; try reflexivity.
  destruct Hflag as [[x Hx] | [x Hx]]; discriminate Hx.
Qed.

Lemma help_wins_witness :
  main Demo.world 2 ("--help" :: Demo.argv) Demo.st0
  = (Some 1%Z, record [ConsoleLog help_text] Demo.st0).
Proof.
  apply (help_wins Demo.world 2 ("--help" :: Demo.argv) Demo.st0).
  left. left. reflexivity.
Defined.

(** ** What [parseArgs] lets through *)

(** X4: when [parseArgs] returns, it has changed nothing, the path is the
    first positional argument, the giver and the keys path are the
    strings given with [--giver] and [--sign], the giver has the shape of
    an address, the cache is ignored exactly for [--ignore-cache] and
    [--ignore-cache=true], and the target balance is the string given
    with [--target-balance], or [1000000000] when none or the empty
    string was given. *)
Theorem parseArgs_returns (args : Args) (st st' : State) (p : ParsedArgs) :
  parseArgs args st = (Ret p, st') ->
  st' = st /\
  head (positional args) = Some (path p) /\
  flags args !! "giver" = Some (FlagValue (giver p)) /\
  address_shape (giver p) /\
  flags args !! "sign" = Some (FlagValue (sign p)) /\
  (ignoreCache p = true <->
   flags args !! "ignore-cache" = Some FlagTrue \/
   flags args !! "ignore-cache" = Some (FlagValue "true")) /\
  match flags args !! "target-balance" with
  | None | Some (FlagValue EmptyString) => targetBalance p = "1000000000"
  | Some (FlagValue v) => targetBalance p = v
  | Some FlagTrue => False
  end.
Proof.
  intros H. unfold parseArgs, bind in H.
  destruct (parseSwitch args "ignore-cache" st) as [o st1] eqn:Hs.
  pose proof (parseSwitch_pure _ _ _ _ _ Hs) as ->.
  destruct o as [b|e|]; try discriminate H.
  destruct (head (positional args)) as [pa|]; try discriminate H.
  destruct (flags args !! "giver") as [[|g]|]; try discriminate H.
  destruct (flags args !! "sign") as [[|sg]|]; try discriminate H.
  destruct (checkAddress g) eqn:Hc; try discriminate H. cbn [negb] in H.
  assert (Hb : b = true <->
               flags args !! "ignore-cache" = Some FlagTrue \/
               flags args !! "ignore-cache" = Some (FlagValue "true")).
  { unfold parseSwitch in Hs.
    destruct (flags args !! "ignore-cache") as [[|v]|].
    - injection Hs as <-. split; auto.
    - destruct (negb (String.eqb v "true") && negb (String.eqb v "false"));
        try discriminate Hs.
      injection Hs as <-. rewrite String.eqb_eq. split.
      + intros ->. auto.
      + intros [E | E]; [discriminate E | injection E as ->; reflexivity].
    - injection Hs as <-. split; [discriminate|]. intros [E | E]; discriminate E. }
  apply checkAddress_spec in Hc.
  destruct (flags args !! "target-balance") as [[|[|c v]]|];
    try discriminate H; unfold ret in H; injection H as <- <-;
    repeat split; try reflexivity; try assumption; try apply Hb.
Qed.

Lemma parseArgs_returns_witness :
  Demo.st0 = Demo.st0 /\
  head (positional (getArgs Demo.argv)) = Some "accounts.csv" /\
  flags (getArgs Demo.argv) !! "giver"
  = Some (FlagValue (toString Demo.giverAddress)) /\
  address_shape (toString Demo.giverAddress) /\
  flags (getArgs Demo.argv) !! "sign" = Some (FlagValue "keys.json") /\
  (false = true <->
   flags (getArgs Demo.argv) !! "ignore-cache" = Some FlagTrue \/
   flags (getArgs Demo.argv) !! "ignore-cache" = Some (FlagValue "true")) /\
  match flags (getArgs Demo.argv) !! "target-balance" with
  | None | Some (FlagValue EmptyString) => "1000000000" = "1000000000"
  | Some (FlagValue v) => "1000000000" = v
  | Some FlagTrue => False
  end.
Proof.
  apply (parseArgs_returns (getArgs Demo.argv) Demo.st0 Demo.st0
           (mkParsedArgs "accounts.csv" (toString Demo.giverAddress)
              "keys.json" false "1000000000")).
  vm_compute. reflexivity.
Defined.

(** X5: the target balance is not checked to be a number before the
    redeploy.  A non-empty [--target-balance] of ASCII characters that
    [BigInt] cannot read passes [parseArgs] unchanged when the other
    arguments are in order;
    it is met only in the loop over the prepared states, where the first
    state makes the loop fail before any message is sent; with no state
    to redeploy it is never noticed. *)
Theorem target_balance_is_read_only_at_redeploy (w : World) (args : Args)
    (pa g sg tb : string) (st : State) :
  head (positional args) = Some pa ->
  flags args !! "giver" = Some (FlagValue g) ->
  checkAddress g = true ->
  flags args !! "sign" = Some (FlagValue sg) ->
  switch_well_formed args "ignore-cache" ->
  flags args !! "target-balance" = Some (FlagValue tb) ->
  tb <> "" ->
  ascii_only tb ->
  BigIntM.parse tb = None ->
  (exists b, parseArgs args st = (Ret (mkParsedArgs pa g sg b tb), st)) /\
  (forall microwaveAddress giverAddress item rest st1,
      exists e,
        unfreeze w microwaveAddress giverAddress tb (item :: rest) st1
        = (Throw e, st1) /\
        (forall d, BigIntM.parse (storageFeeDebt item) = Some d ->
                   e = BigIntM.SyntaxError tb)) /\
  (forall microwaveAddress giverAddress st1,
      unfreeze w microwaveAddress giverAddress tb [] st1 = (Ret tt, st1)).
Proof.
  intros Hpa Hg Hc Hsg Hsw Htb Hne _ Hparse. split; [|split].
  - destruct (parseSwitch_well_formed args "ignore-cache" st Hsw) as (b & Hb).
    exists b. unfold parseArgs, bind. rewrite Hb, Hpa, Hg, Hsg, Hc, Htb.
    destruct tb; [contradiction|reflexivity].
  - intros microwaveAddress giverAddress item rest st1.
    cbn [unfreeze]. unfold bind, unfreezeAccount, bind, funding_amount, bind, BigInt.
    rewrite Hparse.
    destruct (BigIntM.parse (storageFeeDebt item)) as [d|] eqn:Hd.
    + eexists. split; [reflexivity|]. intros d' _. reflexivity.
    + eexists. split; [reflexivity|]. intros d' Hd'. discriminate Hd'.
  - reflexivity.
Qed.

Lemma target_balance_is_read_only_at_redeploy_witness :
  (exists b,
      parseArgs (getArgs (Demo.argv ++ ["--target-balance=1.5"])) Demo.st0
      = (Ret (mkParsedArgs "accounts.csv" (toString Demo.giverAddress)
                "keys.json" b "1.5"), Demo.st0)) /\
  exists e,
    unfreeze Demo.world (mkAddress "0:microwave") Demo.giverAddress "1.5"
      [mkFrozenAccount Demo.A "QUJD" "5"] Demo.st0
    = (Throw e, Demo.st0) /\
    (forall d, BigIntM.parse "5" = Some d -> e = BigIntM.SyntaxError "1.5").
Proof.
  pose proof (target_balance_is_read_only_at_redeploy Demo.world
                (getArgs (Demo.argv ++ ["--target-balance=1.5"]))
                "accounts.csv" (toString Demo.giverAddress) "keys.json" "1.5"
                Demo.st0) as H.
  destruct H as (Hp & Hu & _).
  - vm_compute. reflexivity.
  - vm_compute. reflexivity.
  - vm_compute. reflexivity.
  - vm_compute. reflexivity.
  - intros v Hv. vm_compute in Hv. discriminate Hv.
  - vm_compute. reflexivity.
  - discriminate.
  - intros c Hc. vm_compute in Hc.
    repeat (destruct Hc as [<- | Hc]; [reflexivity|]). destruct Hc.
  - vm_compute. reflexivity.
  - split; [exact Hp|].
    apply (Hu (mkAddress "0:microwave") Demo.giverAddress
             (mkFrozenAccount Demo.A "QUJD" "5") [] Demo.st0).
Defined.

(** ** The reference timestamp *)

(** X6: the timestamp handed to the fee computation is one hour ahead of
    the clock, in whole seconds, as long as the clock is below 2^31
    seconds; from there on, up to 2^32 seconds, the conversion to a
    32-bit integer makes it that value less 2^32, which lies behind the
    clock instead of ahead of it. *)
Theorem timestamp_of_range (w : World) :
  (0 <= clock_time w < 2 ^ 31 * 1000 ->
   timestamp_of w = 3600 + clock_time w / 1000)%Z /\
  (2 ^ 31 * 1000 <= clock_time w < 2 ^ 32 * 1000 ->
   timestamp_of w = 3600 + clock_time w / 1000 - 2 ^ 32 /\
   timestamp_of w < clock_time w / 1000)%Z.
Proof.
  unfold timestamp_of, TIMESTAMP_BIAS, toInt32.
  change (2 ^ 31)%Z with 2147483648%Z.
  change (2 ^ 32)%Z with 4294967296%Z.
  split.
  - intros [H0 H1]. rewrite Z.quot_div_nonneg by lia.
    assert (0 <= clock_time w / 1000 < 2147483648)%Z.
    { split; [apply Z.div_pos; lia|].
      apply Z.div_lt_upper_bound; lia. }
    rewrite Z.mod_small by lia. lia.
  - intros [H0 H1]. rewrite Z.quot_div_nonneg by lia.
    assert (2147483648 <= clock_time w / 1000 < 4294967296)%Z.
    { split; [apply Z.div_le_lower_bound; lia|].
      apply Z.div_lt_upper_bound; lia. }
    replace (clock_time w / 1000 + 2147483648)%Z
      with (clock_time w / 1000 - 2147483648 + 1 * 4294967296)%Z by lia.
    rewrite Z_mod_plus_full. rewrite Z.mod_small by lia. lia.
Qed.

Lemma timestamp_of_range_witness :
  timestamp_of Demo.world = (3600 + clock_time Demo.world / 1000)%Z.
Proof.
  apply (proj1 (timestamp_of_range Demo.world)).
  split; [discriminate | reflexivity].
Defined.

(** ** The address list *)

Section ReadAccounts.

Lemma plain_cons (a : ascii) (s : string) :
  (forall b, In b (list_ascii_of_string (String a s)) -> Str.is_space b = false) ->
  Str.is_space a = false /\
  (forall b, In b (list_ascii_of_string s) -> Str.is_space b = false).
Proof.
  intros H. split; [apply H; left; reflexivity|].
  intros b Hb. apply H. right. exact Hb.
Qed.

Lemma not_space_not_break (a : ascii) :
  Str.is_space a = false ->
  Ascii.eqb a "010"%char = false /\ Ascii.eqb a "013"%char = false.
Proof.
  intros H. split.
  - destruct (Ascii.eqb_spec a "010"%char) as [->|]; [discriminate H|reflexivity].
  - destruct (Ascii.eqb_spec a "013"%char) as [->|]; [discriminate H|reflexivity].
Qed.

Lemma split_lines_line (l eol rest : string) :
  (forall b, In b (list_ascii_of_string l) -> Str.is_space b = false) ->
  line_ending eol ->
  split_lines (l +:+ eol +:+ rest) = l :: split_lines rest.
Proof.
  intros Hl Heol. induction l as [|a l IH].
  - destruct Heol as [-> | ->]; reflexivity.
  - apply plain_cons in Hl. destruct Hl as [Ha Hl].
    destruct (not_space_not_break a Ha) as [Hn Hr].
    change (String a l +:+ eol +:+ rest) with (String a (l +:+ eol +:+ rest)).
    cbn [split_lines]. rewrite Hn, Hr, (IH Hl). reflexivity.
Qed.

Lemma split_lines_text (eol : string) (lines : list string) :
  Forall plain lines ->
  line_ending eol ->
  split_lines (lines_text eol lines) = lines ++ [""].
Proof.
  intros Hlines Heol. induction Hlines as [|l lines [_ Hl] _ IH]; [reflexivity|].
  cbn [lines_text fold_right]. rewrite split_lines_line by assumption.
  fold (lines_text eol lines). rewrite IH. reflexivity.
Qed.

Lemma trimEnd_no_space (s : string) :
  (forall b, In b (list_ascii_of_string s) -> Str.is_space b = false) ->
  Str.trimEnd s = s.
Proof.
  induction s as [|a s IH]; intros H; [reflexivity|].
  apply plain_cons in H. destruct H as [Ha Hs].
  cbn [Str.trimEnd]. rewrite (IH Hs), Ha. destruct s; reflexivity.
Qed.

Lemma trim_plain (s : string) : plain s -> Str.trim s = s.
Proof.
  intros [Hne Hs]. unfold Str.trim.
  destruct s as [|a s]; [contradiction|].
  pose proof (plain_cons _ _ Hs) as [Ha _].
  cbn [Str.trimStart]. rewrite Ha. apply trimEnd_no_space. exact Hs.
Qed.

Lemma trimEnd_idempotent (s : string) :
  Str.trimEnd (Str.trimEnd s) = Str.trimEnd s.
Proof.
  induction s as [|a s IH]; [reflexivity|].
  cbn [Str.trimEnd].
  destruct (Str.trimEnd s) as [|b t] eqn:E.
  - destruct (Str.is_space a) eqn:Ha; [reflexivity|].
    cbn [Str.trimEnd]. rewrite Ha. reflexivity.
  - cbn [Str.trimEnd] in *. rewrite IH. reflexivity.
Qed.

Lemma trimStart_head (s : string) :
  Str.trimStart s = "" \/
  exists a t, Str.trimStart s = String a t /\ Str.is_space a = false.
Proof.
  induction s as [|a s IH]; [left; reflexivity|].
  cbn [Str.trimStart]. destruct (Str.is_space a) eqn:Ha; [exact IH|].
  right. exists a, s. auto.
Qed.

Lemma trimEnd_head (a : ascii) (s : string) :
  Str.trimEnd (String a s) = "" \/ exists t, Str.trimEnd (String a s) = String a t.
Proof.
  cbn [Str.trimEnd]. destruct (Str.trimEnd s).
  - destruct (Str.is_space a); eauto.
  - eauto.
Qed.

Lemma trim_idempotent (s : string) : Str.trim (Str.trim s) = Str.trim s.
Proof.
  unfold Str.trim.
  destruct (trimStart_head s) as [-> | (a & t & -> & Ha)]; [reflexivity|].
  destruct (trimEnd_head a t) as [-> | (t' & E)]; [reflexivity|].
  rewrite E. cbn [Str.trimStart]. rewrite Ha. rewrite <- E.
  apply trimEnd_idempotent.
Qed.

End ReadAccounts.

(** X7: [readAccounts] reads back a list that was written one address a
    line, with line feeds or with carriage return and line feed: for
    addresses of ASCII characters that are not empty and hold no white
    space, the result is the very list, in order, and the only thing done
    is the reading of the file. *)
Theorem readAccounts_reads_back (w : World) (path eol : string)
    (accounts : list Address) (st : State) :
  Forall (fun a => plain (toString a) /\ ascii_only (toString a)) accounts ->
  line_ending eol ->
  files st !! path
  = Some (File (list_byte_of_string (lines_text eol (map toString accounts)))) ->
  fs_fault w OpReadFile path = None ->
  readAccounts w path st = (Ret accounts, record [FsReadFile path] st).
Proof.
  intros Hacc' Heol Hfile Hfault.
  assert (Hacc : Forall (fun a => plain (toString a)) accounts).
  { eapply List.Forall_impl; [|exact Hacc']. intros a [Ha _]. exact Ha. }
  clear Hacc'.
  unfold readAccounts, bind, fs.readFile, fs.faulty, bind.
  rewrite emit_eq, Hfault. unfold get_files. cbn [files record].
  rewrite Hfile. unfold ret. rewrite string_of_list_byte_of_string.
  assert (Hplain : Forall plain (map toString accounts)).
  { apply Forall_map. exact Hacc. }
  rewrite (split_lines_text eol _ Hplain Heol).
  f_equal. f_equal.
  clear Hfile. induction Hacc as [|a accounts Ha _ IH]; [reflexivity|].
  cbn [map Datatypes.app List.filter].
  inversion Hplain as [|x l Hx Hl]; subst.
  rewrite (trim_plain _ Ha).
  destruct a as [s]. cbn [toString] in *.
  destruct Ha as [Hne _]. destruct s; [contradiction|].
  cbn [String.eqb negb map]. 
  replace (String.eqb (String a s) "") with false by (symmetry; reflexivity).
  cbn [negb map]. f_equal. apply IH. exact Hl.
Qed.

Lemma readAccounts_reads_back_witness :
  readAccounts Demo.world "accounts.csv" (initial (Demo.disk [Demo.X; Demo.A]))
  = (Ret [Demo.X; Demo.A],
     record [FsReadFile "accounts.csv"] (initial (Demo.disk [Demo.X; Demo.A]))).
Proof.
  apply (readAccounts_reads_back Demo.world "accounts.csv" newline
           [Demo.X; Demo.A] (initial (Demo.disk [Demo.X; Demo.A]))).
  - repeat constructor; try discriminate;
      intros b Hb; vm_compute in Hb;
      repeat (destruct Hb as [<- | Hb]; [reflexivity|]); destruct Hb.
  - left. reflexivity.
  - vm_compute. reflexivity.
  - reflexivity.
Defined.

(** X8: whatever the file holds, no address that [readAccounts] returns
    is empty, and none begins or ends with (ASCII) white space: blank
    lines are left out and the lines are trimmed. *)
Theorem readAccounts_addresses_are_trimmed (w : World) (path : string)
    (st st' : State) (accounts : list Address) :
  readAccounts w path st = (Ret accounts, st') ->
  Forall (fun a => toString a <> "" /\ Str.trim (toString a) = toString a) accounts.
Proof.
  intros H. unfold readAccounts, bind in H.
  destruct (fs.readFile w path st) as [[bytes|e|] st1]; try discriminate H.
  unfold ret in H. injection H as <- _.
  apply Forall_map. apply List.Forall_forall.
  intros l Hl. apply filter_In in Hl. destruct Hl as [Hin Hne].
  apply in_map_iff in Hin. destruct Hin as (l0 & <- & _).
  cbn [toString]. split.
  - intros E. rewrite E in Hne. discriminate Hne.
  - apply trim_idempotent.
Qed.

Lemma readAccounts_addresses_are_trimmed_witness :
  Forall (fun a => toString a <> "" /\ Str.trim (toString a) = toString a)
    [Demo.X; Demo.A].
Proof.
  apply (readAccounts_addresses_are_trimmed Demo.world "accounts.csv"
           (initial (Demo.disk [Demo.X; Demo.A]))
           (record [FsReadFile "accounts.csv"] (initial (Demo.disk [Demo.X; Demo.A])))).
  vm_compute. reflexivity.
Defined.

(** ** What an answer of [locate] means *)

Section LocateSound.

Variable w : World.
Variable a : Address.

Lemma scan_found_inv (txs : list Transaction) (l : string) :
  scan txs = ScanFound l ->
  exists pre t rest,
    txs = pre ++ t :: rest /\ Forall stays_frozen pre /\
    endStatus t = frozen /\ origStatus t <> frozen /\ l = lt (id t).
Proof.
  induction txs as [|t txs IH]; [discriminate|]. cbn [scan].
  destruct (endStatus t) eqn:He; cbn [is_frozen negb]; try discriminate.
  destruct (origStatus t) eqn:Ho; cbn [is_frozen negb];
    try (intros H; injection H as <-; exists [], t, txs;
         repeat split; [constructor | assumption | congruence]).
  intros H. destruct (IH H) as (pre & t' & rest & -> & Hpre & He' & Ho' & ->).
  exists (t :: pre), t', rest.
  repeat split; try assumption. constructor; [split; assumption | assumption].
Qed.

Lemma scan_next_inv (txs : list Transaction) :
  scan txs = ScanNext -> Forall stays_frozen txs.
Proof.
  induction txs as [|t txs IH]; [constructor|]. cbn [scan].
  destruct (endStatus t) eqn:He; cbn [is_frozen negb]; try discriminate.
  destruct (origStatus t) eqn:Ho; cbn [is_frozen negb]; try discriminate.
  intros H. constructor; [split; assumption | apply IH; exact H].
Qed.

Lemma search_found_inv (fuel : nat) :
  forall c st l st',
    searchFreezeTransaction w fuel a c st = (Ret (Some l), st') ->
    exists pre t cs,
      covers w a c (pre ++ [t]) cs /\ Forall stays_frozen pre /\
      endStatus t = frozen /\ origStatus t <> frozen /\ l = lt (id t) /\
      length cs <= fuel /\
      st' = record (map (GetTransactions a) cs) st.
Proof.
  induction fuel as [|fuel IH]; intros c st l st' H; [discriminate H|].
  cbn [searchFreezeTransaction] in H. unfold bind in H. rewrite request_eq in H.
  destruct (getTransactions w a c) as [b|e|] eqn:Hget; try discriminate H.
  destruct (scan (transactions b)) as [|l0|] eqn:Hscan; try discriminate H.
  - unfold ret in H. injection H as <- <-.
    destruct (scan_found_inv _ _ Hscan) as (pre & t & rest & Htx & Hpre & He & Ho & ->).
    exists pre, t, [c]. repeat split; try assumption; [|cbn; lia].
    apply (covers_here w a c b (pre ++ [t]) rest); [assumption| |].
    + rewrite Htx, <- app_assoc. reflexivity.
    + destruct pre; discriminate.
  - destruct (continuation b) as [c'|] eqn:Hcont; try discriminate H.
    destruct (IH _ _ _ _ H) as (pre & t & cs & Hcov & Hpre & He & Ho & -> & Hlen & ->).
    exists (transactions b ++ pre), t, (c :: cs).
    repeat split; try assumption.
    + rewrite <- app_assoc.
      apply (covers_next w a c b c'); try assumption. destruct pre; discriminate.
    + apply Forall_app. split; [apply scan_next_inv; assumption | assumption].
    + cbn. lia.
    + rewrite record_record. reflexivity.
Qed.

Lemma search_none_inv (fuel : nat) :
  forall c st st',
    searchFreezeTransaction w fuel a c st = (Ret None, st') ->
    exists l cs,
      exhausted w a c l cs /\ Forall stays_frozen l /\
      length cs <= fuel /\
      st' = record (map (GetTransactions a) cs) st.
Proof.
  induction fuel as [|fuel IH]; intros c st st' H; [discriminate H|].
  cbn [searchFreezeTransaction] in H. unfold bind in H. rewrite request_eq in H.
  destruct (getTransactions w a c) as [b|e|] eqn:Hget; try discriminate H.
  destruct (scan (transactions b)) as [|l0|] eqn:Hscan; try discriminate H.
  apply scan_next_inv in Hscan.
  destruct (continuation b) as [c'|] eqn:Hcont.
  - destruct (IH _ _ _ H) as (l & cs & Hex & Hl & Hlen & ->).
    exists (transactions b ++ l), (c :: cs). repeat split.
    + apply (exhausted_next w a c b c'); assumption.
    + apply Forall_app. split; assumption.
    + cbn. lia.
    + rewrite record_record. reflexivity.
  - unfold ret in H. injection H as <-.
    exists (transactions b), [c]. repeat split; try assumption; [|cbn; lia].
    apply (exhausted_last w a c b); assumption.
Qed.

End LocateSound.

(** X9: a logical time that [locate] returns is the logical time of a
    transaction of the account's history that has end status frozen and
    an origin status that is not frozen, and every transaction newer than
    it is frozen before and after; the batches asked for are exactly
    those down to the one that holds it.  So [locate] never returns the
    time of a transaction that did not freeze the account. *)
Theorem locate_sound (w : World) (fuel : nat) (a : Address)
    (st st' : State) (l : string) :
  locate w fuel a st = (Ret l, st') ->
  exists pre t cs,
    covers w a None (pre ++ [t]) cs /\
    Forall stays_frozen pre /\
    endStatus t = frozen /\ origStatus t <> frozen /\
    l = lt (id t) /\
    length cs <= fuel /\
    st' = record (map (GetTransactions a) cs) st.
Proof.
  intros H. unfold locate, bind in H.
  destruct (searchFreezeTransaction w fuel a None st) as [[[l0|]|e|] st1] eqn:Hs;
    try discriminate H.
  unfold ret in H. injection H as <- <-.
  apply (search_found_inv w a fuel None st l0 st1 Hs).
Qed.

Lemma locate_sound_witness :
  exists pre t cs,
    covers Demo.world Demo.A None (pre ++ [t]) cs /\
    Forall stays_frozen pre /\
    endStatus t = frozen /\ origStatus t <> frozen /\
    "20" = lt (id t) /\
    length cs <= 2 /\
    record [GetTransactions Demo.A None; GetTransactions Demo.A (Some Demo.c1)]
      Demo.st0
    = record (map (GetTransactions Demo.A) cs) Demo.st0.
Proof.
  apply (locate_sound Demo.world 2 Demo.A Demo.st0
           (record [GetTransactions Demo.A None;
                    GetTransactions Demo.A (Some Demo.c1)] Demo.st0) "20").
  vm_compute. reflexivity.
Defined.

(** X10: when [locate] fails with "Freeze transaction not found" that it
    raises itself, after a search that came to an end, the history was
    walked down to its last batch and every transaction in it is frozen
    before and after: the error is never raised while an older batch is
    still to be read. *)
Theorem locate_not_found_only_at_the_end (w : World) (fuel : nat) (a : Address)
    (st st' : State) :
  searchFreezeTransaction w fuel a None st = (Ret None, st') ->
  locate w fuel a st = (Throw (Error "Freeze transaction not found" None), st') /\
  exists l cs,
    exhausted w a None l cs /\
    Forall stays_frozen l /\
    length cs <= fuel /\
    st' = record (map (GetTransactions a) cs) st.
Proof.
  intros H. split.
  - unfold locate, bind. rewrite H. reflexivity.
  - apply (search_none_inv w a fuel None st st' H).
Qed.

Lemma locate_not_found_only_at_the_end_witness :
  locate Demo.world 1 Demo.G Demo.st0
  = (Throw (Error "Freeze transaction not found" None),
     record [GetTransactions Demo.G None] Demo.st0).
Proof.
  apply (proj1 (locate_not_found_only_at_the_end Demo.world 1 Demo.G Demo.st0
                  (record [GetTransactions Demo.G None] Demo.st0)
                  ltac:(vm_compute; reflexivity))).
Defined.

(** ** What a computation is confined to *)

Section Keeps.

Context (Pe : event -> Prop) (Pp : string -> Prop).

Lemma keeps_unchanged {A} (m : M A) :
  (forall st, snd (m st) = st) -> keeps Pe Pp m.
Proof.
  intros Hm st o st' H. pose proof (Hm st) as E. rewrite H in E. cbn in E. subst st'.
  repeat split; auto. exists []. split; [symmetry; apply app_nil_r | constructor].
Qed.

Lemma keeps_ret {A} (x : A) : keeps Pe Pp (ret x).
Proof. apply keeps_unchanged. reflexivity. Qed.

Lemma keeps_throw {A} (e : exn) : keeps Pe Pp (@throw A e).
Proof. apply keeps_unchanged. reflexivity. Qed.

Lemma keeps_pending {A} : keeps Pe Pp (@pending A).
Proof. apply keeps_unchanged. reflexivity. Qed.

Lemma keeps_settle {A} (o : outcome A) : keeps Pe Pp (settle o).
Proof. apply keeps_unchanged. reflexivity. Qed.

Lemma keeps_get_files : keeps Pe Pp get_files.
Proof. apply keeps_unchanged. reflexivity. Qed.

Lemma keeps_get_accounts : keeps Pe Pp get_accounts.
Proof. apply keeps_unchanged. reflexivity. Qed.

Lemma keeps_emit (e : event) : Pe e -> keeps Pe Pp (emit e).
Proof.
  intros He st o st' H. injection H as <- <-. repeat split; auto.
  exists [e]. split; [reflexivity | repeat constructor; assumption].
Qed.

Lemma keeps_set_file (path : string) (n : node) :
  Pp path -> keeps Pe Pp (set_file path n).
Proof.
  intros Hp st o st' H. injection H as <- <-. repeat split.
  - exists []. split; [symmetry; apply app_nil_r | constructor].
  - intros q Hq. cbn [files]. apply lookup_insert_ne. intros ->. contradiction.
Qed.

Lemma keeps_bind {A B} (m : M A) (k : A -> M B) :
  keeps Pe Pp m -> (forall x, keeps Pe Pp (k x)) -> keeps Pe Pp (bind m k).
Proof.
  intros Hm Hk st o st' H. unfold bind in H.
  destruct (m st) as [[x|e|] st1] eqn:E;
    destruct (Hm _ _ _ E) as ((es1 & E1 & F1) & Hf1 & Ha1).
  - destruct (Hk x _ _ _ H) as ((es2 & E2 & F2) & Hf2 & Ha2).
    repeat split.
    + exists (es1 ++ es2). split; [rewrite E2, E1, app_assoc; reflexivity|].
      apply Forall_app. split; assumption.
    + intros q Hq. rewrite (Hf2 q Hq). apply Hf1. exact Hq.
    + congruence.
  - injection H as <- <-. repeat split; eauto.
  - injection H as <- <-. repeat split; eauto.
Qed.

Lemma keeps_try_catch {A} (m : M A) (h : exn -> M A) :
  keeps Pe Pp m -> (forall e, keeps Pe Pp (h e)) -> keeps Pe Pp (try_catch m h).
Proof.
  intros Hm Hh st o st' H. unfold try_catch in H.
  destruct (m st) as [[x|e|] st1] eqn:E;
    destruct (Hm _ _ _ E) as ((es1 & E1 & F1) & Hf1 & Ha1).
  - injection H as <- <-. repeat split; eauto.
  - destruct (Hh e _ _ _ H) as ((es2 & E2 & F2) & Hf2 & Ha2).
    repeat split.
    + exists (es1 ++ es2). split; [rewrite E2, E1, app_assoc; reflexivity|].
      apply Forall_app. split; assumption.
    + intros q Hq. rewrite (Hf2 q Hq). apply Hf1. exact Hq.
    + congruence.
  - injection H as <- <-. repeat split; eauto.
Qed.

Lemma keeps_request {A} (e : event) (o : outcome A) :
  Pe e -> keeps Pe Pp (request e o).
Proof.
  intros He. unfold request. apply keeps_bind; [apply keeps_emit; exact He|].
  intros _. apply (keeps_settle o).
Qed.

End Keeps.

Lemma keeps_weaken (Pe Pe' : event -> Prop) (Pp Pp' : string -> Prop)
    {A} (m : M A) :
  (forall e, Pe e -> Pe' e) -> (forall p, Pp p -> Pp' p) ->
  keeps Pe Pp m -> keeps Pe' Pp' m.
Proof.
  intros He Hp Hm st o st' H.
  destruct (Hm _ _ _ H) as ((es & E & F) & Hf & Ha). repeat split.
  - exists es. split; [assumption|]. eapply Forall_impl; [exact F | exact He].
  - intros q Hq. apply Hf. intros Hq'. apply Hq. apply Hp. exact Hq'.
  - assumption.
Qed.

Ltac keeps_step :=
  first
    [ apply keeps_ret | apply keeps_throw | apply keeps_pending
    | apply keeps_settle | apply keeps_get_files | apply keeps_get_accounts
    | apply keeps_emit; cbn; auto
    | apply keeps_request; cbn; auto
    | apply keeps_set_file; auto
    | apply keeps_bind | apply keeps_try_catch
    | match goal with
      | |- forall _, _ => intro
      | |- keeps _ _ (match ?x with _ => _ end) => destruct x
      end ].

Ltac keeps_auto := repeat keeps_step.

Section KeepsProgram.

Variable w : World.

Lemma keeps_estimate (Pe : event -> Prop) (Pp : string -> Prop)
    (timestamp : Z) (a : Address) :
  (forall line, Pe (ConsoleLog line)) ->
  Pe (GetFullContractState a) ->
  (forall s m t, Pe (ComputeStorageFee s m t)) ->
  keeps Pe Pp (estimate w timestamp a).
Proof.
  intros Hlog Hget Hfee. unfold estimate, console_log.
  apply keeps_bind; [apply keeps_request; exact Hget|].
  intros [accountState|]; [|apply keeps_throw].
  apply keeps_bind; [apply keeps_request; apply Hfee|].
  intros account.
  destruct (negb (is_frozen (accountStatus account))
            && negb (is_nonexist (accountStatus account)));
    [apply keeps_throw|].
  apply keeps_bind; [apply keeps_emit; apply Hlog | intros _; apply keeps_ret].
Qed.

Lemma keeps_tryGet (Pe : event -> Prop) (Pp : string -> Prop)
    (ignoreCache : bool) (statePath : string) :
  Pe (FsStat statePath) -> Pe (FsReadFile statePath) ->
  keeps Pe Pp (tryGet w ignoreCache statePath).
Proof.
  intros Hstat Hread. unfold tryGet.
  destruct ignoreCache; cbn [negb]; [apply keeps_ret|].
  apply keeps_bind.
  - apply keeps_try_catch.
    + unfold fs.stat_isFile, fs.faulty.
      apply keeps_bind; [apply keeps_emit; exact Hstat|]. keeps_auto.
    + keeps_auto.
  - intros []; [|apply keeps_ret].
    apply keeps_bind; [|intros; apply keeps_ret].
    unfold fs.readFile, fs.faulty.
    apply keeps_bind; [apply keeps_emit; exact Hread|]. keeps_auto.
Qed.

Lemma keeps_search (Pe : event -> Prop) (Pp : string -> Prop)
    (fuel : nat) (a : Address) :
  (forall c, Pe (GetTransactions a c)) ->
  forall c, keeps Pe Pp (searchFreezeTransaction w fuel a c).
Proof.
  intros Hget. induction fuel as [|fuel IH]; intros c;
    cbn [searchFreezeTransaction]; [apply keeps_pending|].
  apply keeps_bind; [apply keeps_request; apply Hget|].
  intros b. destruct (scan (transactions b)); keeps_auto. apply IH.
Qed.

Lemma keeps_applyState (Pe : event -> Prop) (Pp : string -> Prop)
    (fuel : nat) (a : Address) :
  (forall line, Pe (ConsoleLog line)) ->
  (forall c, Pe (GetTransactions a c)) ->
  (forall url body, Pe (Fetch url body)) ->
  (forall b, Pe (ParseFullAccountStateInit b)) ->
  keeps Pe Pp (applyState w fuel a).
Proof.
  intros Hlog Hget Hfetch Hparse.
  unfold applyState, locate, reconstruct, console_log.
  apply keeps_bind; [apply keeps_emit; apply Hlog|]. intros _.
  apply keeps_bind.
  - apply keeps_bind; [apply keeps_search; exact Hget|]. keeps_auto.
  - intros l.
    apply keeps_bind; [apply keeps_emit; apply Hlog|]. intros _.
    apply keeps_bind; [apply keeps_request; apply Hfetch|]. intros res.
    apply keeps_bind.
    { destruct (ok res); keeps_auto. }
    intros parsed. apply keeps_bind.
    { destruct parsed; keeps_auto. }
    intros fullState.
    apply keeps_bind; [apply keeps_request; apply Hparse|]. keeps_auto.
Qed.

Lemma keeps_put (Pe : event -> Prop) (Pp : string -> Prop)
    (statePath state : string) :
  (forall data, Pe (FsWriteFile statePath data)) -> Pp statePath ->
  keeps Pe Pp (put w statePath state).
Proof.
  intros Hwrite Hp. unfold put, fs.writeFile, fs.faulty.
  apply keeps_bind; [apply keeps_emit; apply Hwrite|]. keeps_auto.
Qed.

Lemma keeps_prepareAccount (fuel : nat) (ignoreCache : bool) (timestamp : Z)
    (statePath : string) (a : Address) :
  keeps (prepare_event a statePath) (eq statePath)
    (prepareAccount w fuel ignoreCache timestamp statePath a).
Proof.
  unfold prepareAccount.
  apply keeps_bind;
    [apply keeps_estimate; intros; cbn; auto|].
  intros d. apply keeps_bind;
    [apply keeps_tryGet; cbn; auto|].
  intros [data|].
  - unfold console_log. keeps_auto.
  - apply keeps_bind; [apply keeps_applyState; intros; cbn; auto|].
    intros s. apply keeps_bind; [apply keeps_put; intros; cbn; auto|].
    unfold console_log. keeps_auto.
Qed.

End KeepsProgram.

(** X11: the preparation of one account is confined to that account,
    whatever its outcome: it asks the provider only about this account,
    looks at and writes no file but the state file of this account,
    leaves every other file and the accounts storage as they are, and
    neither sends a message nor writes to the error console. *)
Theorem prepareAccount_is_confined (w : World) (fuel : nat) (ignoreCache : bool)
    (timestamp : Z) (statePath : string) (a : Address) (st : State) :
  let st' := snd (prepareAccount w fuel ignoreCache timestamp statePath a st) in
  (exists es,
      events st' = events st ++ es /\
      Forall (prepare_event a statePath) es /\
      sent es = [] /\ errors es = []) /\
  (forall p, p <> statePath -> files st' !! p = files st !! p) /\
  accountsStorage st' = accountsStorage st.
Proof.
  intros st'.
  destruct (prepareAccount w fuel ignoreCache timestamp statePath a st)
    as [o st1] eqn:H.
  destruct (keeps_prepareAccount w fuel ignoreCache timestamp statePath a _ _ _ H)
    as ((es & E & F) & Hf & Ha).
  subst st'. cbn [snd]. repeat split.
  - exists es. repeat split; try assumption.
    + clear E. induction F as [|e es He _ IH]; [reflexivity|].
      destruct e; try contradiction; exact IH.
    + clear E. induction F as [|e es He _ IH]; [reflexivity|].
      destruct e; try contradiction; exact IH.
  - intros p Hp. apply Hf. intros E'. apply Hp. symmetry. exact E'.
  - exact Ha.
Qed.

(** ** Making the cache directory *)

Section Mkdir.

Variable w : World.

Lemma make_directories_other (dirs : list string) :
  forall fsys fsys' p,
    fs.make_directories dirs fsys = Some fsys' ->
    ~ In p dirs ->
    fsys' !! p = fsys !! p.
Proof.
  induction dirs as [|d above IH]; intros fsys fsys' p H Hp.
  - injection H as <-. reflexivity.
  - cbn [fs.make_directories] in H.
    destruct (fsys !! d) as [[data|]|] eqn:Hd.
    + discriminate H.
    + injection H as <-. reflexivity.
    + destruct (fs.make_directories above fsys) as [fsys1|] eqn:H1;
        [|discriminate H].
      injection H as <-.
      rewrite lookup_insert_ne by (intros ->; apply Hp; left; reflexivity).
      apply (IH _ _ _ H1). intros Hin. apply Hp. right. exact Hin.
Qed.

(** [fs.mkdir] is one call, and it changes nothing but the directory and
    the directories above it. *)
Lemma mkdir_spec (path : string) (st : State) (o : outcome unit) (st' : State) :
  fs.mkdir w path st = (o, st') ->
  events st' = events st ++ [FsMkdir path] /\
  accountsStorage st' = accountsStorage st /\
  (forall p, p <> path -> ~ In p (fs.ancestors (path_sep w) path) ->
             files st' !! p = files st !! p).
Proof.
  unfold fs.mkdir, fs.faulty, bind. rewrite emit_eq.
  destruct (fs_fault w OpMkdir path) as [e|].
  - intros H. injection H as _ <-. auto.
  - unfold get_files. cbn [files record].
    destruct (files st !! path) as [[data|]|].
    + intros H. injection H as _ <-. auto.
    + intros H. injection H as _ <-. auto.
    + destruct (fs.make_directories _ (files st)) as [fsys'|] eqn:Hmk.
      * intros H. injection H as _ <-. cbn. repeat split.
        intros p Hp Ha. rewrite lookup_insert_ne by congruence.
        apply (make_directories_other _ _ _ _ Hmk Ha).
      * intros H. injection H as _ <-. auto.
Qed.

End Mkdir.

(** ** The results of preparing the states *)

Section Results.

Variable w : World.
Variable fuel : nat.
Variable ignoreCache : bool.
Variable cacheDirPath : string.
Variable timestamp : Z.
Variable total : nat.

Lemma prepareAccount_address (statePath : string) (a : Address)
    (st st' : State) (item : FrozenAccount) :
  prepareAccount w fuel ignoreCache timestamp statePath a st = (Ret item, st') ->
  address item = a.
Proof.
  intros H. unfold prepareAccount, bind in H.
  destruct (estimate w timestamp a st) as [[d|e|] st1]; try discriminate H.
  destruct (tryGet w ignoreCache statePath st1) as [[[data|]|e|] st2];
    try discriminate H.
  - rewrite console_log_eq in H. unfold ret in H. injection H as <- _. reflexivity.
  - destruct (applyState w fuel a st2) as [[s|e|] st3]; try discriminate H.
    destruct (put w statePath s st3) as [[[]|e|] st4]; try discriminate H.
    rewrite console_log_eq in H. unfold ret in H. injection H as <- _. reflexivity.
Qed.

Lemma errors_app (es1 es2 : list event) :
  errors (es1 ++ es2) = errors es1 ++ errors es2.
Proof. apply omap_app. Qed.

Lemma prepareAccount_no_errors (statePath : string) (a : Address)
    (st : State) (o : outcome FrozenAccount) (st' : State) :
  prepareAccount w fuel ignoreCache timestamp statePath a st = (o, st') ->
  exists es, events st' = events st ++ es /\ errors es = [].
Proof.
  intros H.
  destruct (keeps_prepareAccount w fuel ignoreCache timestamp statePath a _ _ _ H)
    as ((es & E & F) & _ & _).
  exists es. split; [assumption|].
  clear E. induction F as [|e es He _ IH]; [reflexivity|].
  destruct e; try contradiction; exact IH.
Qed.

Lemma prepareStates_loop_results (accounts : list Address) :
  forall current result st,
    let r := prepareStates_loop w fuel ignoreCache cacheDirPath timestamp total
               current result accounts st in
    exists es,
      events (snd r) = events st ++ es /\
      length (errors es) <= length accounts /\
      forall result',
        fst r = Ret result' ->
        exists items,
          result' = result ++ items /\
          sublist (map address items) accounts /\
          length items + length (errors es) = length accounts.
Proof.
  induction accounts as [|a rest IH]; intros current result st r; subst r.
  - exists []. cbn. rewrite app_nil_r. repeat split; [lia|].
    intros result' H. injection H as <-. exists [].
    rewrite app_nil_r. repeat split. constructor.
  - rewrite prepareStates_loop_cons.
    destruct (prepareAccount w fuel ignoreCache timestamp _ a _) as [o st1] eqn:Hp.
    destruct (prepareAccount_no_errors _ _ _ _ _ Hp) as (es1 & E1 & N1).
    rewrite events_record in E1.
    destruct o as [item|e|].
    + specialize (IH (S current) (result ++ [item]) st1). cbn zeta in IH.
      destruct IH as (es2 & E2 & L2 & R2).
      exists ([ConsoleLog (preparing_line (S current) total a)] ++ es1 ++ es2).
      split; [rewrite E2, E1; list_norm; reflexivity|].
      rewrite !errors_app, N1. cbn [errors omap Datatypes.app length].
      split; [change (errors es2) with (errors es2) in *; cbn; lia|].
      intros result' H. destruct (R2 result' H) as (items & -> & S2 & Len).
      exists (item :: items). split; [rewrite <- app_assoc; reflexivity|].
      cbn [map length]. rewrite (prepareAccount_address _ _ _ _ _ Hp).
      split; [apply sublist_skip; exact S2 | cbn; lia].
    + destruct (unreadable "message" e) as [typeError|].
      { exists ([ConsoleLog (preparing_line (S current) total a)] ++ es1).
        cbn [fst snd]. split; [rewrite E1; list_norm; reflexivity|].
        rewrite !errors_app, N1. cbn. split; [lia|]. discriminate. }
      specialize (IH (S current) result
                    (record [ConsoleError ("  skipping: " +:+ exn_message e)] st1)).
      cbn zeta in IH. destruct IH as (es2 & E2 & L2 & R2).
      rewrite events_record in E2.
      exists ([ConsoleLog (preparing_line (S current) total a)] ++ es1
              ++ [ConsoleError ("  skipping: " +:+ exn_message e)] ++ es2).
      split; [rewrite E2, E1; list_norm; reflexivity|].
      rewrite !errors_app, N1. cbn [errors omap Datatypes.app length].
      split; [cbn; lia|].
      intros result' H. destruct (R2 result' H) as (items & -> & S2 & Len).
      exists items. split; [reflexivity|].
      split; [apply sublist_cons; exact S2 | cbn; lia].
    + exists ([ConsoleLog (preparing_line (S current) total a)] ++ es1).
      cbn [fst snd]. split; [rewrite E1; list_norm; reflexivity|].
      rewrite !errors_app, N1. cbn. split; [lia|]. discriminate.
Qed.

End Results.

(** X12: when [prepareStates] returns, the accounts of its results are
    accounts of the list it was given, in the order of that list and each
    at most as often as it is listed; and every listed account has either
    a result or one line on the error console: the number of results and
    the number of such lines add up to the length of the list. *)
Theorem prepareStates_results_follow_the_list (w : World) (fuel : nat)
    (accounts : list Address) (ignoreCache : bool) (st : State) :
  let r := prepareStates w fuel accounts ignoreCache st in
  forall result,
    fst r = Ret result ->
    sublist (map address result) accounts /\
    exists es,
      events (snd r) = events st ++ es /\
      length result + length (errors es) = length accounts.
Proof.
  intros r result H. subst r.
  unfold prepareStates, bind in *.
  destruct (fs.mkdir w _ st) as [[[]|e|] st1] eqn:Hm; try discriminate H.
  assert (Em : events st1
               = events st ++ [FsMkdir (path_join w (os_tmpdir w) CACHE_DIR)]).
  { exact (proj1 (mkdir_spec w _ _ _ _ Hm)). }
  pose proof (prepareStates_loop_results w fuel ignoreCache
                (path_join w (os_tmpdir w) CACHE_DIR) (timestamp_of w)
                (length accounts) accounts 0 [] st1) as Hl.
  cbn zeta in Hl. destruct Hl as (es & E & _ & R).
  destruct (R result H) as (items & -> & Hsub & Hlen).
  split; [exact Hsub|].
  exists (FsMkdir (path_join w (os_tmpdir w) CACHE_DIR) :: es).
  split; [rewrite E, Em; list_norm; reflexivity|].
  cbn [errors omap]. cbn [Datatypes.app] in *. exact Hlen.
Qed.

Lemma prepareStates_results_follow_the_list_witness :
  sublist [Demo.A; Demo.F] [Demo.B; Demo.A; Demo.V; Demo.F] /\
  exists es,
    events (snd (prepareStates Demo.world 2 [Demo.B; Demo.A; Demo.V; Demo.F]
                   false Demo.st0))
    = events Demo.st0 ++ es /\
    2 + length (errors es) = 4.
Proof.
  apply (prepareStates_results_follow_the_list Demo.world 2
           [Demo.B; Demo.A; Demo.V; Demo.F] false Demo.st0
           [mkFrozenAccount Demo.A "QUJD" "5"; mkFrozenAccount Demo.F "QUJD" "5"]).
  vm_compute. reflexivity.
Defined.

(** ** What preparing the states touches *)

Section Confined.

Variable w : World.
Variable fuel : nat.
Variable ignoreCache : bool.
Variable cacheDirPath : string.
Variable timestamp : Z.
Variable total : nat.
Variable accounts : list Address.

Lemma prepare_event_quiet (a : Address) (p : string) (e : event) :
  prepare_event a p e -> quiet_event e.
Proof. destruct e; cbn; auto. Qed.

Lemma keeps_prepareStates_loop (rest : list Address) :
  (forall a, In a rest -> In a accounts) ->
  forall current result,
    keeps quiet_event (cache_path w cacheDirPath accounts)
      (prepareStates_loop w fuel ignoreCache cacheDirPath timestamp total
         current result rest).
Proof.
  induction rest as [|a rest IH]; intros Hin current result;
    cbn [prepareStates_loop]; [apply keeps_ret|].
  apply keeps_bind; [apply keeps_emit; exact I|]. intros _.
  apply keeps_bind.
  - apply keeps_try_catch.
    + apply keeps_bind; [|intros; apply keeps_ret].
      apply (keeps_weaken (prepare_event a (path_join w cacheDirPath (toString a)))
               quiet_event (eq (path_join w cacheDirPath (toString a)))
               (cache_path w cacheDirPath accounts)).
      * apply prepare_event_quiet.
      * intros p <-. right. right. exists a.
        split; [apply Hin; left|]; reflexivity.
      * apply keeps_prepareAccount.
    + intros e. destruct (unreadable "message" e); [apply keeps_throw|].
      apply keeps_bind; [apply keeps_emit; exact I|].
      intros _. apply keeps_ret.
  - intros item. apply IH. intros b Hb. apply Hin. right. exact Hb.
Qed.

Lemma keeps_mkdir (Pe : event -> Prop) (Pp : string -> Prop) (p : string) :
  Pe (FsMkdir p) -> Pp p ->
  (forall q, In q (fs.ancestors (path_sep w) p) -> Pp q) ->
  keeps Pe Pp (fs.mkdir w p).
Proof.
  intros He Hp Hup st o st' H.
  destruct (mkdir_spec w _ _ _ _ H) as (E & Ha & Hf).
  split; [|split].
  - exists [FsMkdir p]. split; [exact E|]. constructor; [exact He | constructor].
  - intros q Hq. apply Hf.
    + intros ->. apply Hq. exact Hp.
    + intros Hin. apply Hq. apply Hup. exact Hin.
  - exact Ha.
Qed.

Lemma quiet_sent (es : list event) :
  Forall quiet_event es -> sent es = [] /\ traced es = [].
Proof.
  induction 1 as [|e es He _ [IH1 IH2]]; [split; reflexivity|].
  destruct e; try contradiction; split; assumption.
Qed.

End Confined.

(** X13: preparing the states, whatever its outcome, sends no message and
    awaits no confirmation, leaves the accounts storage as it is, and
    changes no file other than the cache directory, the directories above
    it (which are made with it where they are missing) and the state
    files of the listed accounts; the keys file and the address list, for
    instance, are as before unless they sit at such a path. *)
Theorem prepareStates_is_confined_to_the_cache (w : World) (fuel : nat)
    (accounts : list Address) (ignoreCache : bool) (st : State) :
  let cacheDirPath := path_join w (os_tmpdir w) CACHE_DIR in
  let st' := snd (prepareStates w fuel accounts ignoreCache st) in
  (exists es, events st' = events st ++ es /\ sent es = [] /\ traced es = []) /\
  accountsStorage st' = accountsStorage st /\
  (forall p,
      p <> cacheDirPath ->
      ~ In p (fs.ancestors (path_sep w) cacheDirPath) ->
      (forall a, In a accounts -> p <> path_join w cacheDirPath (toString a)) ->
      files st' !! p = files st !! p).
Proof.
  intros cacheDirPath st'. subst st'.
  destruct (prepareStates w fuel accounts ignoreCache st) as [o st1] eqn:H.
  assert (K : keeps quiet_event (cache_path w cacheDirPath accounts)
                (prepareStates w fuel accounts ignoreCache)).
  { unfold prepareStates. apply keeps_bind.
    - apply keeps_mkdir; [exact I | left; reflexivity |].
      intros q Hq. right. left. exact Hq.
    - intros _. apply keeps_prepareStates_loop. auto. }
  destruct (K _ _ _ H) as ((es & E & F) & Hf & Ha).
  cbn [snd]. split; [|split].
  - exists es. split; [assumption | apply quiet_sent; assumption].
  - exact Ha.
  - intros p Hp Hup Hacc. apply Hf. intros [-> | [Hin | (a & Hin & ->)]].
    + apply Hp. reflexivity.
    + apply Hup. exact Hin.
    + apply (Hacc a Hin). reflexivity.
Qed.

(** ** A state that is in the cache *)

Section CacheHit.

Variable w : World.

Lemma tryGet_some_inv (statePath state : string) (st st' : State) :
  tryGet w false statePath st = (Ret (Some state), st') ->
  exists data,
    files st !! statePath = Some (File data) /\ state = Base64.encode data /\
    files st' = files st.
Proof.
  unfold tryGet, try_catch, fs.stat_isFile, fs.readFile, fs.faulty, bind,
    emit, get_files, ret, throw.
  cbn. intros H.
  destruct (fs_fault w OpStat statePath) as [e|].
  - destruct (exn_code e) as [code|]; try discriminate H.
    destruct (String.eqb code "ENOENT"); discriminate H.
  - cbn in H. destruct (files st !! statePath) as [[data|]|] eqn:Hfile;
      cbn in H; try discriminate H.
    destruct (fs_fault w OpReadFile statePath); try discriminate H.
    cbn in H. rewrite Hfile in H. injection H as <- <-.
    exists data. auto.
Qed.

Lemma prepareAccount_leaves_state_file (fuel : nat) (ignoreCache : bool)
    (timestamp : Z) (statePath : string) (a : Address)
    (st st' : State) (item : FrozenAccount) :
  prepareAccount w fuel ignoreCache timestamp statePath a st = (Ret item, st') ->
  files st' !! statePath = Some (File (Base64.decode (state item))).
Proof.
  intros H. unfold prepareAccount, bind in H.
  destruct (estimate w timestamp a st) as [[d|e|] st1] eqn:He; try discriminate H.
  apply estimate_returns in He. destruct He as (s & acc & _ & _ & _ & _ & ->).
  destruct (tryGet w ignoreCache statePath _) as [[[x|]|e|] st2] eqn:Ht;
    try discriminate H.
  - rewrite console_log_eq in H. unfold ret in H. injection H as <- <-.
    destruct ignoreCache; [discriminate Ht|].
    apply tryGet_some_inv in Ht. destruct Ht as (data & Hfile & -> & Hfiles).
    cbn [state files record]. rewrite Hfiles. cbn [files record].
    rewrite decode_encode. exact Hfile.
  - destruct (applyState w fuel a st2) as [[s'|e|] st3]; try discriminate H.
    destruct (put w statePath s' st3) as [[[]|e|] st4] eqn:Hp; try discriminate H.
    apply put_stores in Hp. subst st4.
    rewrite console_log_eq in H. unfold ret in H. injection H as <- <-.
    cbn [state files record]. apply lookup_insert_eq.
Qed.

Lemma prepareAccount_hit (fuel : nat) (timestamp : Z) (statePath : string)
    (a : Address) (data : list byte) (d : string) (st st1 : State) :
  files st !! statePath = Some (File data) ->
  fs_fault w OpStat statePath = None ->
  fs_fault w OpReadFile statePath = None ->
  estimate w timestamp a st = (Ret d, st1) ->
  prepareAccount w fuel false timestamp statePath a st
  = (Ret (mkFrozenAccount a (Base64.encode data) d),
     record [ FsStat statePath; FsReadFile statePath;
              ConsoleLog "  using cached state" ] st1).
Proof.
  intros Hfile Hs Hr He.
  unfold prepareAccount, bind. rewrite He.
  pose proof (estimate_returns w _ _ _ _ _ He) as (s & acc & _ & _ & _ & _ & E1).
  rewrite (tryGet_hit w statePath data st1); try assumption.
  - rewrite console_log_eq, record_record. reflexivity.
  - rewrite E1. exact Hfile.
Qed.

End CacheHit.

(** X14: for an account whose state file is in the cache, with the cache
    in use, the preparation consists of the debt estimate and the reading
    of the file: the item carries the base64 text of the file's bytes,
    and neither the transaction history nor the states service nor the
    state decoder is asked, however little fuel there is for a search. *)
Theorem cached_state_spares_the_search (w : World) (fuel : nat) (timestamp : Z)
    (statePath : string) (a : Address) (data : list byte) (d : string)
    (st st1 : State) :
  files st !! statePath = Some (File data) ->
  fs_fault w OpStat statePath = None ->
  fs_fault w OpReadFile statePath = None ->
  estimate w timestamp a st = (Ret d, st1) ->
  prepareAccount w fuel false timestamp statePath a st
  = (Ret (mkFrozenAccount a (Base64.encode data) d),
     record [ FsStat statePath; FsReadFile statePath;
              ConsoleLog "  using cached state" ] st1) /\
  stages (drop (length (events st))
            (events (snd (prepareAccount w fuel false timestamp statePath a st))))
  = [ StorageDebtEstimator; StorageDebtEstimator;
      StateCacheLookup; StateCacheLookup ].
Proof.
  intros Hfile Hs Hr He.
  pose proof (prepareAccount_hit w fuel timestamp statePath a data d st st1
                Hfile Hs Hr He) as H.
  split; [exact H|].
  rewrite H. cbn [snd].
  pose proof (estimate_returns w _ _ _ _ _ He) as (s & acc & _ & _ & _ & _ & ->).
  rewrite record_record, events_record, drop_app_length. reflexivity.
Qed.

Lemma cached_state_spares_the_search_witness :
  prepareAccount Demo.world 0 false Demo.timestamp (Demo.statePath Demo.A)
    Demo.A Demo.cached
  = (Ret (mkFrozenAccount Demo.A (Base64.encode [x00; x01]) "5"),
     record [ FsStat (Demo.statePath Demo.A); FsReadFile (Demo.statePath Demo.A);
              ConsoleLog "  using cached state" ]
       (snd (estimate Demo.world Demo.timestamp Demo.A Demo.cached))).
Proof.
  apply (proj1 (cached_state_spares_the_search Demo.world 0 Demo.timestamp
                  (Demo.statePath Demo.A) Demo.A [x00; x01] "5" Demo.cached
                  (snd (estimate Demo.world Demo.timestamp Demo.A Demo.cached))
                  ltac:(vm_compute; reflexivity) eq_refl eq_refl
                  ltac:(vm_compute; reflexivity))).
Defined.

(** X15: once an account has been prepared, a later preparation of the
    same account with the cache in use, in any state in which its state
    file is as the first preparation left it, takes the state from the
    cache: it returns a state with the same bytes as the first one, with
    the debt of the new estimate, without any request for transactions or
    to the states service. *)
Theorem second_preparation_reads_the_cache (w : World) (fuel fuel' : nat)
    (ignoreCache : bool) (timestamp timestamp' : Z) (statePath : string)
    (a : Address) (item : FrozenAccount) (d' : string)
    (st st1 st2 st3 : State) :
  prepareAccount w fuel ignoreCache timestamp statePath a st = (Ret item, st1) ->
  fs_fault w OpStat statePath = None ->
  fs_fault w OpReadFile statePath = None ->
  files st2 !! statePath = files st1 !! statePath ->
  estimate w timestamp' a st2 = (Ret d', st3) ->
  exists state',
    prepareAccount w fuel' false timestamp' statePath a st2
    = (Ret (mkFrozenAccount a state' d'),
       record [ FsStat statePath; FsReadFile statePath;
                ConsoleLog "  using cached state" ] st3) /\
    Base64.decode state' = Base64.decode (state item) /\
    (forall bytes, state item = Base64.encode bytes -> state' = state item).
Proof.
  intros H1 Hs Hr Hfiles He.
  pose proof (prepareAccount_leaves_state_file w _ _ _ _ _ _ _ _ H1) as Hfile.
  rewrite <- Hfiles in Hfile.
  exists (Base64.encode (Base64.decode (state item))).
  split; [|split].
  - apply prepareAccount_hit; assumption.
  - apply decode_encode.
  - intros bytes ->. rewrite decode_encode. reflexivity.
Qed.

Lemma second_preparation_reads_the_cache_witness :
  exists state',
    prepareAccount Demo.world 0 false Demo.timestamp (Demo.statePath Demo.A) Demo.A
      (snd (prepareAccount Demo.world 2 true Demo.timestamp
              (Demo.statePath Demo.A) Demo.A Demo.st0))
    = (Ret (mkFrozenAccount Demo.A state' "5"),
       record [ FsStat (Demo.statePath Demo.A); FsReadFile (Demo.statePath Demo.A);
                ConsoleLog "  using cached state" ]
         (snd (estimate Demo.world Demo.timestamp Demo.A
                 (snd (prepareAccount Demo.world 2 true Demo.timestamp
                         (Demo.statePath Demo.A) Demo.A Demo.st0))))) /\
    Base64.decode state' = Base64.decode "QUJD" /\
    (forall bytes, "QUJD" = Base64.encode bytes -> state' = "QUJD").
Proof.
  apply (second_preparation_reads_the_cache Demo.world 2 0 true
           Demo.timestamp Demo.timestamp (Demo.statePath Demo.A) Demo.A
           (mkFrozenAccount Demo.A "QUJD" "5") "5" Demo.st0
           (snd (prepareAccount Demo.world 2 true Demo.timestamp
                   (Demo.statePath Demo.A) Demo.A Demo.st0))).
  - vm_compute. reflexivity.
  - reflexivity.
  - reflexivity.
  - reflexivity.
  - vm_compute. reflexivity.
Defined.

(** ** Failures that the preparation of an account meets *)

(** X16: when the states service answers with a status that is not ok,
    what is thrown is the text of its answer, a string and not an
    [Error]; the account is skipped like any failing account, but the
    line on the error console reads "  skipping: undefined" and the text
    of the answer is not in it.  The state decoder is not called and
    nothing is written to the cache. *)
Theorem states_service_answer_is_missing_from_the_log (w : World) (fuel : nat)
    (ignoreCache : bool) (cacheDirPath : string) (timestamp : Z)
    (total current : nat) (result : list FrozenAccount)
    (a : Address) (rest : list Address)
    (d l t : string) (res : Response) (st st1 st2 st3 : State) :
  let statePath := path_join w cacheDirPath (toString a) in
  estimate w timestamp a
    (record [ConsoleLog (preparing_line (S current) total a)] st) = (Ret d, st1) ->
  tryGet w ignoreCache statePath st1 = (Ret None, st2) ->
  locate w fuel a (record [ConsoleLog "  searching for freeze transaction"] st2)
  = (Ret l, st3) ->
  fetch w (STATES_API_URL +:+ "/apply") (apply_body a l) = Ret res ->
  ok res = false ->
  res_text res = Ret t ->
  prepareStates_loop w fuel ignoreCache cacheDirPath timestamp total
    current result (a :: rest) st
  = prepareStates_loop w fuel ignoreCache cacheDirPath timestamp total
      (S current) result rest
      (record [ ConsoleLog ("  applying state at logical time " +:+ l);
                Fetch (STATES_API_URL +:+ "/apply") (apply_body a l);
                ConsoleError "  skipping: undefined" ] st3).
Proof.
  intros statePath He Ht Hl Hf Hok Htext.
  rewrite prepareStates_loop_cons.
  assert (Hp : prepareAccount w fuel ignoreCache timestamp statePath a
                 (record [ConsoleLog (preparing_line (S current) total a)] st)
               = (Throw (Thrown t),
                  record [ ConsoleLog ("  applying state at logical time " +:+ l);
                           Fetch (STATES_API_URL +:+ "/apply") (apply_body a l) ]
                    st3)).
  { unfold prepareAccount, bind. rewrite He, Ht.
    unfold applyState, bind. rewrite console_log_eq, Hl, console_log_eq.
    unfold reconstruct, bind. rewrite request_eq, Hf, Hok.
    unfold settle. rewrite Htext. unfold throw.
    rewrite record_record. reflexivity. }
  fold statePath. rewrite Hp. cbn [exn_message].
  rewrite record_record. reflexivity.
Qed.

Lemma states_service_answer_is_missing_from_the_log_witness :
  errors (events (snd (prepareStates_loop Scenario.service_down 2 false
                         Demo.cacheDirPath Demo.timestamp 1 0 [] [Demo.A] Demo.st0)))
  = ["  skipping: undefined"].
Proof.
  rewrite (states_service_answer_is_missing_from_the_log Scenario.service_down 2
             false Demo.cacheDirPath Demo.timestamp 1 0 [] Demo.A []
             "5" "20" "state not found"
             (mkResponse false (Throw (Error "Unexpected token" None))
                (Ret "state not found"))
             Demo.st0
             (snd (estimate Scenario.service_down Demo.timestamp Demo.A
                     (record [ConsoleLog (preparing_line 1 1 Demo.A)] Demo.st0)))
             (record [FsStat (Demo.statePath Demo.A)]
                (snd (estimate Scenario.service_down Demo.timestamp Demo.A
                        (record [ConsoleLog (preparing_line 1 1 Demo.A)] Demo.st0))))
             (record [ ConsoleLog "  searching for freeze transaction";
                       GetTransactions Demo.A None;
                       GetTransactions Demo.A (Some Demo.c1) ]
                (record [FsStat (Demo.statePath Demo.A)]
                   (snd (estimate Scenario.service_down Demo.timestamp Demo.A
                           (record [ConsoleLog (preparing_line 1 1 Demo.A)]
                              Demo.st0)))))).
  - vm_compute. reflexivity.
  - vm_compute. reflexivity.
  - vm_compute. reflexivity.
  - vm_compute. reflexivity.
  - reflexivity.
  - reflexivity.
  - reflexivity.
Defined.

(** X17: the cache lookup decides by [stat] alone.  A state file that is
    not there, a directory in its place, and a [stat] that fails with the
    code ENOENT all count as a miss, without the file being read; a
    [stat] that fails with any other code, or with none, makes the lookup
    fail with that very error, again without reading. *)
Theorem tryGet_decides_by_stat (w : World) (statePath : string) (st : State) :
  (fs_fault w OpStat statePath = None ->
   files st !! statePath = None \/ files st !! statePath = Some Directory ->
   tryGet w false statePath st = (Ret None, record [FsStat statePath] st)) /\
  (forall e,
      fs_fault w OpStat statePath = Some e ->
      exn_code e = Some "ENOENT" ->
      tryGet w false statePath st = (Ret None, record [FsStat statePath] st)) /\
  (forall e,
      fs_fault w OpStat statePath = Some e ->
      exn_code e <> Some "ENOENT" ->
      tryGet w false statePath st = (Throw e, record [FsStat statePath] st)).
Proof.
  unfold tryGet, try_catch, fs.stat_isFile, fs.faulty, bind. cbn [negb].
  rewrite emit_eq. split; [|split].
  - intros Hf Hfile. rewrite Hf. unfold get_files. cbn [files record].
    destruct Hfile as [-> | ->]; reflexivity.
  - intros e Hf Hc. rewrite Hf. unfold throw. rewrite Hc. reflexivity.
  - intros e Hf Hc. rewrite Hf. unfold throw.
    destruct (exn_code e) as [code|]; [|reflexivity].
    destruct (String.eqb_spec code "ENOENT") as [->|]; [contradiction|reflexivity].
Qed.

Lemma tryGet_decides_by_stat_witness :
  tryGet Demo.world false (Demo.statePath Demo.A) Demo.st0
  = (Ret None, record [FsStat (Demo.statePath Demo.A)] Demo.st0) /\
  tryGet Scenario.lost_cache false (Demo.statePath Demo.A) Demo.cached
  = (Ret None, record [FsStat (Demo.statePath Demo.A)] Demo.cached) /\
  tryGet Scenario.locked_cache false (Demo.statePath Demo.A) Demo.cached
  = (Throw (Scenario.EACCES (Demo.statePath Demo.A)),
     record [FsStat (Demo.statePath Demo.A)] Demo.cached).
Proof.
  split; [|split].
  - apply (proj1 (tryGet_decides_by_stat Demo.world (Demo.statePath Demo.A) Demo.st0)).
    + reflexivity.
    + left. vm_compute. reflexivity.
  - apply (proj1 (proj2 (tryGet_decides_by_stat Scenario.lost_cache
                           (Demo.statePath Demo.A) Demo.cached))
             (fs.ENOENT "stat" (Demo.statePath Demo.A))).
    + reflexivity.
    + reflexivity.
  - apply (proj2 (proj2 (tryGet_decides_by_stat Scenario.locked_cache
                           (Demo.statePath Demo.A) Demo.cached))
             (Scenario.EACCES (Demo.statePath Demo.A))).
    + reflexivity.
    + discriminate.
Defined.

(** ** The loop over the prepared states *)

Section Unfreeze.

Variable w : World.
Variables microwaveAddress giverAddress : Address.
Variable targetBalance : string.

Lemma sent_app (es1 es2 : list event) : sent (es1 ++ es2) = sent es1 ++ sent es2.
Proof. apply omap_app. Qed.


Lemma unfreezeAccount_events (item : FrozenAccount) (st : State) :
  let r := unfreezeAccount w microwaveAddress giverAddress targetBalance item st in
  files (snd r) = files st /\
  accountsStorage (snd r) = accountsStorage st /\
  exists es,
    events (snd r) = events st ++ es /\
    ((fst r = Ret tt /\ sent es = [address item] /\ length (traced es) = 1) \/
     (fst r <> Ret tt /\ sent es = [] /\ traced es = []) \/
     (fst r <> Ret tt /\ sent es = [address item] /\ length (traced es) <= 1)).
Proof.
  intros r. subst r. unfold unfreezeAccount, bind.
  destruct (funding_amount (storageFeeDebt item) targetBalance st) as [o0 st0] eqn:Hfa.
  assert (Hst0 : st0 = st).
  { unfold funding_amount, bind, BigInt in Hfa.
    destruct (BigIntM.parse (storageFeeDebt item));
      [|injection Hfa as _ <-; reflexivity].
    unfold ret at 1 in Hfa.
    destruct (BigIntM.parse targetBalance); injection Hfa as _ <-; reflexivity. }
  subst st0.
  assert (Hnone : forall o : outcome unit,
             o <> Ret tt ->
             files (snd (o, st)) = files st /\
             accountsStorage (snd (o, st)) = accountsStorage st /\
             exists es,
               events (snd (o, st)) = events st ++ es /\
               ((fst (o, st) = Ret tt /\ sent es = [address item]
                 /\ length (traced es) = 1) \/
                (fst (o, st) <> Ret tt /\ sent es = [] /\ traced es = []) \/
                (fst (o, st) <> Ret tt /\ sent es = [address item]
                 /\ length (traced es) <= 1))).
  { intros o Ho. cbn [fst snd]. repeat split. exists [].
    rewrite app_nil_r. split; [reflexivity|]. right. left. auto. }
  destruct o0 as [amount|e|]; [|apply Hnone; discriminate..].
  clear Hnone.
  rewrite console_log_eq. unfold get_accounts. rewrite request_eq.
  destruct (send w _ _) as [tx|e|].
  - rewrite console_log_eq, request_eq.
    destruct (trace_finished w tx) as [[]|e|].
    + rewrite console_log_eq. cbn [fst snd]. repeat split.
      eexists. split; [rewrite !record_record, events_record; reflexivity|].
      left. repeat split.
    + cbn [fst snd]. repeat split.
      eexists. split; [rewrite !record_record, events_record; reflexivity|].
      right. right. repeat split; [discriminate | cbn; lia].
    + cbn [fst snd]. repeat split.
      eexists. split; [rewrite !record_record, events_record; reflexivity|].
      right. right. repeat split; [discriminate | cbn; lia].
  - cbn [fst snd]. repeat split.
    eexists. split; [rewrite !record_record, events_record; reflexivity|].
    right. right. repeat split; [discriminate | cbn; lia].
  - cbn [fst snd]. repeat split.
    eexists. split; [rewrite !record_record, events_record; reflexivity|].
    right. right. repeat split; [discriminate | cbn; lia].
Qed.

End Unfreeze.


Section UnfreezeMessages.

Variable w : World.
Variables microwaveAddress giverAddress : Address.
Variable targetBalance : string.

Lemma unfreeze_event_mono (states states' : list FrozenAccount) (e : event) :
  (forall item, In item states -> In item states') ->
  unfreeze_event microwaveAddress giverAddress targetBalance states e ->
  unfreeze_event microwaveAddress giverAddress targetBalance states' e.
Proof.
  intros Hin. destruct e; cbn; auto.
  intros (item & d & t & Hi & H). exists item, d, t. split; [apply Hin|]; assumption.
Qed.

Lemma unfreezeAccount_messages (item : FrozenAccount) (st : State) :
  exists es,
    events (snd (unfreezeAccount w microwaveAddress giverAddress targetBalance
                   item st))
    = events st ++ es /\
    Forall (unfreeze_event microwaveAddress giverAddress targetBalance [item]) es.
Proof.
  unfold unfreezeAccount, bind, funding_amount, bind, BigInt.
  destruct (BigIntM.parse (storageFeeDebt item)) as [d|] eqn:Hd;
    [|exists []; rewrite app_nil_r; split; [reflexivity | constructor]].
  unfold ret at 1.
  destruct (BigIntM.parse targetBalance) as [t|] eqn:Ht;
    [|exists []; rewrite app_nil_r; split; [reflexivity | constructor]].
  unfold ret at 1 2. rewrite console_log_eq. unfold get_accounts.
  rewrite request_eq.
  assert (Hsend : unfreeze_event microwaveAddress giverAddress targetBalance [item]
                    (Send (deploy_request microwaveAddress giverAddress item
                             (d + t + TX_FEE)))).
  { exists item, d, t. repeat split; [left; reflexivity | assumption..]. }
  destruct (send w _ _) as [tx|e|].
  - rewrite console_log_eq, request_eq.
    destruct (trace_finished w tx) as [[]|e|];
      rewrite ?console_log_eq; cbn [snd];
      rewrite !record_record, events_record;
      eexists; (split; [reflexivity|]);
      repeat (constructor; [first [exact I | exact Hsend]|]); constructor.
  - cbn [snd]. rewrite !record_record, events_record.
    eexists. split; [reflexivity|].
    repeat (constructor; [first [exact I | exact Hsend]|]); constructor.
  - cbn [snd]. rewrite !record_record, events_record.
    eexists. split; [reflexivity|].
    repeat (constructor; [first [exact I | exact Hsend]|]); constructor.
Qed.

End UnfreezeMessages.

(** X19: with a target balance and debts of ASCII characters, every
    message that the loop over the prepared states sends is the deploy of
    one of these states: it goes to the microwave contract, from the
    giver, not bounceable, with the address and the state of the item as
    they were prepared, and with the amount debt plus target balance plus
    fee of that item; and the loop does nothing else but write console
    lines and await confirmations. *)
Theorem unfreeze_sends_only_deploys (w : World)
    (microwaveAddress giverAddress : Address) (targetBalance : string)
    (states : list FrozenAccount) (st : State) :
  ascii_only targetBalance ->
  Forall (fun item => ascii_only (storageFeeDebt item)) states ->
  exists es,
    events (snd (unfreeze w microwaveAddress giverAddress targetBalance states st))
    = events st ++ es /\
    Forall (unfreeze_event microwaveAddress giverAddress targetBalance states) es.
Proof.
  intros _ _.
  revert st. induction states as [|item rest IH]; intros st.
  - exists []. cbn. rewrite app_nil_r. split; [reflexivity | constructor].
  - cbn [unfreeze]. unfold bind.
    destruct (unfreezeAccount_messages w microwaveAddress giverAddress
                targetBalance item st) as (es1 & E1 & F1).
    destruct (unfreezeAccount w microwaveAddress giverAddress targetBalance item st)
      as [o st1].
    cbn [snd] in E1.
    assert (F1' : Forall (unfreeze_event microwaveAddress giverAddress
                            targetBalance (item :: rest)) es1).
    { eapply Forall_impl; [exact F1|]. intros e.
      apply unfreeze_event_mono. intros i [<- | []]. left. reflexivity. }
    destruct o as [[]|e|]; cbn [snd]; [|exists es1; auto..].
    destruct (IH st1) as (es2 & E2 & F2).
    exists (es1 ++ es2). split; [rewrite E2, E1, app_assoc; reflexivity|].
    apply Forall_app. split; [exact F1'|].
    eapply Forall_impl; [exact F2|]. intros e.
    apply unfreeze_event_mono. intros i Hi. right. exact Hi.
Qed.

Lemma unfreeze_sends_only_deploys_witness :
  exists es,
    events (snd (unfreeze Demo.world (mkAddress "0:microwave") Demo.giverAddress
                   "1000000000" [mkFrozenAccount Demo.A "QUJD" "5"] Demo.st0))
    = events Demo.st0 ++ es /\
    Forall (unfreeze_event (mkAddress "0:microwave") Demo.giverAddress
              "1000000000" [mkFrozenAccount Demo.A "QUJD" "5"]) es /\
    sent es = [Demo.A].
Proof.
  destruct (unfreeze_sends_only_deploys Demo.world (mkAddress "0:microwave")
              Demo.giverAddress "1000000000"
              [mkFrozenAccount Demo.A "QUJD" "5"] Demo.st0)
    as (es & E & F).
  - intros c Hc. vm_compute in Hc.
    repeat (destruct Hc as [<- | Hc]; [reflexivity|]). destruct Hc.
  - repeat constructor. intros c Hc. vm_compute in Hc.
    repeat (destruct Hc as [<- | Hc]; [reflexivity|]). destruct Hc.
  - exists es. split; [exact E|]. split; [exact F|].
    change (events Demo.st0) with (@nil event) in E. cbn [Datatypes.app] in E.
    rewrite <- E. vm_compute. reflexivity.
Defined.

(** ** The whole run *)

Section Run.

Variable w : World.
Variable fuel : nat.

Lemma no_send_sent (es : list event) : Forall no_send es -> sent es = [].
Proof.
  induction 1 as [|e es He _ IH]; [reflexivity|].
  destruct e; try contradiction; exact IH.
Qed.

Lemma keeps_silent (Pp : string -> Prop) {A} (m : M A) :
  keeps no_send Pp m -> silent m.
Proof.
  intros K st. destruct (m st) as [o st'] eqn:H.
  destruct (K _ _ _ H) as ((es & E & F) & _ & _).
  exists es. split; [exact E | apply no_send_sent; exact F].
Qed.

Lemma quiet_no_send (e : event) : quiet_event e -> no_send e.
Proof. destruct e; cbn; auto. Qed.

Lemma keeps_reads_only {A} (m : M A) :
  keeps no_send (fun _ => False) m -> reads_only m.
Proof.
  intros K st. destruct (m st) as [o st'] eqn:H.
  destruct (K _ _ _ H) as ((es & E & F) & Hf & _). cbn [snd]. split.
  - apply map_eq. intros p. apply Hf. auto.
  - exists es. split; [exact E | apply no_send_sent; exact F].
Qed.

Lemma reads_only_loadKeys (sign : string) : reads_only (loadKeys w sign).
Proof.
  apply keeps_reads_only.
  unfold loadKeys, fs.readFile, fs.faulty.
  apply keeps_bind.
  - apply keeps_bind; [apply keeps_emit; exact I|]. keeps_auto.
  - intros bytes. apply keeps_bind; [apply keeps_settle|].
    intros data. destruct data; try apply keeps_throw.
    destruct (json_field "public" fields) as [[]|]; try apply keeps_throw.
    destruct (json_field "secret" fields) as [[]|]; try apply keeps_throw.
    apply keeps_bind; [apply keeps_emit; exact I | intros; apply keeps_ret].
Qed.

Lemma reads_only_guessGiverAccount (a : Address) (publicKey : string) :
  reads_only (guessGiverAccount w a publicKey).
Proof.
  apply keeps_reads_only.
  unfold guessGiverAccount.
  apply keeps_bind; [apply keeps_request; exact I|].
  intros [s|]; [|apply keeps_throw].
  destruct (codeHash s) as [h|]; [|apply keeps_throw].
  repeat match goal with
         | |- keeps _ _ (if ?b then _ else _) => destruct b
         end; first [apply keeps_ret | apply keeps_throw].
Qed.

Lemma reads_only_addAccount (account : Account) : reads_only (addAccount account).
Proof.
  intros st. split; [reflexivity|].
  exists [AddAccount account]. split; reflexivity.
Qed.

Lemma reads_only_request {A} (e : event) (o : outcome A) :
  no_send e -> reads_only (request e o).
Proof. intros He. apply keeps_reads_only. apply keeps_request. exact He. Qed.

(** What [readAccounts] returns depends on the files only. *)
Lemma listed_files (path : string) (st st' : State) :
  files st' = files st -> listed w path st' = listed w path st.
Proof.
  intros H. unfold listed, readAccounts, bind, fs.readFile, fs.faulty, bind.
  rewrite !emit_eq.
  destruct (fs_fault w OpReadFile path); [reflexivity|].
  unfold get_files. cbn [files record]. rewrite H.
  destruct (files st !! path) as [[data|]|]; reflexivity.
Qed.

(** After a step that only reads, what is sent is what the rest sends. *)
Lemma listed_bind {A B} (path : string) (m : M A) (k : A -> M B) :
  reads_only m ->
  (forall x st, exists es,
      events (snd (k x st)) = events st ++ es /\
      sublist (sent es) (listed w path st)) ->
  forall st, exists es,
    events (snd (bind m k st)) = events st ++ es /\
    sublist (sent es) (listed w path st).
Proof.
  intros Hm Hk st. unfold bind.
  destruct (Hm st) as (Hf & es1 & E1 & S1).
  destruct (m st) as [[x|e|] st1]; cbn [snd] in *.
  - destruct (Hk x st1) as (es2 & E2 & Q2).
    exists (es1 ++ es2). split; [rewrite E2, E1, app_assoc; reflexivity|].
    rewrite sent_app, S1. rewrite <- (listed_files path st st1 Hf). exact Q2.
  - exists es1. rewrite S1. split; [exact E1 | apply sublist_nil_l].
  - exists es1. rewrite S1. split; [exact E1 | apply sublist_nil_l].
Qed.

Lemma silent_request {A} (e : event) (o : outcome A) :
  no_send e -> silent (request e o).
Proof.
  intros He. apply (keeps_silent (fun _ => False)). apply keeps_request. exact He.
Qed.

Lemma silent_prepareStates (accounts : list Address) (ignoreCache : bool) :
  silent (prepareStates w fuel accounts ignoreCache).
Proof.
  apply (keeps_silent
           (cache_path w (path_join w (os_tmpdir w) CACHE_DIR) accounts)).
  apply (keeps_weaken quiet_event no_send _ _ _ quiet_no_send (fun p H => H)).
  unfold prepareStates. apply keeps_bind.
  - apply keeps_mkdir; [exact I | left; reflexivity |].
    intros q Hq. right. left. exact Hq.
  - intros _. apply keeps_prepareStates_loop. auto.
Qed.

(** After a silent step, what is sent is what the rest sends. *)
Lemma sent_bind {A B} (Q : list Address -> Prop) (m : M A) (k : A -> M B) :
  silent m ->
  Q [] ->
  (forall x st, exists es, events (snd (k x st)) = events st ++ es /\ Q (sent es)) ->
  forall st, exists es, events (snd (bind m k st)) = events st ++ es /\ Q (sent es).
Proof.
  intros Hm Hq Hk st. unfold bind.
  destruct (Hm st) as (es1 & E1 & S1).
  destruct (m st) as [[x|e|] st1]; cbn [snd] in E1.
  - destruct (Hk x st1) as (es2 & E2 & Q2).
    exists (es1 ++ es2). split; [rewrite E2, E1, app_assoc; reflexivity|].
    rewrite sent_app, S1. exact Q2.
  - exists es1. cbn [snd]. rewrite S1. auto.
  - exists es1. cbn [snd]. rewrite S1. auto.
Qed.

Lemma prepareStates_sublist (accounts : list Address) (ignoreCache : bool)
    (st st' : State) (states : list FrozenAccount) :
  prepareStates w fuel accounts ignoreCache st = (Ret states, st') ->
  sublist (map address states) accounts.
Proof.
  intros H. unfold prepareStates, bind in H.
  destruct (fs.mkdir w _ st) as [[[]|e|] st1]; try discriminate H.
  pose proof (prepareStates_loop_results w fuel ignoreCache
                (path_join w (os_tmpdir w) CACHE_DIR) (timestamp_of w)
                (length accounts) accounts 0 [] st1) as Hl.
  cbn zeta in Hl. destruct Hl as (es & _ & _ & R). rewrite H in R.
  destruct (R states eq_refl) as (items & -> & Hsub & _). exact Hsub.
Qed.

Lemma unfreeze_sent_prefix (m g : Address) (tb : string)
    (states : list FrozenAccount) :
  forall st, exists es todo,
    events (snd (unfreeze w m g tb states st)) = events st ++ es /\
    map address states = sent es ++ todo.
Proof.
  induction states as [|item rest IH]; intros st.
  - exists [], []. cbn. rewrite app_nil_r. auto.
  - cbn [unfreeze]. unfold bind.
    pose proof (unfreezeAccount_events w m g tb item st) as H. cbn zeta in H.
    destruct (unfreezeAccount w m g tb item st) as [o st1].
    cbn [fst snd] in H. destruct H as (_ & _ & es1 & E1 & Hcase).
    destruct o as [[]|e|].
    + destruct Hcase as [(_ & S1 & _) | [(Hn & _) | (Hn & _)]];
        try (contradiction Hn; reflexivity).
      destruct (IH st1) as (es2 & todo & E2 & Hmap).
      exists (es1 ++ es2), todo.
      split; [rewrite E2, E1, app_assoc; reflexivity|].
      rewrite sent_app, S1. cbn [map]. rewrite Hmap. reflexivity.
    + cbn [snd].
      destruct Hcase as [(Hr & _) | [(_ & S1 & _) | (_ & S1 & _)]];
        [discriminate Hr| |].
      * exists es1, (map address (item :: rest)). rewrite S1. auto.
      * exists es1, (map address rest). rewrite S1. auto.
    + cbn [snd].
      destruct Hcase as [(Hr & _) | [(_ & S1 & _) | (_ & S1 & _)]];
        [discriminate Hr| |].
      * exists es1, (map address (item :: rest)). rewrite S1. auto.
      * exists es1, (map address rest). rewrite S1. auto.
Qed.

Lemma run_accounts_sent (parsedArgs : ParsedArgs) (accounts : list Address) :
  forall st, exists es,
    events (snd (run_accounts w fuel parsedArgs accounts st)) = events st ++ es /\
    sublist (sent es) accounts.
Proof.
  assert (Hnil : sublist [] accounts) by apply sublist_nil_l.
  unfold run_accounts, console_log.
  apply (sent_bind (fun l => sublist l accounts));
    [apply (keeps_silent (fun _ => False)); apply keeps_emit; exact I | exact Hnil|].
  intros _. apply (sent_bind (fun l => sublist l accounts));
    [apply silent_request; exact I | exact Hnil|].
  intros hash. apply (sent_bind (fun l => sublist l accounts));
    [apply (keeps_silent (fun _ => False)); apply keeps_emit; exact I | exact Hnil|].
  intros _. apply (sent_bind (fun l => sublist l accounts));
    [apply (keeps_silent (fun _ => False)); apply keeps_emit; exact I | exact Hnil|].
  intros _ st. unfold bind.
  destruct (silent_prepareStates accounts (ignoreCache parsedArgs) st)
    as (es1 & E1 & S1).
  destruct (prepareStates w fuel accounts (ignoreCache parsedArgs) st)
    as [o st1] eqn:Hp.
  cbn [snd] in E1.
  destruct o as [states|e|]; cbn [snd];
    [|exists es1; rewrite S1; auto..].
  pose proof (prepareStates_sublist _ _ _ _ _ Hp) as Hsub.
  rewrite emit_eq.
  destruct (unfreeze_sent_prefix (mkAddress ("0:" +:+ hash))
              (mkAddress (giver parsedArgs)) (targetBalance parsedArgs) states
              (record [ConsoleLog "Unfreezing contracts"] st1))
    as (es2 & todo & E2 & Hmap).
  exists (es1 ++ [ConsoleLog "Unfreezing contracts"] ++ es2).
  split.
  - rewrite E2, events_record, E1. list_norm. reflexivity.
  - rewrite !sent_app, S1. cbn [sent omap Datatypes.app].
    etransitivity; [|exact Hsub]. rewrite Hmap. apply sublist_inserts_r.
    reflexivity.
Qed.

Lemma run_unfold (parsedArgs : ParsedArgs) :
  run w fuel parsedArgs
  = (publicKey <- loadKeys w (sign parsedArgs) ;;
     request EnsureInitialized (ensureInitialized w) ;;;
     account <- guessGiverAccount w (mkAddress (giver parsedArgs)) publicKey ;;
     addAccount account ;;;
     accounts <- readAccounts w (path parsedArgs) ;;
     run_accounts w fuel parsedArgs accounts).
Proof. reflexivity. Qed.

End Run.

(** X20: in a whole run, whatever its outcome, a deploy message is only
    ever sent for addresses of the address list, as [readAccounts] finds
    it in the files that the run starts with (no file is changed before
    the list is read): the destinations of the messages sent, in the
    order of sending, are taken from that list in its order, each address
    at most as often as it is listed; if the list cannot be read, nothing
    is sent. *)
Theorem run_sends_only_for_listed_accounts (w : World) (fuel : nat)
    (parsedArgs : ParsedArgs) (st : State) :
  exists es,
    events (snd (run w fuel parsedArgs st)) = events st ++ es /\
    sublist (sent es) (listed w (path parsedArgs) st).
Proof.
  rewrite run_unfold. revert st.
  apply listed_bind; [apply reads_only_loadKeys|].
  intros publicKey. apply listed_bind; [apply reads_only_request; exact I|].
  intros _. apply listed_bind; [apply reads_only_guessGiverAccount|].
  intros account. apply listed_bind; [apply reads_only_addAccount|].
  intros _ st. unfold bind, listed.
  destruct (readAccounts w (path parsedArgs) st) as [o st1] eqn:Hr.
  assert (E1 : exists es1, events st1 = events st ++ es1 /\ sent es1 = []).
  { unfold readAccounts, bind, fs.readFile, fs.faulty, bind in Hr.
    rewrite emit_eq in Hr.
    exists [FsReadFile (path parsedArgs)]. split; [|reflexivity].
    destruct (fs_fault w OpReadFile (path parsedArgs));
      [injection Hr as _ <-; reflexivity|].
    unfold get_files in Hr. cbn [files record] in Hr.
    destruct (files st !! path parsedArgs) as [[data|]|];
      injection Hr as _ <-; reflexivity. }
  destruct E1 as (es1 & E1 & S1).
  destruct o as [accounts|e|]; cbn [fst snd];
    [|exists es1; rewrite S1; split; [exact E1 | apply sublist_nil_l]..].
  destruct (run_accounts_sent w fuel parsedArgs accounts st1) as (es2 & E2 & Hsub).
  exists (es1 ++ es2). split; [rewrite E2, E1, app_assoc; reflexivity|].
  rewrite sent_app, S1. exact Hsub.
Qed.

(** ** More on the loop of [prepareStates] *)

(** X21: [prepareStates] ends in an exception in two cases only: when
    the cache directory cannot be made, with the exception of [mkdir] and
    before any account is looked at; and when the preparation of one of
    the listed accounts is rejected with [null] or [undefined], with the
    [TypeError] of the catch clause, which cannot read [e.message], after
    the accounts before it were worked through.  No other failure of an
    account makes it throw. *)
Theorem prepareStates_throws_at_mkdir_or_in_the_catch (w : World) (fuel : nat)
    (accounts : list Address) (ignoreCache : bool) (st st' : State) (e : exn) :
  let cacheDirPath := path_join w (os_tmpdir w) CACHE_DIR in
  prepareStates w fuel accounts ignoreCache st = (Throw e, st') <->
  fs.mkdir w cacheDirPath st = (Throw e, st') \/
  exists st0 pre a rest result st1 rejection,
    fs.mkdir w cacheDirPath st = (Ret tt, st0) /\
    accounts = pre ++ a :: rest /\
    prepareStates_loop w fuel ignoreCache cacheDirPath (timestamp_of w)
      (length accounts) 0 [] pre st0 = (Ret result, st1) /\
    prepareAccount w fuel ignoreCache (timestamp_of w)
      (path_join w cacheDirPath (toString a)) a
      (record [ConsoleLog (preparing_line (S (length pre)) (length accounts) a)] st1)
    = (Throw rejection, st') /\
    nullish rejection /\
    unreadable "message" rejection = Some e.
Proof.
  intros cacheDirPath. unfold prepareStates, bind. fold cacheDirPath.
  destruct (fs.mkdir w cacheDirPath st) as [[[]|e1|] st1] eqn:Hm.
  - split.
    + intros H. right.
      destruct (prepareStates_loop_throws w fuel ignoreCache cacheDirPath
                  (timestamp_of w) (length accounts) accounts 0 [] st1 e st' H)
        as (pre & a & rest & result & st2 & n & Hacc & Hpre & Ha & Hn & Hu).
      exists st1, pre, a, rest, result, st2, n.
      repeat split; assumption.
    + intros [H | (st0 & pre & a & rest & result & st2 & n & H0 & Hacc & Hpre & Ha & _ & Hu)];
        [discriminate H|].
      injection H0 as <-.
      rewrite Hacc at 2.
      rewrite prepareStates_loop_app, Hpre, prepareStates_loop_cons.
      cbn [Nat.add]. rewrite Ha, Hu. reflexivity.
  - split.
    + intros H. left. injection H as <- <-. reflexivity.
    + intros [H | (st0 & pre & a & rest & result & st2 & n & H0 & _)];
        [injection H as <- <-; reflexivity | discriminate H0].
  - split; [discriminate|].
    intros [H | (st0 & pre & a & rest & result & st2 & n & H0 & _)];
      [discriminate H | discriminate H0].
Qed.

(** X22: addresses are not deduplicated.  With the cache in use, an
    address that is listed twice in a row and is prepared well the first
    time is prepared a second time, from the cache: the results gain two
    items for it, the second with the bytes of the first state and the
    debt of the second estimate. *)
Theorem listed_twice_is_prepared_twice (w : World) (fuel : nat)
    (cacheDirPath : string) (timestamp : Z) (total current : nat)
    (result : list FrozenAccount) (a : Address) (item : FrozenAccount)
    (d' : string) (st st1 st2 : State) :
  let statePath := path_join w cacheDirPath (toString a) in
  prepareAccount w fuel false timestamp statePath a
    (record [ConsoleLog (preparing_line (S current) total a)] st)
  = (Ret item, st1) ->
  fs_fault w OpStat statePath = None ->
  fs_fault w OpReadFile statePath = None ->
  estimate w timestamp a
    (record [ConsoleLog (preparing_line (S (S current)) total a)] st1)
  = (Ret d', st2) ->
  exists state',
    prepareStates_loop w fuel false cacheDirPath timestamp total current result
      [a; a] st
    = (Ret (result ++ [item; mkFrozenAccount a state' d']),
       record [ FsStat statePath; FsReadFile statePath;
                ConsoleLog "  using cached state" ] st2) /\
    Base64.decode state' = Base64.decode (state item).
Proof.
  intros statePath H1 Hs Hr He.
  pose proof (prepareAccount_leaves_state_file w _ _ _ _ _ _ _ _ H1) as Hfile.
  exists (Base64.encode (Base64.decode (state item))).
  split; [|apply decode_encode].
  rewrite prepareStates_loop_cons. fold statePath. rewrite H1.
  rewrite prepareStates_loop_cons. fold statePath.
  rewrite (prepareAccount_hit w fuel timestamp statePath a
             (Base64.decode (state item)) d' _ st2); try assumption.
  cbn [prepareStates_loop]. unfold ret. rewrite <- app_assoc. reflexivity.
Qed.

Lemma listed_twice_is_prepared_twice_witness :
  exists state',
    prepareStates_loop Demo.world 2 false Demo.cacheDirPath Demo.timestamp 2 0 []
      [Demo.A; Demo.A] Demo.st0
    = (Ret ([] ++ [mkFrozenAccount Demo.A "QUJD" "5";
                   mkFrozenAccount Demo.A state' "5"]),
       record [ FsStat (Demo.statePath Demo.A); FsReadFile (Demo.statePath Demo.A);
                ConsoleLog "  using cached state" ]
         (snd (estimate Demo.world Demo.timestamp Demo.A
                 (record [ConsoleLog (preparing_line 2 2 Demo.A)]
                    (snd (prepareAccount Demo.world 2 false Demo.timestamp
                            (Demo.statePath Demo.A) Demo.A
                            (record [ConsoleLog (preparing_line 1 2 Demo.A)]
                               Demo.st0))))))) /\
    Base64.decode state' = Base64.decode "QUJD".
Proof.
  apply (listed_twice_is_prepared_twice Demo.world 2 Demo.cacheDirPath
           Demo.timestamp 2 0 [] Demo.A (mkFrozenAccount Demo.A "QUJD" "5") "5"
           Demo.st0
           (snd (prepareAccount Demo.world 2 false Demo.timestamp
                   (Demo.statePath Demo.A) Demo.A
                   (record [ConsoleLog (preparing_line 1 2 Demo.A)] Demo.st0)))).
  - vm_compute. reflexivity.
  - reflexivity.
  - reflexivity.
  - vm_compute. reflexivity.
Defined.
